(** * Rawi story generator: the session state machine, the reply parser and
      the model client of [ai_service.py], with the data classes of
      [models.py], the prompt builders of [prompts.py], the routes of
      [routers/story.py] over them and the speech service of
      [tts_service.py].

    Python [str] values are lists of Unicode code points, the two module-level
    dictionaries [stories_context] and [stories_metadata] are finite maps, the
    Python lists they hold live in a store of list objects addressed by
    location (so that a local variable bound to such a list is an alias of
    it), and the coroutines run in a state-and-exception monad over the
    world: an exception leaves the world as it was when it was raised. *)

From Stdlib Require Import ZArith NArith QArith List Bool Lia Ascii String DecimalString.
From stdpp Require Import base option list gmap.

Local Open Scope Z_scope.
Local Open Scope list_scope.

(** ** Python strings *)

(** A [str] is its sequence of code points. *)
Abbreviation str := (list N).

(** Reading of a literal of this file (UTF-8 bytes) as code points. *)
Fixpoint utf8_go (bs : list N) (need : nat) (acc : N) : str :=
  match bs with
  | [] => []
  | b :: bs' =>
      match need with
      | O =>
          if (b <? 128)%N then b :: utf8_go bs' 0 0%N
          else if (b <? 224)%N then utf8_go bs' 1 (b - 192)%N
          else if (b <? 240)%N then utf8_go bs' 2 (b - 224)%N
          else utf8_go bs' 3 (b - 240)%N
      | S n =>
          let acc' := (acc * 64 + (b - 128))%N in
          match n with
          | O => acc' :: utf8_go bs' 0 0%N
          | S _ => utf8_go bs' n acc'
          end
      end
  end.

Definition U (s : string) : str :=
  utf8_go (map N_of_ascii (list_ascii_of_string s)) 0 0%N.

(** The double quote, which the literals below splice in. *)
Definition dq : str := [34%N].
Definition nl : str := [10%N].

(** [str.isspace], which is also the class [\s] of [re] on [str] patterns. *)
Definition isspace (c : N) : bool :=
  ((9 <=? c) && (c <=? 13) || (28 <=? c) && (c <=? 32)
   || (c =? 133) || (c =? 160) || (c =? 5760)
   || (8192 <=? c) && (c <=? 8202)
   || (c =? 8232) || (c =? 8233) || (c =? 8239) || (c =? 8287)
   || (c =? 12288))%N.

(** First code points of the runs of ten decimal digits of category Nd
    (Unicode 14.0); U+1D7CE..U+1D7FF holds five such runs in a row. *)
Definition nd_runs : list N :=
  [48; 1632; 1776; 1984; 2406; 2534; 2662; 2790; 2918; 3046; 3174; 3302;
   3430; 3558; 3664; 3792; 3872; 4160; 4240; 6112; 6160; 6470; 6608; 6784;
   6800; 6992; 7088; 7232; 7248; 42528; 43216; 43264; 43472; 43504; 43600;
   44016; 65296; 66720; 68912; 69734; 69872; 69942; 70096; 70384; 70736;
   70864; 71248; 71360; 71472; 71904; 72016; 72784; 73040; 73120; 92768;
   92864; 93008; 120782; 120792; 120802; 120812; 120822; 123200; 123632;
   125264; 130032]%N.

(** The class [\d] of [re] on [str] patterns. *)
Definition isdecimal (c : N) : bool :=
  existsb (fun lo => (lo <=? c) && (c <? lo + 10))%N nd_runs.

Fixpoint startswith (p s : str) : bool :=
  match p, s with
  | [], _ => true
  | _ :: _, [] => false
  | a :: p', b :: s' => (a =? b)%N && startswith p' s'
  end.

Fixpoint lstrip (s : str) : str :=
  match s with
  | [] => []
  | c :: s' => if isspace c then lstrip s' else s
  end.

Definition rstrip (s : str) : str := rev (lstrip (rev s)).

(** [s.strip()] *)
Definition strip (s : str) : str := rstrip (lstrip s).

(** [sep.join(l)] *)
Fixpoint join (sep : str) (l : list str) : str :=
  match l with
  | [] => []
  | [x] => x
  | x :: l' => x ++ sep ++ join sep l'
  end.

(** [s.split(sep)] for a non-empty [sep]: [skip] counts the code points of
    a separator still to be passed over, [cur] is the current piece,
    reversed. *)
Fixpoint split_go (sep : str) (skip : nat) (cur : str) (s : str) : list str :=
  match s with
  | [] => [rev cur]
  | c :: s' =>
      match skip with
      | S k => split_go sep k cur s'
      | O =>
          if startswith sep s
          then rev cur :: split_go sep (Nat.pred (length sep)) [] s'
          else split_go sep 0 (c :: cur) s'
      end
  end.

Definition split (sep : str) (s : str) : list str := split_go sep 0 [] s.

(** [s.replace(old, new)] for a non-empty [old]. *)
Fixpoint replace_go (old new : str) (skip : nat) (s : str) : str :=
  match s with
  | [] => []
  | c :: s' =>
      match skip with
      | S k => replace_go old new k s'
      | O =>
          if startswith old s
          then new ++ replace_go old new (Nat.pred (length old)) s'
          else c :: replace_go old new 0 s'
      end
  end.

Definition replace (old new : str) (s : str) : str := replace_go old new 0 s.

(** [str(n)] for an [int]. *)
Definition str_of_Z (n : Z) : str :=
  map N_of_ascii (list_ascii_of_string (NilZero.string_of_int (Z.to_int n))).

(** Truth value of a [str]: the empty string is false. *)
Definition truthy (s : str) : bool :=
  match s with [] => false | _ :: _ => true end.

(** ** The regular expressions of [ai_service.py] *)

(** [s] contains [m]: the leftmost place where [m] starts, as what follows
    the occurrence. *)
Fixpoint after_marker (m s : str) : option str :=
  if startswith m s then Some (drop (length m) s)
  else match s with
       | [] => None
       | _ :: s' => after_marker m s'
       end.

(** [$] without [re.MULTILINE]: the end of the text, or just before a
    newline that ends it. *)
Definition at_dollar (s : str) : bool :=
  match s with
  | [] => true
  | [c] => (c =? 10)%N
  | _ => false
  end.

(** A lazy [(.*?)] under [re.DOTALL] followed by [(?:alt|$)]: the shortest
    prefix after which [stop] or [$] holds, and the text from there on. *)
Fixpoint lazy_group (stop : str -> bool) (s : str) : str * str :=
  match s with
  | [] => ([], [])
  | c :: s' =>
      if stop s || at_dollar s then ([], s)
      else let '(g, r) := lazy_group stop s' in (c :: g, r)
  end.

Definition marker_paragraph : str := U "الفقرة:".
Definition marker_choices : str := U "الخيارات:".
Definition marker_title : str := U "العنوان:".
Definition marker_new_title : str := U "العنوان الجديد:".

(** [re.search(r"الفقرة:(.*?)(?:الخيارات:|العنوان:|$)", s, re.DOTALL)],
    as [group(1)]. *)
Definition search_paragraph (s : str) : option str :=
  match after_marker marker_paragraph s with
  | None => None
  | Some rest =>
      Some (fst (lazy_group
                   (fun r => startswith marker_choices r
                             || startswith marker_title r) rest))
  end.

(** [re.search(m + r"(.*?)(?:$)", s, re.DOTALL)], as [group(1)]. *)
Definition search_to_end (m s : str) : option str :=
  match after_marker m s with
  | None => None
  | Some rest => Some (fst (lazy_group (fun _ => false) rest))
  end.

(** [\d+\.] anchored at the start of [s]: what follows it. The greedy run
    of digits has to be the whole run, since a digit is not a dot. *)
Fixpoint digits_dot_go (seen : bool) (s : str) : option str :=
  match s with
  | [] => None
  | c :: s' =>
      if isdecimal c then digits_dot_go true s'
      else if seen && (c =? 46)%N then Some s'
      else None
  end.

Definition digits_dot (s : str) : option str := digits_dot_go false s.

(** [\d+\.\s*(.*?)(?=\d+\.|$)] under [re.DOTALL] anchored at the start of
    [s]: [group(1)] and the number of code points the match spans. *)
Definition numbered_at (s : str) : option (str * nat) :=
  match digits_dot s with
  | None => None
  | Some r =>
      let '(g, rest) := lazy_group (fun x => bool_decide (is_Some (digits_dot x)))
                                   (lstrip r) in
      Some (g, (length s - length rest)%nat)
  end.

(** [re.findall(r"\d+\.\s*(.*?)(?=\d+\.|$)", s, re.DOTALL)]: the matches
    from left to right, none overlapping; [skip] counts the code points of
    the last match still to be passed over. *)
Fixpoint findall_go (skip : nat) (s : str) : list str :=
  match s with
  | [] => []
  | _ :: s' =>
      match skip with
      | S k => findall_go k s'
      | O =>
          match numbered_at s with
          | Some (g, n) => g :: findall_go (Nat.pred n) s'
          | None => findall_go 0 s'
          end
      end
  end.

Definition findall_numbered (s : str) : list str := findall_go 0 s.

(** [re.sub(r"^\d+\.\s*", "", line)]: [^] holds at the start only. *)
Definition sub_numbering (line : str) : str :=
  match digits_dot line with
  | None => line
  | Some r => lstrip r
  end.

(** [.] without [re.DOTALL]: the run up to the next newline, and the text
    after that newline (or nothing, at the end). *)
Fixpoint line_rest (s : str) : str * str :=
  match s with
  | [] => ([], [])
  | c :: s' =>
      if (c =? 10)%N then ([], s')
      else let '(g, r) := line_rest s' in (c :: g, r)
  end.

(** [العنوان الجديد:\s*(.*?)(?:\n|$)] anchored at the start of [s]:
    [group(1)] and the span of the match. [re.IGNORECASE] changes nothing:
    no letter of the pattern has a case variant. *)
Definition new_title_at (s : str) : option (str * nat) :=
  if startswith marker_new_title s then
    let '(g, rest) := line_rest (lstrip (drop (length marker_new_title) s)) in
    Some (g, (length s - length rest)%nat)
  else None.

(** [re.search(r"العنوان الجديد:\s*(.*?)(?:\n|$)", s, re.IGNORECASE)], as
    [group(1)]. *)
Fixpoint search_new_title (s : str) : option str :=
  match new_title_at s with
  | Some (g, _) => Some g
  | None => match s with
            | [] => None
            | _ :: s' => search_new_title s'
            end
  end.

(** [re.sub(r"العنوان الجديد:\s*.*?(?:\n|$)", "", s, flags=re.IGNORECASE)] *)
Fixpoint sub_new_title_go (skip : nat) (s : str) : str :=
  match s with
  | [] => []
  | c :: s' =>
      match skip with
      | S k => sub_new_title_go k s'
      | O =>
          match new_title_at s with
          | Some (_, n) => sub_new_title_go (Nat.pred n) s'
          | None => c :: sub_new_title_go 0 s'
          end
      end
  end.

Definition sub_new_title (s : str) : str := sub_new_title_go 0 s.

(** ** models.py *)

Module models.

Inductive StoryLength := SHORT | MEDIUM | LONG.

Inductive StoryType :=
| ROMANCE | HORROR | COMEDY | ACTION | ADVENTURE | DRAMA | FANTASY
| HISTORICAL | MYSTERY | NONE.

Inductive CharacterGender := MALE | FEMALE.

(** The [.value] of the members of the two Arabic enumerations. *)
Definition StoryType_value (t : StoryType) : str :=
  match t with
  | ROMANCE => U "رومانسي"
  | HORROR => U "رعب"
  | COMEDY => U "كوميدي"
  | ACTION => U "أكشن"
  | ADVENTURE => U "مغامرة"
  | DRAMA => U "دراما"
  | FANTASY => U "خيال"
  | HISTORICAL => U "تاريخي"
  | MYSTERY => U "غموض"
  | NONE => U "لا"
  end.

Definition CharacterGender_value (g : CharacterGender) : str :=
  match g with
  | MALE => U "ذكر"
  | FEMALE => U "أنثى"
  end.

Record Character := {
  name : str;
  gender : CharacterGender;
  description : str
}.

Record StoryConfig := {
  length : StoryLength;
  primary_type : StoryType;
  secondary_type : StoryType;
  characters : list Character
}.

Record StoryChoice := { id : Z; text : str }.

Record StoryParagraph := {
  content : str;
  choices : option (list StoryChoice)
}.

Record StoryResponse := {
  story_id : str;
  paragraph : StoryParagraph;
  is_complete : bool;
  title : option str
}.

(** The request and response models of the routes; each has a name space
    of its own, for its fields bear names that other models use too. *)
Module ChoiceRequest.
Record t := {
  story_id : str;
  choice_id : option Z;
  custom_text : option str
}.
End ChoiceRequest.

Module EditRequest.
Record t := {
  story_id : str;
  edit_instructions : str
}.
End EditRequest.

Module EditResponse.
Record t := {
  success : bool;
  paragraphs : list str;
  title : option str
}.
End EditResponse.

End models.

(** ** The reply parser of ai_service.py *)

(** [enumerate(l, start)] *)
Fixpoint enumerate {A} (start : Z) (l : list A) : list (Z * A) :=
  match l with
  | [] => []
  | x :: l' => (start, x) :: enumerate (start + 1) l'
  end.

(** The loop over the numbered matches: a match whose text is empty once
    stripped adds no choice, and every other one takes the position of its
    match as its id. *)
Definition numbered_choices (choices_text : str) : list models.StoryChoice :=
  flat_map
    (fun '(i, choice_match) =>
       let choice_text := strip choice_match in
       if truthy choice_text
       then [ {| models.id := i; models.text := choice_text |} ]
       else [])
    (enumerate 1 (findall_numbered choices_text)).

(** The loop over the non-blank lines, of which the first three count. *)
Definition line_choices (choices_text : str) : list models.StoryChoice :=
  let lines := split nl choices_text in
  flat_map
    (fun '(i, line) =>
       if i <=? 3
       then [ {| models.id := i;
                 models.text := strip (sub_numbering line) |} ]
       else [])
    (enumerate 1 (filter (fun l => truthy (strip l) = true) lines)).

Definition parse_paragraph_and_choices (response_text : str)
  : str * option (list models.StoryChoice) * option str :=
  let paragraph_match := search_paragraph response_text in
  let paragraph :=
    match paragraph_match with
    | Some g => strip g
    | None => strip response_text
    end in
  let choices_match := search_to_end marker_choices response_text in
  let choices :=
    match choices_match with
    | None => None
    | Some g =>
        let choices_text := strip g in
        let choices := numbered_choices choices_text in
        match choices with
        | [] => Some (line_choices choices_text)
        | _ :: _ => Some choices
        end
    end in
  let title_match := search_to_end marker_title response_text in
  let title :=
    match title_match with
    | Some g => Some (strip g)
    | None => None
    end in
  (paragraph, choices, title).

(** The reading of the reply in [edit_story]: the new title, if a line
    carries one, and the paragraphs of what is left. *)
Definition parse_edit (response_text : str) : option str * list str :=
  let title_match := search_new_title response_text in
  let '(new_title, response_text) :=
    match title_match with
    | Some g => (Some (strip g), sub_new_title response_text)
    | None => (None, response_text)
    end in
  let edited_paragraphs :=
    map strip (filter (fun p => truthy (strip p) = true)
                      (split (nl ++ nl) response_text)) in
  (new_title, edited_paragraphs).

(** ** prompts.py *)

Module prompts.

Definition get_system_prompt : str :=
  U "
    You are a professional and creative Arabic story writer. Your task is to write original, engaging, and cohesive Arabic stories.
    
    Adhere to the following standards in all the stories you write:

    1. Use correct and understandable classical Arabic language, free from grammatical and spelling errors.
    2. Build a coherent and logical story that follows good dramatic structure principles (beginning, rising action, climax, resolution).
    3. Adhere to Arabic and Islamic values and ethics in the story content.
    4. Avoid inappropriate content or anything that violates public taste or religious values.
    5. Provide detailed sensory descriptions of characters, places, and events to make the story vivid and engaging.
    6. Make dialogue realistic and natural, appropriate to the story's characters and environment.
    7. Maintain consistency in character traits and behaviors throughout the story.
    8. Include positive values and useful lessons in an indirect way.
    9. Use diverse narrative techniques: description, dialogue, narration, internal monologue.
    10. Create a clear conflict that drives the story events and maintains reader interest.

    Each time you are asked to write a new paragraph of the story, you must:
    - Write a coherent and engaging narrative paragraph of 4-6 lines in Arabic.
    - Provide 3 distinctive and interesting options to develop the story's path.
    
    Important rules for options:
    1. Make options very practical and short (3-5 words only) in Arabic.
    2. ALWAYS start each option with the character's name followed by the action verb.
    3. Use clear format: "
  ++ dq
  ++ U "[Character name] + verb"
  ++ dq
  ++ U ", for example: "
  ++ dq
  ++ U "أحمد يتصل بالشرطة"
  ++ dq
  ++ U " (Ahmed calls the police), "
  ++ dq
  ++ U "سارة تهرب من المكان"
  ++ dq
  ++ U " (Sarah escapes from the place).
    4. Make it absolutely clear WHO is performing the action in each option.
    5. Don't explain what will happen after the choice, just mention the direct action.
    6. Ensure each option will lead to a completely different path in the story.
    7. Make options logical and appropriate to the current situation in the story.
    
    Result of user choice:
    1. Do not summarize the user's chosen option at the beginning of the next paragraph.
    2. Start directly with the reactions and consequences resulting from the user's choice.
    3. Present surprising and unexpected developments resulting from the choice.
    4. Maintain story consistency despite the change in path.
    
    When the story is complete, choose an engaging and deep title that reflects the essence and content of the story.
    ".

Definition format_characters_info (characters : list models.Character) : str :=
  match characters with
  | [] => U "لا توجد شخصيات محددة، يمكنك إنشاء شخصيات مناسبة للقصة."
  | _ :: _ =>
      fold_left
        (fun characters_info '(i, character) =>
           let gender_text :=
             if bool_decide (models.CharacterGender_value (models.gender character)
                             = U "ذكر")
             then U "ذكر" else U "أنثى" in
           characters_info
           ++ str_of_Z i
           ++ U ". الشخصية: "
           ++ models.name character
           ++ U "، الجنس: "
           ++ gender_text
           ++ U "، الوصف: "
           ++ models.description character
           ++ U "
")
        (enumerate 1 characters)
        (U "معلومات الشخصيات:
")
  end.

(** The dictionary with the keys [paragraphs] and [description]. *)
Record LengthInfo := { paragraphs : Z; description : str }.

Definition get_story_length_instructions (length : models.StoryLength)
  : LengthInfo :=
  match length with
  | models.SHORT =>
      {| paragraphs := 3; description := U "قصة قصيرة تتكون من 3 فقرات" |}
  | models.MEDIUM =>
      {| paragraphs := 5; description := U "قصة متوسطة الطول تتكون من 5 فقرات" |}
  | models.LONG =>
      {| paragraphs := 7; description := U "قصة طويلة تتكون من 7 فقرات" |}
  end.

Definition get_story_type_description (primary_type secondary_type : models.StoryType)
  : str :=
  match secondary_type with
  | models.NONE =>
      U "قصة من نوع "
      ++ models.StoryType_value primary_type
  | _ =>
      U "قصة تجمع بين نوعي "
      ++ models.StoryType_value primary_type
      ++ U " و"
      ++ models.StoryType_value secondary_type
  end.

Definition create_story_init_prompt (config : models.StoryConfig) : str :=
  let length_info := get_story_length_instructions (models.length config) in
  let story_type :=
    get_story_type_description (models.primary_type config)
                               (models.secondary_type config) in
  let characters_info := format_characters_info (models.characters config) in
  U "
    Please write "
  ++ description length_info
  ++ U " of "
  ++ story_type
  ++ U ".
    
    "
  ++ characters_info
  ++ U "
    
    Required from you:
    1. Write the first paragraph of the story (4-6 lines) in Arabic.
    2. Start the story with a strong and engaging beginning that captivates the reader from the first line.
    3. Present the characters and setting (place and time) clearly and interestingly.
    4. Establish a conflict, problem, or situation that drives the story events.
    5. Present 3 short, exciting, and logical options for actions the protagonist can take.
    6. Make the options very short (3-5 words only) and practical and direct.
    7. ALWAYS include the character's name in each option before the action verb.
    8. Format: "
  ++ dq
  ++ U "[Character name] + verb"
  ++ dq
  ++ U ", like: "
  ++ dq
  ++ U "أحمد يتصل بالشرطة"
  ++ dq
  ++ U ", "
  ++ dq
  ++ U "سارة تهرب من المكان"
  ++ dq
  ++ U ".
    
    Present the first paragraph and options in the following format:
    
    الفقرة:
    [Write the first paragraph of the story here in Arabic]
    
    الخيارات:
    1. [Character name + action verb in Arabic, 3-5 words total]
    2. [Character name + different action verb in Arabic, 3-5 words total]
    3. [Character name + another different action verb in Arabic, 3-5 words total]
    ".

Definition create_continuation_prompt
  (story_context : str) (choice_id : Z) (choice_text : str)
  (current_paragraph max_paragraphs : Z) : str :=
  let is_final := current_paragraph >=? max_paragraphs - 1 in
  let prompt :=
    U "
    Story context so far:
    "
    ++ story_context
    ++ U "
    
    The user chose path number "
    ++ str_of_Z choice_id
    ++ U ": "
    ++ choice_text
    ++ U "
    
    Required from you:
    1. Continue writing the story with a new paragraph (4-6 lines) in Arabic that directly follows the choice made by the user.
    2. Do not summarize the choice that the user made; instead, start directly with the events that result from this choice.
    3. Add unexpected and exciting developments to engage the reader.
    4. Maintain consistency in the story's characters and world.
    " in
  if is_final then
    prompt
    ++ U "
    5. This is the final paragraph of the story, so end the story in a logical and satisfying way that closes all open paths.
    6. Suggest an appropriate and deep title for the complete story.
    
    Present the final paragraph and title in the following format:
    
    الفقرة:
    [Write the final paragraph of the story here in Arabic]
    
    العنوان:
    [Write the suggested title for the story here in Arabic]
    "
  else
    prompt
    ++ U "
    5. Present 3 short, logical, and practical options for continuing the story.
    6. Make the options very short (3-5 words only) in Arabic.
    7. ALWAYS include the character's name in each option before the action verb.
    8. Format: "
    ++ dq
    ++ U "[Character name] + verb"
    ++ dq
    ++ U ", like: "
    ++ dq
    ++ U "أحمد يتصل بالشرطة"
    ++ dq
    ++ U ", "
    ++ dq
    ++ U "سارة تهرب من المكان"
    ++ dq
    ++ U ".
    9. Make it absolutely clear WHO is performing the action in each option.
    10. Ensure each option will lead to a completely different path in the story.
    
    Present the next paragraph and options in the following format:
    
    الفقرة:
    [Write the next paragraph of the story here in Arabic]
    
    الخيارات:
    1. [Character name + action verb in Arabic, 3-5 words total]
    2. [Character name + different action verb in Arabic, 3-5 words total]
    3. [Character name + another different action verb in Arabic, 3-5 words total]
    ".

Definition create_title_prompt (complete_story : str) : str :=
  U "
    Here is a complete story:
    
    "
  ++ complete_story
  ++ U "
    
    Suggest an appropriate and engaging title for this story that reflects its essence and content.
    Provide only the title without any additional explanation and without any story Characters names in Arabic.
    ".

End prompts.

(** ** ai_service.py *)

Module ai_service.

(** *** Exceptions *)

(** The classes that matter to the handlers, each with its [str(e)]. *)
Inductive exn :=
| Exception (msg : str)
| ValueError (msg : str)
| IndexError (msg : str)
| HTTPError (msg : str)          (* httpx.HTTPError *)
| OtherError (msg : str).        (* any other subclass of Exception *)

Definition exn_str (e : exn) : str :=
  match e with
  | Exception m | ValueError m | IndexError m | HTTPError m | OtherError m => m
  end.

Inductive result (A : Type) :=
| Ok (a : A)
| Raise (e : exn).
Arguments Ok {A} a.
Arguments Raise {A} e.

(** *** The world *)

(** A chat message, the dictionary with the keys [role] and [content]. *)
Record Message := { role : str; content : str }.

(** Addresses of Python list objects. *)
Abbreviation loc := positive.

(** A value of [stories_context]. *)
Record Context := {
  paragraphs : loc;
  current_paragraph : Z
}.

(** A value of [stories_metadata]. *)
Record Metadata := {
  config : models.StoryConfig;
  max_paragraphs : Z;
  messages : loc;
  title : option str
}.

(** What reading the JSON of a response gives. The content is a [str], as
    the API gives it: a response whose content is another JSON value (which
    the code would return as it is) is not among the outcomes. *)
Inductive Json :=
| JsonRaises (e : exn)           (* [response.json()] raises *)
| NoChoices                      (* no [choices] key, or a false value under it *)
| ChoicesRaise (e : exn)         (* [result["choices"][0]["message"]["content"]] raises *)
| Content (content : str).

(** What one [client.post] gives. *)
Inductive Outcome :=
| Response (status_code : Z) (text : str) (json : Json)
| PostRaises (e : exn).

(** The two module-level dictionaries, the list objects they refer to, the
    API key read at import, the remote endpoint as the outcome of the n-th
    request made to it, and the log of the requests and of the sleeps.
    The dictionary held under a story id is reached through that id only,
    so it is kept by value; the lists are objects of their own. *)
Record World := {
  stories_context : gmap str Context;
  stories_metadata : gmap str Metadata;
  str_lists : gmap loc (list str);
  msg_lists : gmap loc (list Message);
  DEEPSEEK_API_KEY : option str;
  endpoint : nat -> Outcome;
  posts : list (list Message);
  sleeps : list Q
}.

Definition with_stories_context (f : gmap str Context -> gmap str Context)
  (w : World) : World :=
  {| stories_context := f (stories_context w);
     stories_metadata := stories_metadata w;
     str_lists := str_lists w; msg_lists := msg_lists w;
     DEEPSEEK_API_KEY := DEEPSEEK_API_KEY w; endpoint := endpoint w;
     posts := posts w; sleeps := sleeps w |}.

Definition with_stories_metadata (f : gmap str Metadata -> gmap str Metadata)
  (w : World) : World :=
  {| stories_context := stories_context w;
     stories_metadata := f (stories_metadata w);
     str_lists := str_lists w; msg_lists := msg_lists w;
     DEEPSEEK_API_KEY := DEEPSEEK_API_KEY w; endpoint := endpoint w;
     posts := posts w; sleeps := sleeps w |}.

Definition with_str_lists (f : gmap loc (list str) -> gmap loc (list str))
  (w : World) : World :=
  {| stories_context := stories_context w;
     stories_metadata := stories_metadata w;
     str_lists := f (str_lists w); msg_lists := msg_lists w;
     DEEPSEEK_API_KEY := DEEPSEEK_API_KEY w; endpoint := endpoint w;
     posts := posts w; sleeps := sleeps w |}.

Definition with_msg_lists
  (f : gmap loc (list Message) -> gmap loc (list Message))
  (w : World) : World :=
  {| stories_context := stories_context w;
     stories_metadata := stories_metadata w;
     str_lists := str_lists w; msg_lists := f (msg_lists w);
     DEEPSEEK_API_KEY := DEEPSEEK_API_KEY w; endpoint := endpoint w;
     posts := posts w; sleeps := sleeps w |}.

Definition with_posts (f : list (list Message) -> list (list Message))
  (w : World) : World :=
  {| stories_context := stories_context w;
     stories_metadata := stories_metadata w;
     str_lists := str_lists w; msg_lists := msg_lists w;
     DEEPSEEK_API_KEY := DEEPSEEK_API_KEY w; endpoint := endpoint w;
     posts := f (posts w); sleeps := sleeps w |}.

Definition with_sleeps (f : list Q -> list Q) (w : World) : World :=
  {| stories_context := stories_context w;
     stories_metadata := stories_metadata w;
     str_lists := str_lists w; msg_lists := msg_lists w;
     DEEPSEEK_API_KEY := DEEPSEEK_API_KEY w; endpoint := endpoint w;
     posts := posts w; sleeps := f (sleeps w) |}.

(** *** Computations *)

(** A coroutine: from a world to a value or a raised exception, and the
    world it leaves. What was done before a [raise] stays done. *)
Definition M (A : Type) : Type := World -> result A * World.

Definition ret {A} (a : A) : M A := fun w => (Ok a, w).

Definition raise {A} (e : exn) : M A := fun w => (Raise e, w).

Definition bind {A B} (m : M A) (k : A -> M B) : M B :=
  fun w =>
    match m w with
    | (Ok a, w') => k a w'
    | (Raise e, w') => (Raise e, w')
    end.

(** [try: m except ... as e: h e] *)
Definition catch {A} (m : M A) (h : exn -> M A) : M A :=
  fun w =>
    match m w with
    | (Ok a, w') => (Ok a, w')
    | (Raise e, w') => h e w'
    end.

Definition get : M World := fun w => (Ok w, w).

Definition modify (f : World -> World) : M unit := fun w => (Ok tt, f w).

Notation "'let*' x ':=' m 'in' k" := (bind m (fun x => k))
  (at level 10, x name, m at level 200, k at level 200, only parsing).
Notation "m ';;' k" := (bind m (fun _ => k))
  (at level 100, k at level 200, right associativity, only parsing).

(** The list object at [l], read through any of its aliases. Every
    location a dictionary holds was allocated by [new_strs] or [new_msgs]. *)
Definition read_strs (l : loc) : M (list str) :=
  fun w => (Ok (str_lists w !!! l), w).

Definition read_msgs (l : loc) : M (list Message) :=
  fun w => (Ok (msg_lists w !!! l), w).

(** [l.append(x)]: the object itself changes, whoever refers to it. *)
Definition append_str (l : loc) (x : str) : M unit :=
  modify (fun w => with_str_lists <[l := str_lists w !!! l ++ [x]]> w).

Definition append_msg (l : loc) (x : Message) : M unit :=
  modify (fun w => with_msg_lists <[l := msg_lists w !!! l ++ [x]]> w).

(** A list display or [+] makes a new object. *)
Definition new_strs (xs : list str) : M loc :=
  fun w =>
    let l := fresh (dom (str_lists w)) in
    (Ok l, with_str_lists <[l := xs]> w).

Definition new_msgs (xs : list Message) : M loc :=
  fun w =>
    let l := fresh (dom (msg_lists w)) in
    (Ok l, with_msg_lists <[l := xs]> w).

(** [await asyncio.sleep(t)] *)
Definition sleep (t : Q) : M unit := modify (with_sleeps (fun s => s ++ [t])).

(** [await client.post(..., json=payload, ...)]: the request is made and
    the endpoint answers it. *)
Definition post (messages : list Message) : M Outcome :=
  fun w =>
    (Ok (endpoint w (length (posts w))),
     with_posts (fun p => p ++ [messages]) w).

(** *** generate_response *)

Inductive flow :=
| Continue                       (* [continue] *)
| Return (s : str).              (* [return s] *)

(** [backoff_factor * (2 ** attempt)], as the number the product denotes.
    This is what the code sleeps while the product is a finite float (see
    [finite_delay] below): from attempt 1024 on the conversion of
    [2 ** attempt] raises [OverflowError], which the model does not have,
    so the properties of the retry loop are stated for finite delays. *)
Definition wait_time (backoff_factor : Q) (attempt : nat) : Q :=
  Qmult backoff_factor (inject_Z (2 ^ Z.of_nat attempt)).

Definition invalid_format : exn :=
  Exception (U "تنسيق استجابة DeepSeek API غير صالح").

(** The body of the [try] of one attempt; with the outcome goes the value
    of [last_exception] when the body is left. *)
Definition try_body (messages : list Message) (backoff_factor : Q)
  (attempt : nat) (last_exception : option exn) : M (flow * option exn) :=
  let* response := post messages in
  match response with
  | PostRaises e => raise e
  | Response status_code text json =>
      if status_code =? 429 then
        sleep (wait_time backoff_factor attempt) ;;
        ret (Continue, last_exception)
      else if negb (status_code =? 200) then
        let error_msg :=
          U "فشل طلب DeepSeek API: " ++ str_of_Z status_code
          ++ U " - " ++ text in
        let last_exception := Some (Exception error_msg) in
        sleep (wait_time backoff_factor attempt) ;;
        ret (Continue, last_exception)
      else
        match json with
        | JsonRaises e => raise e
        | NoChoices => raise invalid_format
        | ChoicesRaise e => raise e
        | Content content => ret (Return content, last_exception)
        end
  end.

(** One turn of the loop: the [try] with its two handlers. *)
Definition attempt_once (messages : list Message) (backoff_factor : Q)
  (attempt : nat) (last_exception : option exn) : M (flow * option exn) :=
  catch (try_body messages backoff_factor attempt last_exception)
    (fun e =>
       match e with
       | HTTPError _ =>
           let error_msg := U "خطأ في اتصال HTTP: " ++ exn_str e in
           let last_exception := Some (Exception error_msg) in
           sleep (wait_time backoff_factor attempt) ;;
           ret (Continue, last_exception)
       | _ =>
           let error_msg := U "خطأ غير متوقع: " ++ exn_str e in
           let last_exception := Some (Exception error_msg) in
           sleep (wait_time backoff_factor attempt) ;;
           ret (Continue, last_exception)
       end).

(** [for attempt in range(retries)] from [attempt] on, [n] turns left,
    and the final [raise]. *)
Fixpoint attempts (messages : list Message) (backoff_factor : Q)
  (n attempt : nat) (last_exception : option exn) : M str :=
  match n with
  | O =>
      raise (default
               (Exception (U "فشل الاتصال بـ DeepSeek API بعد عدة محاولات"))
               last_exception)
  | S n' =>
      let* r := attempt_once messages backoff_factor attempt last_exception in
      match r with
      | (Return s, _) => ret s
      | (Continue, last_exception) =>
          attempts messages backoff_factor n' (S attempt) last_exception
      end
  end.

Definition generate_response (messages : list Message) (retries : Z)
  (backoff_factor : Q) : M str :=
  let* w := get in
  if negb (from_option truthy false (DEEPSEEK_API_KEY w)) then
    raise (Exception
             (U "مفتاح API غير متوفر. يرجى التحقق من إعداد المتغيرات البيئية."))
  else
    attempts messages backoff_factor (Z.to_nat retries) 0 None.

(** The defaults [retries=3] and [backoff_factor=1.5]. *)
Definition default_retries : Z := 3.
Definition default_backoff_factor : Q := Qmake 3 2.

(** *** The session operations *)

Definition message (r c : str) : Message := {| role := r; content := c |}.

(** [d[key] = v] on the dictionary held under [story_id]. *)
Definition set_paragraphs (story_id : str) (l : loc) : M unit :=
  modify (with_stories_context
            (alter (fun c => {| paragraphs := l;
                                current_paragraph := current_paragraph c |})
                   story_id)).

Definition set_current_paragraph (story_id : str) (n : Z) : M unit :=
  modify (with_stories_context
            (alter (fun c => {| paragraphs := paragraphs c;
                                current_paragraph := n |})
                   story_id)).

Definition set_messages (story_id : str) (l : loc) : M unit :=
  modify (with_stories_metadata
            (alter (fun m => {| config := config m;
                                max_paragraphs := max_paragraphs m;
                                messages := l; title := title m |})
                   story_id)).

Definition set_title (story_id : str) (t : str) : M unit :=
  modify (with_stories_metadata
            (alter (fun m => {| config := config m;
                                max_paragraphs := max_paragraphs m;
                                messages := messages m; title := Some t |})
                   story_id)).

(** [metadata.get("title")] and [metadata["title"]], read now. *)
Definition get_title (story_id : str) : M (option str) :=
  fun w => (Ok (stories_metadata w !! story_id ≫= title), w).

(** [context["current_paragraph"]], read now. *)
Definition get_current_paragraph (story_id : str) : M Z :=
  fun w =>
    (Ok (from_option current_paragraph 0 (stories_context w !! story_id)), w).

(** Truth value of an optional [str] and of an optional list. *)
Definition truthy_opt (o : option str) : bool := from_option truthy false o.

Definition nonempty {A} (o : option (list A)) : bool :=
  match o with
  | Some (_ :: _) => true
  | _ => false
  end.

Definition len {A} (l : list A) : Z := Z.of_nat (length l).

(** [next((c.text for c in choices if c.id == choice_id), "")] *)
Definition choice_text_of (choices : list models.StoryChoice) (choice_id : Z)
  : str :=
  match filter (fun c => models.id c = choice_id) choices with
  | c :: _ => models.text c
  | [] => []
  end.

Definition invalid_story : exn := ValueError (U "معرف القصة غير صالح").
Definition invalid_choice : exn := ValueError (U "معرف الاختيار غير صالح").

(** The prompt that [continue_story_with_text] builds in place. *)
Definition custom_prompt (story_context_text custom_text : str)
  (current_paragraph max_paragraphs : Z) : str :=
  U "
لقد وصلنا إلى هذه النقطة في القصة:

"
  ++ story_context_text
  ++ U "

المستخدم اختار أن يكتب رداً مخصصاً بدلاً من اختيار أحد الخيارات المقدمة. الرد المخصص للمستخدم هو:

"
  ++ dq
  ++ custom_text
  ++ dq
  ++ U "

بناءً على هذا المدخل من المستخدم، استمر في القصة واكتب فقرة جديدة تأخذ بعين الاعتبار ما كتبه المستخدم.
ثم قدم 3 خيارات جديدة للمستخدم ليختار منها للاستمرار في القصة.

تذكر أن القصة الآن في:
- الفقرة رقم: "
  ++ str_of_Z current_paragraph
  ++ U " من "
  ++ str_of_Z max_paragraphs
  ++ U "
- إذا كانت هذه الفقرة الأخيرة أو قبل الأخيرة، قم بختم القصة بشكل مناسب.

يجب أن يكون تنسيق ردك كما يلي:

الفقرة: [نص الفقرة الجديدة من القصة]

الخيارات:
1. [الخيار الأول]
2. [الخيار الثاني]
3. [الخيار الثالث]

إذا كانت هذه الفقرة الأخيرة، أضف عنواناً للقصة:

العنوان: [عنوان مناسب للقصة كاملة]
".

(** The two prompts that [edit_story] builds in place. *)
Definition edit_system_prompt : str :=
  U "أنت مساعد ذكي متخصص في تحرير وتعديل القصص العربية. مهمتك هي تعديل القصة بناءً على تعليمات المستخدم مع الحفاظ على الأسلوب والنبرة الأصلية. 
قم بإرجاع القصة المعدلة بالكامل وليس فقط الأجزاء المعدلة. تأكد من تقسيم القصة إلى فقرات واضحة كما في النص الأصلي.
إذا تطلبت التعليمات تغيير العنوان، قم بإضافة سطر "
  ++ dq
  ++ U "العنوان الجديد: <العنوان المعدل>"
  ++ dq
  ++ U " في بداية استجابتك.".

Definition edit_user_prompt (complete_story edit_instructions : str) : str :=
  U "فيما يلي قصة كاملة:
    
"
  ++ complete_story
  ++ U "

تعليمات التعديل:
"
  ++ edit_instructions
  ++ U "

قم بتعديل القصة وفقًا للتعليمات المذكورة أعلاه وأرجع القصة المعدلة بالكامل مقسمة إلى فقرات.
".

(** [uuid4] is the string [str(uuid.uuid4())] gives. *)
Definition initialize_story (uuid4 : str) (config : models.StoryConfig)
  : M models.StoryResponse :=
  let story_id := uuid4 in
  let system_prompt := prompts.get_system_prompt in
  let user_prompt := prompts.create_story_init_prompt config in
  let messages := [message (U "system") system_prompt;
                   message (U "user") user_prompt] in
  let* response_text :=
    generate_response messages default_retries default_backoff_factor in
  let '(paragraph_text, choices, _) :=
    parse_paragraph_and_choices response_text in
  let paragraph :=
    {| models.content := paragraph_text; models.choices := choices |} in
  let* ps := new_strs [paragraph_text] in
  modify (with_stories_context
            <[story_id := {| paragraphs := ps; current_paragraph := 1 |}]>) ;;
  let length_info :=
    prompts.get_story_length_instructions (models.length config) in
  let* ms := new_msgs (messages ++ [message (U "assistant") response_text]) in
  modify (with_stories_metadata
            <[story_id := {| config := config;
                             max_paragraphs := prompts.paragraphs length_info;
                             messages := ms;
                             title := None |}]>) ;;
  ret {| models.story_id := story_id;
         models.paragraph := paragraph;
         models.is_complete := false;
         models.title := None |}.

Definition continue_story (story_id : str) (choice_id : Z)
  : M models.StoryResponse :=
  let* w := get in
  match stories_context w !! story_id, stories_metadata w !! story_id with
  | Some context, Some metadata =>
      let paragraphs := paragraphs context in
      let current_paragraph := current_paragraph context in
      let max_paragraphs := max_paragraphs metadata in
      let messages := messages metadata in
      let* msgs := read_msgs messages in
      match last msgs with
      | None => raise (IndexError (U "list index out of range"))
      | Some last =>
          let last_message := content last in
          let '(_, choices, _) := parse_paragraph_and_choices last_message in
          if negb (nonempty choices) || (choice_id <? 1)
             || (choice_id >? len (default [] choices))
          then raise invalid_choice
          else
            let choice_text := choice_text_of (default [] choices) choice_id in
            let* ps := read_strs paragraphs in
            let story_context_text := join nl ps in
            let continuation_prompt :=
              prompts.create_continuation_prompt
                story_context_text choice_id choice_text
                current_paragraph max_paragraphs in
            append_msg messages (message (U "user") continuation_prompt) ;;
            let* msgs := read_msgs messages in
            let* response_text :=
              generate_response msgs default_retries default_backoff_factor in
            let '(paragraph_text, choices, title) :=
              parse_paragraph_and_choices response_text in
            append_str paragraphs paragraph_text ;;
            let* n := get_current_paragraph story_id in
            set_current_paragraph story_id (n + 1) ;;
            set_paragraphs story_id paragraphs ;;
            let is_complete := current_paragraph >=? max_paragraphs - 1 in
            (if is_complete && truthy_opt title
             then set_title story_id (default [] title)
             else ret tt) ;;
            append_msg messages (message (U "assistant") response_text) ;;
            set_messages story_id messages ;;
            let paragraph :=
              {| models.content := paragraph_text;
                 models.choices := if is_complete then None else choices |} in
            let* stored_title := get_title story_id in
            ret {| models.story_id := story_id;
                   models.paragraph := paragraph;
                   models.is_complete := is_complete;
                   models.title :=
                     if is_complete then stored_title else None |}
      end
  | _, _ => raise invalid_story
  end.

(** The function starts by printing [story_id] and [custom_text]; the
    model has no output stream and leaves the [print] calls out. That one
    raises [UnicodeEncodeError] on a string that holds a surrogate, so what
    is stated of all texts is stated of the [encodable] ones (below). *)
Definition continue_story_with_text (story_id : str) (custom_text : str)
  : M models.StoryResponse :=
  let* w := get in
  match stories_context w !! story_id, stories_metadata w !! story_id with
  | Some context, Some metadata =>
      let paragraphs := paragraphs context in
      let current_paragraph := current_paragraph context in
      let max_paragraphs := max_paragraphs metadata in
      let messages := messages metadata in
      let* ps := read_strs paragraphs in
      let story_context_text := join nl ps in
      let custom_prompt :=
        custom_prompt story_context_text custom_text
                      current_paragraph max_paragraphs in
      append_msg messages (message (U "user") custom_prompt) ;;
      let* msgs := read_msgs messages in
      let* response_text :=
        generate_response msgs default_retries default_backoff_factor in
      let '(paragraph_text, choices, title) :=
        parse_paragraph_and_choices response_text in
      append_str paragraphs paragraph_text ;;
      let* n := get_current_paragraph story_id in
      set_current_paragraph story_id (n + 1) ;;
      set_paragraphs story_id paragraphs ;;
      let is_complete := current_paragraph >=? max_paragraphs - 1 in
      (if is_complete && truthy_opt title
       then set_title story_id (default [] title)
       else ret tt) ;;
      append_msg messages (message (U "assistant") response_text) ;;
      set_messages story_id messages ;;
      let paragraph :=
        {| models.content := paragraph_text;
           models.choices := if is_complete then None else choices |} in
      let* stored_title := get_title story_id in
      ret {| models.story_id := story_id;
             models.paragraph := paragraph;
             models.is_complete := is_complete;
             models.title := if is_complete then stored_title else None |}
  | _, _ => raise invalid_story
  end.

Definition get_complete_story (story_id : str) : M str :=
  let* w := get in
  match stories_context w !! story_id with
  | None => raise invalid_story
  | Some context =>
      let* ps := read_strs (paragraphs context) in
      let story_text := join (nl ++ nl) ps in
      let* stored_title := get_title story_id in
      if truthy_opt stored_title then
        ret (U "قصة بعنوان " ++ default [] stored_title
             ++ U "." ++ nl ++ nl ++ story_text)
      else ret story_text
  end.

Definition generate_title_if_missing (story_id : str) : M str :=
  let* w := get in
  match stories_metadata w !! story_id with
  | None => raise invalid_story
  | Some metadata =>
      if truthy_opt (title metadata) then ret (default [] (title metadata))
      else
        let* complete_story := get_complete_story story_id in
        let system_prompt := prompts.get_system_prompt in
        let title_prompt := prompts.create_title_prompt complete_story in
        let messages := [message (U "system") system_prompt;
                         message (U "user") title_prompt] in
        let* title :=
          generate_response messages default_retries default_backoff_factor in
        let title := strip (replace marker_title [] (strip title)) in
        set_title story_id title ;;
        ret title
  end.

(** The result is the dictionary with the keys [paragraphs] and [title],
    as a pair. *)
Definition edit_story (story_id : str) (edit_instructions : str)
  : M (list str * option str) :=
  let* w := get in
  match stories_context w !! story_id, stories_metadata w !! story_id with
  | Some context, Some _ =>
      let* paragraphs := read_strs (paragraphs context) in
      let complete_story := join nl paragraphs in
      let system_prompt := edit_system_prompt in
      let user_prompt := edit_user_prompt complete_story edit_instructions in
      let messages := [message (U "system") system_prompt;
                       message (U "user") user_prompt] in
      let* response_text :=
        generate_response messages default_retries default_backoff_factor in
      let '(new_title, edited_paragraphs) := parse_edit response_text in
      let* l := new_strs edited_paragraphs in
      set_paragraphs story_id l ;;
      (if truthy_opt new_title
       then set_title story_id (default [] new_title)
       else ret tt) ;;
      let* stored_title := get_title story_id in
      ret (edited_paragraphs,
           if truthy_opt new_title then new_title else stored_title)
  | _, _ => raise invalid_story
  end.

End ai_service.

(** ** routers/story.py *)

Module story.

Import ai_service.

(** [fastapi.HTTPException] *)
Record HTTPException := { status_code : Z; detail : str }.

(** A route: from a world to the response or the [HTTPException] raised,
    and the world it leaves. *)
Definition Route (A : Type) : Type := World -> (HTTPException + A) * World.

(** [uuid4] is the string that [initialize_story] gets from [uuid]. *)
Definition create_story (uuid4 : str) (config : models.StoryConfig)
  : Route models.StoryResponse :=
  fun w =>
    match initialize_story uuid4 config w with
    | (Ok response, w') => (inr response, w')
    | (Raise e, w') =>
        (inl {| status_code := 500;
                detail := U "حدث خطأ أثناء إنشاء القصة: " ++ exn_str e |}, w')
    end.

Definition continue_story_route (request : models.ChoiceRequest.t)
  : Route models.StoryResponse :=
  fun w =>
    let body : M models.StoryResponse :=
      match models.ChoiceRequest.choice_id request with
      | Some choice_id =>
          continue_story (models.ChoiceRequest.story_id request) choice_id
      | None =>
          match models.ChoiceRequest.custom_text request with
          | Some custom_text =>
              continue_story_with_text
                (models.ChoiceRequest.story_id request) custom_text
          | None =>
              raise (ValueError (U "يجب تحديد اختيار أو إدخال نص مخصص"))
          end
      end in
    match body w with
    | (Ok response, w') => (inr response, w')
    | (Raise (ValueError msg), w') =>
        (inl {| status_code := 400; detail := msg |}, w')
    | (Raise e, w') =>
        (inl {| status_code := 500;
                detail := U "حدث خطأ أثناء متابعة القصة: " ++ exn_str e |}, w')
    end.

Definition get_story (story_id : str) : Route str :=
  fun w =>
    match get_complete_story story_id w with
    | (Ok complete_story, w') => (inr complete_story, w')
    | (Raise (ValueError msg), w') =>
        (inl {| status_code := 404; detail := msg |}, w')
    | (Raise e, w') =>
        (inl {| status_code := 500;
                detail := U "حدث خطأ أثناء استرجاع القصة: " ++ exn_str e |}, w')
    end.

Definition edit_story_endpoint (request : models.EditRequest.t)
  : Route models.EditResponse.t :=
  fun w =>
    match edit_story (models.EditRequest.story_id request)
                     (models.EditRequest.edit_instructions request) w with
    | (Ok edit_result, w') =>
        (inr {| models.EditResponse.success := true;
                models.EditResponse.paragraphs := edit_result.1;
                models.EditResponse.title := edit_result.2 |}, w')
    | (Raise (ValueError msg), w') =>
        (inl {| status_code := 404; detail := msg |}, w')
    | (Raise e, w') =>
        (inl {| status_code := 500;
                detail := U "حدث خطأ أثناء تعديل القصة: " ++ exn_str e |}, w')
    end.

End story.

(** ** tts_service.py *)

Module tts_service.

Definition space : str := [32%N].

(** [re.sub] of a class of single code points, given by its members, by
    [repl]. *)
Definition sub_class (members repl text : str) : str :=
  flat_map (fun c => if existsb (N.eqb c) members then repl else [c]) text.

(** [.*?] without [re.DOTALL] and then [close], anchored at the start of
    [s]: the number of code points up to and with the first [close], when
    no newline comes before it. *)
Fixpoint closing (close : N) (s : str) : option nat :=
  match s with
  | [] => None
  | c :: s' =>
      if (c =? close)%N then Some 1%nat
      else if (c =? 10)%N then None
      else S <$> closing close s'
  end.

(** [re.sub] of [open.*?close] by a space: the matches from left to right,
    none overlapping; [skip] counts the code points of the last match still
    to be passed over. *)
Fixpoint sub_enclosed_go (open close : N) (skip : nat) (s : str) : str :=
  match s with
  | [] => []
  | c :: s' =>
      match skip with
      | S k => sub_enclosed_go open close k s'
      | O =>
          if (c =? open)%N then
            match closing close s' with
            | Some n => space ++ sub_enclosed_go open close n s'
            | None => c :: sub_enclosed_go open close 0 s'
            end
          else c :: sub_enclosed_go open close 0 s'
      end
  end.

Definition sub_enclosed (open close : N) (text : str) : str :=
  sub_enclosed_go open close 0 text.

(** [re.sub(r'\s+', ' ', text)]: [in_run] tells that the code point before
    was a space of the run being replaced. *)
Fixpoint sub_spaces_go (in_run : bool) (s : str) : str :=
  match s with
  | [] => []
  | c :: s' =>
      if isspace c
      then (if in_run then [] else space) ++ sub_spaces_go true s'
      else c :: sub_spaces_go false s'
  end.

Definition sub_spaces (text : str) : str := sub_spaces_go false text.

Definition clean_text_for_tts (text : str) : str :=
  let text := sub_class (U "!") space text in
  let text := sub_class (U "?") space text in
  let text := sub_class (U "،,") space text in
  let text := sub_class (U ";") space text in
  let text := sub_class (U ":") space text in
  let text := sub_class (U "#") space text in
  let text := sub_class (U "@") space text in
  let text := sub_class (U "_") space text in
  let text := sub_class (U "*") space text in
  let text := sub_class (U "=") space text in
  let text := sub_class (U "+") space text in
  let text := sub_class (U "-") space text in
  let text := sub_class (U "/") space text in
  let text := sub_class (U "\") space text in
  let text := sub_class (U "%") (U " بالمئة ") text in
  let text := sub_class (U "&") (U " و ") text in
  let text := sub_class (U "^") space text in
  let text := sub_class (U "$") space text in
  let text := sub_class (dq ++ dq ++ dq ++ U "'«»") space text in
  let text := sub_enclosed 40 41 text in
  let text := sub_enclosed 91 93 text in
  let text := sub_enclosed 123 125 text in
  let text := sub_enclosed 60 62 text in
  let text := sub_spaces text in
  let text := sub_class (U ".") (U ". ") text in
  strip text.

(** *** The speech service and its world *)

(** The world of [ai_service], the dictionary [story_audio_files], the
    names of the files in [AUDIO_STORAGE_PATH], and the speech library:
    what [gTTS(text, lang='ar', slow=False).save(path)] does for a text, a
    file name and the files there are, as its outcome and the files there
    are afterwards; [spoken] logs the calls made to it. *)
Record Studio := {
  ai : ai_service.World;
  story_audio_files : gmap str str;
  audio_files : gset str;
  gTTS_save : str -> str -> gset str -> ai_service.result unit * gset str;
  spoken : list (str * str)
}.

Definition with_ai (w : ai_service.World) (s : Studio) : Studio :=
  {| ai := w; story_audio_files := story_audio_files s;
     audio_files := audio_files s; gTTS_save := gTTS_save s;
     spoken := spoken s |}.

Definition with_story_audio_files (f : gmap str str -> gmap str str)
  (s : Studio) : Studio :=
  {| ai := ai s; story_audio_files := f (story_audio_files s);
     audio_files := audio_files s; gTTS_save := gTTS_save s;
     spoken := spoken s |}.

Definition Speech (A : Type) : Type := Studio -> ai_service.result A * Studio.

Definition ret {A} (a : A) : Speech A := fun s => (ai_service.Ok a, s).

Definition bind {A B} (m : Speech A) (k : A -> Speech B) : Speech B :=
  fun s =>
    match m s with
    | (ai_service.Ok a, s') => k a s'
    | (ai_service.Raise e, s') => (ai_service.Raise e, s')
    end.

Notation "'let*' x ':=' m 'in' k" := (bind m (fun x => k))
  (at level 10, x name, m at level 200, k at level 200, only parsing).
Notation "m ';;' k" := (bind m (fun _ => k))
  (at level 100, k at level 200, right associativity, only parsing).

Definition get : Speech Studio := fun s => (ai_service.Ok s, s).

Definition modify (f : Studio -> Studio) : Speech unit :=
  fun s => (ai_service.Ok tt, f s).

(** A coroutine of [ai_service], awaited here. *)
Definition lift {A} (m : ai_service.M A) : Speech A :=
  fun s => let '(r, w) := m (ai s) in (r, with_ai w s).

(** [os.path.exists(file_path)] for a name in the storage directory. *)
Definition exists_ (filename : str) : Speech bool :=
  fun s => (ai_service.Ok (bool_decide (filename ∈ audio_files s)), s).

(** [gTTS(text=cleaned_text, lang='ar', slow=False).save(file_path)] *)
Definition save (cleaned_text filename : str) : Speech unit :=
  fun s =>
    let '(r, files) := gTTS_save s cleaned_text filename (audio_files s) in
    (r, {| ai := ai s; story_audio_files := story_audio_files s;
           audio_files := files; gTTS_save := gTTS_save s;
           spoken := spoken s ++ [(cleaned_text, filename)] |}).

(** [ensure_storage_path] makes the directory if it is missing; the files
    in it stay what they are. *)
Definition ensure_storage_path : Speech unit := ret tt.

Definition text_to_speech (text filename : str) : Speech str :=
  ensure_storage_path ;;
  let* found := exists_ filename in
  if found then ret filename
  else
    let cleaned_text := clean_text_for_tts text in
    save cleaned_text filename ;;
    ret filename.

(** [story_audio_files[story_id]], a [KeyError] without the key. *)
Definition stored_file (story_id : str) : Speech str :=
  fun s =>
    match story_audio_files s !! story_id with
    | Some filename => (ai_service.Ok filename, s)
    | None =>
        (ai_service.Raise
           (ai_service.OtherError (U "'" ++ story_id ++ U "'")), s)
    end.

(** [uuid4_hex] is [uuid.uuid4().hex], which the function draws when the
    story has no entry. *)
Definition generate_audio_for_story (uuid4_hex : str) (story_id : str)
  : Speech str :=
  let* s := get in
  (if bool_decide (story_id ∈ dom (story_audio_files s)) then ret tt
   else
     lift (ai_service.generate_title_if_missing story_id) ;;
     let* story_text := lift (ai_service.get_complete_story story_id) in
     let filename := story_id ++ U "_" ++ uuid4_hex ++ U ".mp3" in
     text_to_speech story_text filename ;;
     modify (with_story_audio_files <[story_id := filename]>)) ;;
  stored_file story_id.

End tts_service.

(** * Properties *)

(** ** Vocabulary *)

(** [m] occurs in [s]. *)
Definition contains (m s : str) : Prop := exists pre post, s = pre ++ m ++ post.

Import ai_service.

(** The world after a request with [messages], and after a sleep of [t]. *)
Definition posted (messages : list Message) (w : World) : World :=
  with_posts (fun p => p ++ [messages]) w.

Definition slept (t : Q) (w : World) : World :=
  with_sleeps (fun s => s ++ [t]) w.

(** [w'] differs from [w] in the log of requests and sleeps at most. *)
Definition net_only (w w' : World) : Prop :=
  stories_context w' = stories_context w
  /\ stories_metadata w' = stories_metadata w
  /\ str_lists w' = str_lists w
  /\ msg_lists w' = msg_lists w
  /\ DEEPSEEK_API_KEY w' = DEEPSEEK_API_KEY w
  /\ endpoint w' = endpoint w.


(** A world with nothing stored, a key, and the endpoint [ep]. *)
Definition fresh_world (ep : nat -> Outcome) : World :=
  {| stories_context := ∅; stories_metadata := ∅;
     str_lists := ∅; msg_lists := ∅;
     DEEPSEEK_API_KEY := Some (U "key"); endpoint := ep;
     posts := []; sleeps := [] |}.


(** What the two advance operations share: everything from the append of
    the user message on, [prompt] being the content of that message. *)
Definition turn (story_id : str) (context : Context) (metadata : Metadata)
  (prompt : str) : M models.StoryResponse :=
  let paragraphs := paragraphs context in
  let current_paragraph := current_paragraph context in
  let max_paragraphs := max_paragraphs metadata in
  let messages := messages metadata in
  append_msg messages (message (U "user") prompt) ;;
  let* msgs := read_msgs messages in
  let* response_text :=
    generate_response msgs default_retries default_backoff_factor in
  let '(paragraph_text, choices, title) :=
    parse_paragraph_and_choices response_text in
  append_str paragraphs paragraph_text ;;
  let* n := get_current_paragraph story_id in
  set_current_paragraph story_id (n + 1) ;;
  set_paragraphs story_id paragraphs ;;
  let is_complete := current_paragraph >=? max_paragraphs - 1 in
  (if is_complete && truthy_opt title
   then set_title story_id (default [] title)
   else ret tt) ;;
  append_msg messages (message (U "assistant") response_text) ;;
  set_messages story_id messages ;;
  let paragraph :=
    {| models.content := paragraph_text;
       models.choices := if is_complete then None else choices |} in
  let* stored_title := get_title story_id in
  ret {| models.story_id := story_id;
         models.paragraph := paragraph;
         models.is_complete := is_complete;
         models.title := if is_complete then stored_title else None |}.

(** The choices that [continue_story] reads off the last stored message. *)
Definition offered (last : Message) : option (list models.StoryChoice) :=
  (parse_paragraph_and_choices (content last)).1.2.

(** The world once the user message with [prompt] is appended to the
    message list of the session. *)
Definition user_said (metadata : Metadata) (prompt : str) (w : World) : World :=
  with_msg_lists
    <[messages metadata :=
        msg_lists w !!! messages metadata ++ [message (U "user") prompt]]> w.

(** The model call of a turn. *)
Definition turn_call (metadata : Metadata) (prompt : str) (w : World)
  : result str * World :=
  generate_response
    (msg_lists w !!! messages metadata ++ [message (U "user") prompt])
    default_retries default_backoff_factor (user_said metadata prompt w).

(** An advance: by the id of a choice, or by free text. *)
Inductive Advance :=
| ByChoice (choice_id : Z)
| ByText (custom_text : str).

Definition advance (story_id : str) (a : Advance) : M models.StoryResponse :=
  match a with
  | ByChoice choice_id => continue_story story_id choice_id
  | ByText custom_text => continue_story_with_text story_id custom_text
  end.

(** The first messages of a story. *)
Definition init_messages (config : models.StoryConfig) : list Message :=
  [message (U "system") prompts.get_system_prompt;
   message (U "user") (prompts.create_story_init_prompt config)].

(** The stored paragraph index of a session. *)
Definition index_of (w : World) (story_id : str) : option Z :=
  current_paragraph <$> stories_context w !! story_id.

(** Concrete data for the runs below. *)
Definition config_short : models.StoryConfig :=
  {| models.length := models.SHORT;
     models.primary_type := models.ADVENTURE;
     models.secondary_type := models.NONE;
     models.characters := [] |}.

Definition ok (content : str) : Outcome := Response 200 [] (Content content).

Definition reply_with_choices : str :=
  U "الفقرة: A
الخيارات:
1. X
2. Y
3. Z".

Definition reply_with_title : str :=
  U "الفقرة: C
العنوان: T".

Definition reply_with_gap : str :=
  U "الفقرة: A
الخيارات: 1. 2. X".

(** The world after the initialization of the story "id" on the endpoint
    [ep]. *)
Definition started (ep : nat -> Outcome) : World :=
  (initialize_story (U "id") config_short (fresh_world ep)).2.

(** The endpoint answers the first request and fails from then on. *)
Definition story_then_down (n : nat) : Outcome :=
  match n with
  | O => ok reply_with_choices
  | S _ => Response 500 (U "down") NoChoices
  end.

(** The endpoint answers with choices twice, then with the last paragraph. *)
Definition three_replies (n : nat) : Outcome :=
  match n with
  | 0%nat | 1%nat => ok reply_with_choices
  | _ => ok reply_with_title
  end.

(** The first reply has a blank first choice. *)
Definition gap_then_title (n : nat) : Outcome :=
  match n with
  | O => ok reply_with_gap
  | S _ => ok reply_with_title
  end.

Definition stored_metadata : Metadata :=
  {| config := config_short; max_paragraphs := 3;
     messages := 1%positive; title := None |}.

Definition choices_xyz : list models.StoryChoice :=
  [ {| models.id := 1; models.text := U "X" |};
    {| models.id := 2; models.text := U "Y" |};
    {| models.id := 3; models.text := U "Z" |} ].

Definition response (content : str) (choices : option (list models.StoryChoice))
  (is_complete : bool) (title : option str) : models.StoryResponse :=
  {| models.story_id := U "id";
     models.paragraph :=
       {| models.content := content; models.choices := choices |};
     models.is_complete := is_complete;
     models.title := title |}.

Definition stored_context : Context :=
  {| paragraphs := 1%positive; current_paragraph := 1 |}.

(** The messages of the edit call. *)
Definition edit_messages (complete_story edit_instructions : str) : list Message :=
  [message (U "system") edit_system_prompt;
   message (U "user") (edit_user_prompt complete_story edit_instructions)].

Definition with_title (metadata : Metadata) (t : option str) : Metadata :=
  {| config := config metadata; max_paragraphs := max_paragraphs metadata;
     messages := messages metadata; title := t |}.

(** The reply of an edit: a new title, then two paragraphs. *)
Definition reply_edited : str :=
  U "العنوان الجديد: T2
P1

P2".

Definition story_then_edit (n : nat) : Outcome :=
  match n with
  | O => ok reply_with_choices
  | S _ => ok reply_edited
  end.

(** C8 as the claim has it: a call that returned, made again at once,
    returns the same value and leaves the world as it finds it. *)
Definition title_call_is_idempotent : Prop :=
  forall story_id w t w1,
    generate_title_if_missing story_id w = (Ok t, w1) ->
    generate_title_if_missing story_id w1 = (Ok t, w1).

(** The title call is answered with the bare label first, with a title
    afterwards. *)
Definition label_then_title (n : nat) : Outcome :=
  match n with
  | 0%nat => ok reply_with_choices
  | 1%nat => ok marker_title
  | _ => ok (U "T")
  end.

Definition story_then_title (n : nat) : Outcome :=
  match n with
  | O => ok reply_with_choices
  | S _ => ok (U "العنوان: T")
  end.

(** The public operations that change a session. *)
Inductive Op :=
| Initialize (uuid4 : str) (config : models.StoryConfig)
| AdvanceStory (story_id : str) (a : Advance)
| FinalizeTitle (story_id : str)
| EditStory (story_id : str) (edit_instructions : str).

(** The world an operation leaves, whether it returns or raises. *)
Definition run (o : Op) (w : World) : World :=
  match o with
  | Initialize uuid4 config => (initialize_story uuid4 config w).2
  | AdvanceStory story_id a => (advance story_id a w).2
  | FinalizeTitle story_id => (generate_title_if_missing story_id w).2
  | EditStory story_id edit_instructions =>
      (edit_story story_id edit_instructions w).2
  end.

(** [uuid4] gives an id that no stored session has. *)
Definition admissible (o : Op) (w : World) : Prop :=
  match o with
  | Initialize uuid4 _ => stories_context w !! uuid4 = None
  | _ => True
  end.

(** [w] is reached from [w0] by the operations [ops], oldest first. *)
Inductive reaches (w0 : World) : list Op -> World -> Prop :=
| reaches_nil : reaches w0 [] w0
| reaches_step ops w o :
    reaches w0 ops w -> admissible o w -> reaches w0 (ops ++ [o]) (run o w).

(** What an operation does to the sessions and to their paragraph lists. *)
Inductive effect (w w' : World) : Op -> Prop :=
| effect_none o :
    stories_context w' = stories_context w ->
    str_lists w' = str_lists w ->
    effect w w' o
| effect_initialize uuid4 config p :
    stories_context w'
    = <[uuid4 := {| paragraphs := fresh (dom (str_lists w));
                    current_paragraph := 1 |}]> (stories_context w) ->
    str_lists w' = <[fresh (dom (str_lists w)) := [p]]> (str_lists w) ->
    effect w w' (Initialize uuid4 config)
| effect_advance story_id a c p :
    stories_context w !! story_id = Some c ->
    stories_context w'
    = <[story_id := {| paragraphs := paragraphs c;
                       current_paragraph := current_paragraph c + 1 |}]>
        (stories_context w) ->
    str_lists w'
    = <[paragraphs c := str_lists w !!! paragraphs c ++ [p]]> (str_lists w) ->
    effect w w' (AdvanceStory story_id a)
| effect_edit story_id edit_instructions c ps :
    stories_context w !! story_id = Some c ->
    stories_context w'
    = <[story_id := {| paragraphs := fresh (dom (str_lists w));
                       current_paragraph := current_paragraph c |}]>
        (stories_context w) ->
    str_lists w' = <[fresh (dom (str_lists w)) := ps]> (str_lists w) ->
    effect w w' (EditStory story_id edit_instructions).

(** Every session holds an allocated paragraph list, and no two sessions
    hold the same one. *)
Definition allocated (w : World) : Prop :=
  forall story_id c,
    stories_context w !! story_id = Some c ->
    paragraphs c ∈ dom (str_lists w).

Definition unshared (w : World) : Prop :=
  forall s1 s2 c1 c2,
    stories_context w !! s1 = Some c1 ->
    stories_context w !! s2 = Some c2 ->
    paragraphs c1 = paragraphs c2 -> s1 = s2.

(** The index of the session is the number of its stored paragraphs. *)
Definition counts (w : World) (story_id : str) : Prop :=
  forall c,
    stories_context w !! story_id = Some c ->
    current_paragraph c = len (str_lists w !!! paragraphs c).

(** C3 as the claim has it, for the equality: in every world reached by the
    public operations the index of every session is the number of its
    stored paragraphs. *)
Definition index_always_counts : Prop :=
  forall w0 ops w,
    stories_context w0 = ∅ -> reaches w0 ops w ->
    forall story_id, counts w story_id.

(** The key is set and the endpoint answers the next request with
    [content]. *)
Definition answers (w : World) (content : str) : Prop :=
  from_option truthy false (DEEPSEEK_API_KEY w) = true
  /\ exists text,
       endpoint w (length (posts w)) = Response 200 text (Content content).

(** *** The outcomes of the attempts *)

(** The content a request returns, if this outcome ends the call. *)
Definition success (o : Outcome) : option str :=
  match o with
  | Response status_code _ (Content content) =>
      if status_code =? 200 then Some content else None
  | _ => None
  end.

(** What the handlers of an attempt make of a raised exception. *)
Definition handled (e : exn) : exn :=
  match e with
  | HTTPError _ => Exception (U "خطأ في اتصال HTTP: " ++ exn_str e)
  | _ => Exception (U "خطأ غير متوقع: " ++ exn_str e)
  end.

(** The value of [last_exception] after an attempt that met [o] and went
    on, [last] being its value before. *)
Definition recorded (o : Outcome) (last : option exn) : option exn :=
  match o with
  | PostRaises e => Some (handled e)
  | Response status_code text json =>
      if status_code =? 429 then last
      else if negb (status_code =? 200) then
        Some (Exception (U "فشل طلب DeepSeek API: " ++ str_of_Z status_code
                         ++ U " - " ++ text))
      else
        match json with
        | JsonRaises e | ChoicesRaise e => Some (handled e)
        | NoChoices => Some (handled invalid_format)
        | Content _ => last
        end
  end.

(** [last_exception] after the [n] requests numbered from [start], none of
    which returned. *)
Fixpoint last_recorded (ep : nat -> Outcome) (start n : nat)
  (last : option exn) : option exn :=
  match n with
  | O => last
  | S n' => last_recorded ep (S start) n' (recorded (ep start) last)
  end.

(** The exception of the final [raise]. *)
Definition exhausted : exn :=
  Exception (U "فشل الاتصال بـ DeepSeek API بعد عدة محاولات").

(** The world after [n] attempts with [messages] that went on, the first
    of them being attempt number [attempt]. *)
Definition retried (messages : list Message) (b : Q) (attempt n : nat)
  (w : World) : World :=
  with_sleeps (fun s => s ++ (wait_time b <$> seq attempt n))
    (with_posts (fun p => p ++ replicate n messages) w).

Definition key_is_set (w : World) : Prop :=
  from_option truthy false (DEEPSEEK_API_KEY w) = true.

Definition missing_key : exn :=
  Exception (U "مفتاح API غير متوفر. يرجى التحقق من إعداد المتغيرات البيئية.").

(** An endpoint that is rate limited once, fails once and then answers. *)
Definition limited_down_ok (n : nat) : Outcome :=
  match n with
  | 0%nat => Response 429 (U "slow down") NoChoices
  | 1%nat => Response 503 (U "down") NoChoices
  | _ => Response 200 [] (Content (U "ok"))
  end.

(** An endpoint that is always rate limited. *)
Definition always_limited (n : nat) : Outcome :=
  Response 429 (U "slow down") NoChoices.


(** A world without a key. *)
Definition keyless_world (ep : nat -> Outcome) : World :=
  {| stories_context := ∅; stories_metadata := ∅;
     str_lists := ∅; msg_lists := ∅;
     DEEPSEEK_API_KEY := None; endpoint := ep;
     posts := []; sleeps := [] |}.

(** A string that stripping leaves as it is. *)
Definition stripped (s : str) : Prop := strip s = s.

(** The choice the line-based loop builds from a numbered line. *)
Definition line_choice (numbered : Z * str) : models.StoryChoice :=
  {| models.id := numbered.1;
     models.text := strip (sub_numbering numbered.2) |}.

(** The advances of a list made one after the other, each one returning:
    the responses in order, and the world left. *)
Fixpoint advance_all (story_id : str) (l : list Advance) (w : World)
  : option (list models.StoryResponse * World) :=
  match l with
  | [] => Some ([], w)
  | a :: l' =>
      match advance story_id a w with
      | (Ok r, w') =>
          match advance_all story_id l' w' with
          | Some (rs, w'') => Some (r :: rs, w'')
          | None => None
          end
      | (Raise _, _) => None
      end
  end.

(** The target of a length. *)
Definition target (length : models.StoryLength) : Z :=
  prompts.paragraphs (prompts.get_story_length_instructions length).

(** The sentence that announces a title at the head of the full text. *)
Definition announcement (title : option str) : str :=
  if truthy_opt title
  then U "قصة بعنوان " ++ default [] title ++ U "." ++ nl ++ nl
  else [].

(** The full text of paragraphs under a title. *)
Definition full_text (title : option str) (paragraphs : list str) : str :=
  announcement title ++ join (nl ++ nl) paragraphs.

(** The detail of the 400 that a request without choice and without text
    gets. *)
Definition nothing_chosen : str := U "يجب تحديد اختيار أو إدخال نص مخصص".

Definition request_choice (story_id : str) (choice_id : Z)
  : models.ChoiceRequest.t :=
  {| models.ChoiceRequest.story_id := story_id;
     models.ChoiceRequest.choice_id := Some choice_id;
     models.ChoiceRequest.custom_text := None |}.

Definition request_edit (story_id edit_instructions : str)
  : models.EditRequest.t :=
  {| models.EditRequest.story_id := story_id;
     models.EditRequest.edit_instructions := edit_instructions |}.

(** The punctuation that [clean_text_for_tts] replaces. *)
Definition removed : str := U "!?،,;:#@_*=+-/\%&^$" ++ dq ++ U "'«»".

(** No two spaces in a row, and no other white space; [after_space] tells
    that a space comes just before [s]. *)
Fixpoint single_spaced (after_space : bool) (s : str) : Prop :=
  match s with
  | [] => True
  | c :: s' =>
      if isspace c
      then c = 32%N /\ after_space = false /\ single_spaced true s'
      else single_spaced false s'
  end.

(** No white space but the space, and a space that another space follows
    comes just after a full stop; [prev] is the code point before [s]. *)
Fixpoint dotted (prev : N) (s : str) : Prop :=
  match s with
  | [] => True
  | c :: s' =>
      (isspace c = true -> c = 32%N /\ (head s' = Some 32%N -> prev = 46%N))
      /\ dotted c s'
  end.

(** A speech service without audio yet, over the world [w], whose speech
    library writes every file it is asked for. *)
Definition studio (w : World) : tts_service.Studio :=
  {| tts_service.ai := w;
     tts_service.story_audio_files := ∅;
     tts_service.audio_files := ∅;
     tts_service.gTTS_save :=
       fun _ filename files => (Ok tt, {[filename]} ∪ files);
     tts_service.spoken := [] |}.

(** *** The domain of the model *)

(** The delay of attempt [attempt] is a finite float: [2 ** attempt]
    converts to a float and the product does not overflow. Then the code
    sleeps [wait_time backoff_factor attempt]; otherwise it raises
    [OverflowError] in the handler, or the delay is infinite. *)
Definition finite_delay (backoff_factor : Q) (attempt : nat) : Prop :=
  (attempt < 1024)%nat
  /\ (- inject_Z (2 ^ 1024) < wait_time backoff_factor attempt)%Q
  /\ (wait_time backoff_factor attempt < inject_Z (2 ^ 1024))%Q.

(** The delays of the attempts before attempt [n] are finite floats. *)
Definition finite_delays (backoff_factor : Q) (n : nat) : Prop :=
  forall attempt, (attempt < n)%nat -> finite_delay backoff_factor attempt.

(** A string that [print] can write to a UTF-8 stream: it holds no
    surrogate (U+D800 to U+DFFF). *)
Definition encodable (s : str) : bool :=
  forallb (fun c => (c <? 55296) || (57343 <? c))%N s.

(** The strings of a request that the operation behind the continue route
    prints ([continue_story_with_text] prints its two arguments,
    [continue_story] prints nothing) are encodable. *)
Definition printable_request (request : models.ChoiceRequest.t) : bool :=
  match models.ChoiceRequest.choice_id request,
        models.ChoiceRequest.custom_text request with
  | None, Some custom_text =>
      encodable (models.ChoiceRequest.story_id request)
      && encodable custom_text
  | _, _ => true
  end.

(** ** The reply parser *)

Lemma startswith_true (m s : str) :
  startswith m s = true <-> exists post, s = m ++ post.
Proof.
  revert s. induction m as [|a m IH]; intros s; simpl.
  - split; [intros _; by exists s | done].
  - destruct s as [|b s].
    + split; [done | intros [post H]; discriminate H].
    + rewrite andb_true_iff, N.eqb_eq, IH. split.
      * intros [-> [post ->]]. by exists post.
      * intros [post H]. injection H as -> ->. eauto.
Qed.

Lemma after_marker_unfold (m s : str) :
  after_marker m s
  = if startswith m s then Some (drop (length m) s)
    else match s with
         | [] => None
         | _ :: s' => after_marker m s'
         end.
Proof. by destruct s. Qed.

Lemma after_marker_absent (m s : str) :
  ~ contains m s -> after_marker m s = None.
Proof.
  induction s as [|c s IH]; intros Hno; rewrite after_marker_unfold.
  - destruct (startswith m []) eqn:E; [|done].
    apply startswith_true in E as [post E].
    exfalso. apply Hno. exists [], post. done.
  - destruct (startswith m (c :: s)) eqn:E.
    + apply startswith_true in E as [post E].
      exfalso. apply Hno. exists [], post. done.
    + apply IH. intros (pre & post & ->). apply Hno.
      exists (c :: pre), post. done.
Qed.

Lemma after_marker_present (m s : str) :
  contains m s -> is_Some (after_marker m s).
Proof.
  intros (pre & post & ->).
  induction pre as [|c pre IH]; rewrite after_marker_unfold.
  - assert (startswith m (m ++ post) = true) as E
      by (apply startswith_true; eauto).
    simpl. rewrite E. eauto.
  - simpl. destruct (startswith m (c :: pre ++ m ++ post)); eauto.
Qed.

(** C6. [parse_paragraph_and_choices] returns a triple on every input (it is
    a total function and raises nothing), and on an input in which none of
    the paragraph, choices and title markers occurs the paragraph is the
    whole input stripped while the choices and the title are both absent. *)
Theorem parse_total_and_fallback (response_text : str) :
  (exists paragraph choices title,
     parse_paragraph_and_choices response_text = (paragraph, choices, title))
  /\ (~ contains marker_paragraph response_text ->
      ~ contains marker_choices response_text ->
      ~ contains marker_title response_text ->
      parse_paragraph_and_choices response_text
      = (strip response_text, None, None)).
Proof.
  split.
  - destruct (parse_paragraph_and_choices response_text) as [[p c] t]. eauto.
  - intros Hp Hc Ht. unfold parse_paragraph_and_choices.
    unfold search_paragraph, search_to_end.
    by rewrite !after_marker_absent.
Qed.

Lemma absent_of_after_marker (m s : str) :
  after_marker m s = None -> ~ contains m s.
Proof.
  intros E H. apply after_marker_present in H as [r H]. congruence.
Qed.

Lemma parse_total_and_fallback_witness :
  parse_paragraph_and_choices (U " hello world " ++ nl)
  = (U "hello world", None, None).
Proof.
  apply (proj2 (parse_total_and_fallback (U " hello world " ++ nl)));
    apply absent_of_after_marker; vm_compute; reflexivity.
Defined.

(** C7. On the reply "الخيارات: 1. 2. X" the numbered extraction gives one
    choice, and its id is 2: the first match is blank and adds no choice,
    yet it takes the position 1, so the first choice of the list does not
    have the id 1. *)
Theorem numbered_ids_skip_blank_matches :
  parse_paragraph_and_choices (U "الخيارات: 1. 2. X")
  = (U "الخيارات: 1. 2. X",
     Some [ {| models.id := 2; models.text := U "X" |} ],
     None).
Proof. vm_compute. reflexivity. Qed.

(** Under the line-based extraction the ids are 1, 2, ..., in this order. *)
Lemma line_choices_ids (choices_text : str) :
  exists k, models.id <$> line_choices choices_text
            = (fun i => 1 + Z.of_nat i) <$> seq 0 k.
Proof.
  unfold line_choices.
  generalize (filter (fun l => truthy (strip l) = true)
                     (split nl choices_text)).
  intros lines.
  assert (forall start (l : list str) n,
             start = 1 + Z.of_nat n ->
             exists k,
               models.id <$>
                 flat_map
                   (fun '(i, line) =>
                      if i <=? 3
                      then [ {| models.id := i;
                                models.text := strip (sub_numbering line) |} ]
                      else [])
                   (enumerate start l)
               = (fun i => 1 + Z.of_nat i) <$> seq n k) as H.
  { intros start l. revert start.
    induction l as [|x l IH]; intros start n Hs.
    - by exists 0%nat.
    - destruct (IH (start + 1) (S n) ltac:(lia)) as [k Hk].
      cbn [enumerate flat_map].
      destruct (start <=? 3) eqn:E.
      + exists (S k). rewrite fmap_app, Hk. simpl. by rewrite Hs.
      + exists 0%nat. rewrite app_nil_l.
        clear Hk IH. revert start n Hs E.
        induction l as [|y l IH]; intros start n Hs E; [done|].
        cbn [enumerate flat_map].
        destruct (start + 1 <=? 3) eqn:E'; [lia|].
        rewrite app_nil_l. apply (IH (start + 1) (S n)); lia. }
  apply (H 1 lines 0%nat). done.
Qed.

(** ** The model client *)

(** One attempt makes one request and raises nothing: it returns the
    content, or it sleeps and goes on to the next attempt. *)
Lemma attempt_once_cases messages b attempt last w :
  exists f le w1,
    attempt_once messages b attempt last w = (Ok (f, le), w1)
    /\ ((exists s, f = Return s /\ le = last /\ w1 = posted messages w)
        \/ (f = Continue
            /\ w1 = slept (wait_time b attempt) (posted messages w)
            /\ (le = last \/ exists m, le = Some (Exception m)))).
Proof.
  cbv [attempt_once catch try_body bind post sleep modify ret raise].
  destruct (endpoint w (length (posts w))) as [status text json|e].
  - destruct (status =? 429) eqn:E1.
    { eexists _, _, _. split; [reflexivity|]. right. eauto. }
    destruct (negb (status =? 200)) eqn:E2.
    { eexists _, _, _. split; [reflexivity|]. right. eauto 6. }
    destruct json as [e| |e|content].
    + destruct e; (eexists _, _, _; split; [reflexivity|]; right; eauto 6).
    + eexists _, _, _; split; [reflexivity|]; right; eauto 6.
    + destruct e; (eexists _, _, _; split; [reflexivity|]; right; eauto 6).
    + eexists _, _, _; split; [reflexivity|]; left; eauto 6.
  - destruct e; (eexists _, _, _; split; [reflexivity|]; right; eauto 6).
Qed.

Lemma net_only_refl (w : World) : net_only w w.
Proof. by repeat split. Qed.

Lemma net_only_trans (w1 w2 w3 : World) :
  net_only w1 w2 -> net_only w2 w3 -> net_only w1 w3.
Proof.
  intros (?&?&?&?&?&?) (?&?&?&?&?&?). repeat split; congruence.
Qed.

Lemma net_only_posted messages w : net_only w (posted messages w).
Proof. by repeat split. Qed.

Lemma net_only_slept t w : net_only w (slept t w).
Proof. by repeat split. Qed.

Lemma attempts_net_only messages b n attempt last w r w' :
  attempts messages b n attempt last w = (r, w') -> net_only w w'.
Proof.
  revert attempt last w.
  induction n as [|n IH]; intros attempt last w; cbn [attempts].
  - unfold raise. intros [= <- <-]. apply net_only_refl.
  - unfold bind at 1.
    destruct (attempt_once_cases messages b attempt last w)
      as (f & le & w1 & -> & [(s & -> & -> & ->)|(-> & -> & _)]).
    + unfold ret. intros [= <- <-]. apply net_only_posted.
    + intros H. apply IH in H.
      eapply net_only_trans; [|exact H].
      eapply net_only_trans; [apply net_only_posted|apply net_only_slept].
Qed.

Lemma attempts_raises messages b n attempt last w e w' :
  attempts messages b n attempt last w = (Raise e, w') ->
  (last = None \/ exists m, last = Some (Exception m)) ->
  exists m, e = Exception m.
Proof.
  revert attempt last w.
  induction n as [|n IH]; intros attempt last w; cbn [attempts].
  - unfold raise. intros [= <- <-] [->|[m ->]]; simpl; eauto.
  - unfold bind at 1.
    destruct (attempt_once_cases messages b attempt last w)
      as (f & le & w1 & -> & [(s & -> & -> & ->)|(-> & -> & Hle)]).
    + unfold ret. intros [=].
    + intros H Hl. eapply IH; [exact H|].
      destruct Hle as [->|[m ->]]; eauto.
Qed.

Lemma generate_response_net_only messages retries b w r w' :
  generate_response messages retries b w = (r, w') -> net_only w w'.
Proof.
  unfold generate_response. unfold bind at 1. unfold get.
  destruct (negb _).
  - unfold raise. intros [= <- <-]. apply net_only_refl.
  - apply attempts_net_only.
Qed.

Lemma generate_response_raises messages retries b w e w' :
  generate_response messages retries b w = (Raise e, w') ->
  exists m, e = Exception m.
Proof.
  unfold generate_response. unfold bind at 1. unfold get.
  destruct (negb _).
  - unfold raise. intros [= <- <-]. eauto.
  - intros H. eapply attempts_raises; [exact H|by left].
Qed.

(** The turn of the loop that meets a 200 response without choices. *)
Lemma attempts_malformed_step messages b n attempt last w text :
  endpoint w (length (posts w)) = Response 200 text NoChoices ->
  attempts messages b (S n) attempt last w
  = attempts messages b n (S attempt)
      (Some (Exception (U "خطأ غير متوقع: " ++ exn_str invalid_format)))
      (slept (wait_time b attempt) (posted messages w)).
Proof.
  intros H. cbn [attempts].
  unfold bind at 1.
  cbv [attempt_once catch try_body bind post sleep modify ret raise].
  rewrite H. reflexivity.
Qed.





(** When every attempt meets such a response, [retries] requests are made
    and the call ends raising the recorded failure. *)
Lemma all_malformed_exhausts messages b n attempt last w :
  (forall k, exists text, endpoint w k = Response 200 text NoChoices) ->
  exists w',
    attempts messages b (S n) attempt last w
    = (Raise (Exception (U "خطأ غير متوقع: " ++ exn_str invalid_format)), w')
    /\ length (posts w') = (length (posts w) + S n)%nat
    /\ length (sleeps w') = (length (sleeps w) + S n)%nat.
Proof.
  revert attempt last w.
  induction n as [|n IH]; intros attempt last w Hall.
  - destruct (Hall (length (posts w))) as [text H].
    rewrite (attempts_malformed_step _ _ _ _ _ _ _ H).
    eexists. split; [reflexivity|].
    simpl. rewrite !length_app. simpl. lia.
  - destruct (Hall (length (posts w))) as [text H].
    rewrite (attempts_malformed_step _ _ _ _ _ _ _ H).
    destruct (IH (S attempt)
                (Some (Exception (U "خطأ غير متوقع: " ++ exn_str invalid_format)))
                (slept (wait_time b attempt) (posted messages w)))
      as (w' & -> & Hp & Hs); [exact Hall|].
    exists w'. split; [reflexivity|].
    rewrite Hp, Hs. simpl. rewrite !length_app. simpl. lia.
Qed.

(** ** The session operations *)

Lemma continue_story_with_text_turn story_id custom_text w :
  continue_story_with_text story_id custom_text w
  = match stories_context w !! story_id, stories_metadata w !! story_id with
    | Some context, Some metadata =>
        turn story_id context metadata
          (custom_prompt (join nl (str_lists w !!! paragraphs context))
             custom_text (current_paragraph context) (max_paragraphs metadata))
          w
    | _, _ => (Raise invalid_story, w)
    end.
Proof.
  unfold continue_story_with_text. unfold bind at 1. unfold get.
  destruct (stories_context w !! story_id) as [context|]; [|reflexivity].
  destruct (stories_metadata w !! story_id) as [metadata|]; reflexivity.
Qed.

Lemma continue_story_turn story_id choice_id w :
  continue_story story_id choice_id w
  = match stories_context w !! story_id, stories_metadata w !! story_id with
    | Some context, Some metadata =>
        match last (msg_lists w !!! messages metadata) with
        | None => (Raise (IndexError (U "list index out of range")), w)
        | Some last =>
            if negb (nonempty (offered last)) || (choice_id <? 1)
               || (choice_id >? len (default [] (offered last)))
            then (Raise invalid_choice, w)
            else
              turn story_id context metadata
                (prompts.create_continuation_prompt
                   (join nl (str_lists w !!! paragraphs context))
                   choice_id
                   (choice_text_of (default [] (offered last)) choice_id)
                   (current_paragraph context) (max_paragraphs metadata))
                w
        end
    | _, _ => (Raise invalid_story, w)
    end.
Proof.
  unfold continue_story. unfold bind at 1. unfold get.
  destruct (stories_context w !! story_id) as [context|]; [|reflexivity].
  destruct (stories_metadata w !! story_id) as [metadata|]; [|reflexivity].
  unfold bind at 1. unfold read_msgs at 1.
  destruct (last (msg_lists w !!! messages metadata)) as [l|]; [|reflexivity].
  unfold offered.
  destruct (parse_paragraph_and_choices (content l)) as [[p c] t].
  cbn [fst snd].
  destruct (negb (nonempty c) || (choice_id <? 1)
            || (choice_id >? len (default [] c))); reflexivity.
Qed.

Ltac world_simpl :=
  cbn [stories_context stories_metadata str_lists msg_lists DEEPSEEK_API_KEY
       endpoint posts sleeps with_stories_context with_stories_metadata
       with_str_lists with_msg_lists with_posts with_sleeps fst snd] in *.

Lemma alter_present `{Countable K} {A} (f : A -> A) (m : gmap K A) i x :
  m !! i = Some x -> alter f i m = <[i := f x]> m.
Proof.
  intros Hx. apply map_eq. intros j.
  destruct (decide (i = j)) as [->|Hne].
  - by rewrite lookup_alter_eq, lookup_insert_eq, Hx.
  - by rewrite lookup_alter_ne, lookup_insert_ne.
Qed.

Lemma turn_call_intro story_id context metadata prompt w :
  turn story_id context metadata prompt w
  = match turn_call metadata prompt w with
    | (Ok response_text, w2) =>
        (let paragraphs := paragraphs context in
         let current_paragraph := current_paragraph context in
         let max_paragraphs := max_paragraphs metadata in
         let messages := messages metadata in
         let '(paragraph_text, choices, title) :=
           parse_paragraph_and_choices response_text in
         append_str paragraphs paragraph_text ;;
         let* n := get_current_paragraph story_id in
         set_current_paragraph story_id (n + 1) ;;
         set_paragraphs story_id paragraphs ;;
         let is_complete := current_paragraph >=? max_paragraphs - 1 in
         (if is_complete && truthy_opt title
          then set_title story_id (default [] title)
          else ret tt) ;;
         append_msg messages (message (U "assistant") response_text) ;;
         set_messages story_id messages ;;
         let paragraph :=
           {| models.content := paragraph_text;
              models.choices := if is_complete then None else choices |} in
         let* stored_title := get_title story_id in
         ret {| models.story_id := story_id;
                models.paragraph := paragraph;
                models.is_complete := is_complete;
                models.title := if is_complete then stored_title else None |})
          w2
    | (Raise e, w2) => (Raise e, w2)
    end.
Proof.
  unfold turn, turn_call.
  unfold bind at 1. unfold append_msg at 1, modify at 1.
  unfold bind at 1. unfold read_msgs at 1.
  unfold bind at 1.
  fold (user_said metadata prompt w).
  unfold user_said at 1. world_simpl. rewrite lookup_total_insert_eq.
  reflexivity.
Qed.

(** A turn whose model call fails: the exception is the one of the call,
    and the user message stays in the list. *)
Lemma turn_raise story_id context metadata prompt w e w' :
  turn story_id context metadata prompt w = (Raise e, w') ->
  net_only (user_said metadata prompt w) w' /\ exists m, e = Exception m.
Proof.
  rewrite turn_call_intro. unfold turn_call.
  destruct (generate_response _ _ _ _) as [[response_text|e1] w2] eqn:Hg.
  - destruct (parse_paragraph_and_choices response_text) as [[p c] t].
    cbv [bind append_str modify get_current_paragraph set_current_paragraph
         set_paragraphs set_title ret append_msg set_messages get_title].
    destruct (_ && _); intros [=].
  - intros [= <- <-]. split.
    + by eapply generate_response_net_only.
    + by eapply generate_response_raises.
Qed.

(** A turn whose model call returns [response_text]: what it leaves. *)
Lemma turn_ok story_id context metadata prompt w resp w' :
  stories_context w !! story_id = Some context ->
  stories_metadata w !! story_id = Some metadata ->
  turn story_id context metadata prompt w = (Ok resp, w') ->
  exists response_text w2,
    turn_call metadata prompt w = (Ok response_text, w2)
    /\ posts w' = posts w2 /\ sleeps w' = sleeps w2
    /\ let p := parse_paragraph_and_choices response_text in
       let is_complete :=
         current_paragraph context >=? max_paragraphs metadata - 1 in
       let new_title :=
         if is_complete && truthy_opt p.2 then p.2 else title metadata in
       stories_context w'
       = <[story_id := {| paragraphs := paragraphs context;
                          current_paragraph := current_paragraph context + 1 |}]>
           (stories_context w)
       /\ stories_metadata w'
          = <[story_id := {| config := config metadata;
                             max_paragraphs := max_paragraphs metadata;
                             messages := messages metadata;
                             title := new_title |}]>
              (stories_metadata w)
       /\ str_lists w'
          = <[paragraphs context :=
                str_lists w !!! paragraphs context ++ [p.1.1]]> (str_lists w)
       /\ msg_lists w'
          = <[messages metadata :=
                msg_lists w !!! messages metadata
                ++ [message (U "user") prompt;
                    message (U "assistant") response_text]]> (msg_lists w)
       /\ DEEPSEEK_API_KEY w' = DEEPSEEK_API_KEY w
       /\ endpoint w' = endpoint w
       /\ resp = {| models.story_id := story_id;
                    models.paragraph :=
                      {| models.content := p.1.1;
                         models.choices :=
                           if is_complete then None else p.1.2 |};
                    models.is_complete := is_complete;
                    models.title := if is_complete then new_title else None |}.
Proof.
  intros Hc Hm. rewrite turn_call_intro.
  destruct (turn_call metadata prompt w) as [[response_text|e1] w2] eqn:Hg;
    [|intros [=]].
  intros Hrun. exists response_text, w2. split; [reflexivity|].
  unfold turn_call in Hg.
  apply generate_response_net_only in Hg as (Hc2 & Hm2 & Hs2 & Hl2 & Hk2 & He2).
  unfold user_said in *. world_simpl.
  destruct (parse_paragraph_and_choices response_text) as [[p c] t].
  set (is_complete :=
         current_paragraph context >=? max_paragraphs metadata - 1) in *.
  cbv [bind append_str modify get_current_paragraph set_current_paragraph
       set_paragraphs ret append_msg set_messages get_title] in Hrun.
  world_simpl.
  assert (Htitle :
           (if is_complete && truthy_opt t
            then Some (default [] t) else title metadata)
           = (if is_complete && truthy_opt t then t else title metadata)).
  { destruct is_complete; [|done]. destruct t as [[|]|]; done. }
  destruct (is_complete && truthy_opt t) eqn:Ett;
    cbv [set_title modify ret] in Hrun; world_simpl;
    injection Hrun as <- <-; world_simpl;
    rewrite ?Hc2, ?Hm2, ?Hs2, ?Hl2;
    rewrite ?(alter_present _ _ _ _ Hc), ?(alter_present _ _ _ _ Hm),
      ?alter_insert_eq, ?lookup_insert_eq, ?lookup_total_insert_eq,
      ?insert_insert_eq, <- ?app_assoc, ?Hc, ?Htitle;
    cbn [paragraphs current_paragraph config max_paragraphs messages title
         from_option mbind option_bind app];
    repeat split; try done.
Qed.

(** A turn returns as soon as its model call does. *)
Lemma turn_returns story_id context metadata prompt w response_text w2 :
  turn_call metadata prompt w = (Ok response_text, w2) ->
  exists resp w', turn story_id context metadata prompt w = (Ok resp, w').
Proof.
  intros Hg. rewrite turn_call_intro, Hg.
  destruct (parse_paragraph_and_choices response_text) as [[p c] t].
  cbv [bind append_str modify get_current_paragraph set_current_paragraph
       set_paragraphs ret append_msg set_messages get_title].
  destruct (_ && _); cbv [set_title modify ret]; eauto.
Qed.

(** An advance of a stored session is a turn, unless [continue_story]
    rejects the choice or finds no last message. *)
Lemma advance_cases story_id a w context metadata :
  stories_context w !! story_id = Some context ->
  stories_metadata w !! story_id = Some metadata ->
  (exists prompt,
      advance story_id a w = turn story_id context metadata prompt w)
  \/ advance story_id a w = (Raise invalid_choice, w)
  \/ advance story_id a w
     = (Raise (IndexError (U "list index out of range")), w).
Proof.
  intros Hc Hm. destruct a as [choice_id|custom_text]; simpl.
  - rewrite continue_story_turn, Hc, Hm.
    destruct (last _) as [l|]; [|by right; right].
    destruct (_ || _); [by right; left|]. left. eauto.
  - rewrite continue_story_with_text_turn, Hc, Hm. left. eauto.
Qed.

Lemma advance_needs_session story_id a w r w' :
  advance story_id a w = (Ok r, w') ->
  exists context metadata,
    stories_context w !! story_id = Some context
    /\ stories_metadata w !! story_id = Some metadata.
Proof.
  destruct a as [choice_id|custom_text]; simpl;
    [rewrite continue_story_turn|rewrite continue_story_with_text_turn];
    destruct (stories_context w !! story_id) as [context|];
    try (intros [=]; fail);
    destruct (stories_metadata w !! story_id) as [metadata|];
    try (intros [=]; fail); eauto.
Qed.

(** C1. The failure of the model call is the only way an advance of a
    stored session ends in [Exception]. When it does, the paragraph list,
    the paragraph index and the title are what they were, but the message
    list is not: the user message of the turn was appended before the call,
    to the very list the session holds, and stays there. *)
Theorem failed_model_call_keeps_user_message
  (story_id : str) (a : Advance) (w w' : World)
  (context : Context) (metadata : Metadata) (m : str) :
  stories_context w !! story_id = Some context ->
  stories_metadata w !! story_id = Some metadata ->
  advance story_id a w = (Raise (Exception m), w') ->
  stories_context w' = stories_context w
  /\ str_lists w' = str_lists w
  /\ stories_metadata w' = stories_metadata w
  /\ exists prompt,
       msg_lists w'
       = <[messages metadata :=
             msg_lists w !!! messages metadata ++ [message (U "user") prompt]]>
           (msg_lists w).
Proof.
  intros Hc Hm Hrun.
  destruct (advance_cases story_id a w context metadata Hc Hm)
    as [[prompt E]|[E|E]]; rewrite E in Hrun; try discriminate Hrun.
  apply turn_raise in Hrun as [(H1 & H2 & H3 & H4 & _) _].
  unfold user_said in *. world_simpl. eauto.
Qed.

(** C5. [continue_story] on a stored session whose last message offers [n]
    choices raises the invalid-choice error when the choice id is below 1 or
    above [n], or when [n] is 0; the world it leaves is the world it found,
    so no request was made and nothing stored was changed. *)
Theorem continue_story_rejects_invalid_choice
  (story_id : str) (choice_id : Z) (w : World)
  (context : Context) (metadata : Metadata) (last_message : Message) :
  stories_context w !! story_id = Some context ->
  stories_metadata w !! story_id = Some metadata ->
  last (msg_lists w !!! messages metadata) = Some last_message ->
  let n := len (default [] (offered last_message)) in
  choice_id < 1 \/ choice_id > n \/ n = 0 ->
  continue_story story_id choice_id w = (Raise invalid_choice, w).
Proof.
  intros Hc Hm Hl n Hbad.
  rewrite continue_story_turn, Hc, Hm, Hl.
  replace (negb (nonempty (offered last_message)) || (choice_id <? 1)
           || (choice_id >? len (default [] (offered last_message))))
    with true; [reflexivity|].
  symmetry. rewrite !orb_true_iff.
  destruct Hbad as [H|[H|H]].
  - left. right. lia.
  - right. fold n. lia.
  - left. left. subst n.
    destruct (offered last_message) as [[|c cs]|]; simpl in *;
      [done|unfold len in H; simpl in H; lia|done].
Qed.

(** C10. When the choice id passes the range check but no offered choice
    has this id, [continue_story] goes on: the continuation prompt is built
    with the empty string for the text of the choice, and this prompt is the
    user message of the turn. With a model call that returns, the advance
    returns too, and the message list ends with that user message and the
    reply. *)
Theorem continue_story_unmatched_id_uses_empty_text
  (story_id : str) (choice_id : Z) (w : World)
  (context : Context) (metadata : Metadata) (last_message : Message)
  (choices : list models.StoryChoice) :
  stories_context w !! story_id = Some context ->
  stories_metadata w !! story_id = Some metadata ->
  last (msg_lists w !!! messages metadata) = Some last_message ->
  offered last_message = Some choices ->
  1 <= choice_id <= len choices ->
  (forall c, c ∈ choices -> models.id c <> choice_id) ->
  let prompt :=
    prompts.create_continuation_prompt
      (join nl (str_lists w !!! paragraphs context)) choice_id []
      (current_paragraph context) (max_paragraphs metadata) in
  continue_story story_id choice_id w
  = turn story_id context metadata prompt w
  /\ forall response_text w2,
       turn_call metadata prompt w = (Ok response_text, w2) ->
       exists resp w',
         continue_story story_id choice_id w = (Ok resp, w')
         /\ msg_lists w' !!! messages metadata
            = msg_lists w !!! messages metadata
              ++ [message (U "user") prompt;
                  message (U "assistant") response_text].
Proof.
  intros Hc Hm Hl Ho Hrange Hnone prompt.
  assert (continue_story story_id choice_id w
          = turn story_id context metadata prompt w) as E.
  { rewrite continue_story_turn, Hc, Hm, Hl, Ho.
    change (default [] (Some choices)) with choices.
    assert (nonempty (Some choices) = true) as ->.
    { destruct choices; [unfold len in Hrange; simpl in Hrange; lia|done]. }
    assert ((choice_id <? 1) = false) as -> by lia.
    assert ((choice_id >? len choices) = false) as -> by lia.
    cbn [negb orb]. unfold prompt, choice_text_of.
    assert (filter (fun c => models.id c = choice_id) choices = []) as ->; [|done].
    clear -Hnone. induction choices as [|c cs IH]; [done|].
    rewrite filter_cons_False.
    - apply IH. intros c' Hin. apply Hnone. by right.
    - apply Hnone. by left. }
  split; [exact E|].
  intros response_text w2 Hcall.
  destruct (turn_returns story_id context metadata prompt w _ _ Hcall)
    as (resp & w' & Hturn).
  exists resp, w'. rewrite E. split; [exact Hturn|].
  destruct (turn_ok _ _ _ _ _ _ _ Hc Hm Hturn)
    as (r' & w2' & Hcall' & _ & _ & _ & _ & _ & Hmsgs & _).
  rewrite Hcall in Hcall'. injection Hcall' as <- <-.
  rewrite Hmsgs. apply lookup_total_insert_eq.
Qed.

(** What [initialize_story] leaves when it returns, and when it raises. *)
Lemma initialize_story_ok uuid4 config w r w1 :
  initialize_story uuid4 config w = (Ok r, w1) ->
  exists response_text w2,
    generate_response (init_messages config)
      default_retries default_backoff_factor w = (Ok response_text, w2)
    /\ let p := parse_paragraph_and_choices response_text in
       let l := fresh (dom (str_lists w)) in
       let lm := fresh (dom (msg_lists w)) in
       stories_context w1
       = <[uuid4 := {| paragraphs := l; current_paragraph := 1 |}]>
           (stories_context w)
       /\ stories_metadata w1
          = <[uuid4 :=
                {| config := config;
                   max_paragraphs :=
                     prompts.paragraphs
                       (prompts.get_story_length_instructions
                          (models.length config));
                   messages := lm;
                   title := None |}]> (stories_metadata w)
       /\ str_lists w1 = <[l := [p.1.1]]> (str_lists w)
       /\ msg_lists w1
          = <[lm := init_messages config
                    ++ [message (U "assistant") response_text]]> (msg_lists w)
       /\ DEEPSEEK_API_KEY w1 = DEEPSEEK_API_KEY w
       /\ endpoint w1 = endpoint w
       /\ r = {| models.story_id := uuid4;
                 models.paragraph :=
                   {| models.content := p.1.1; models.choices := p.1.2 |};
                 models.is_complete := false;
                 models.title := None |}.
Proof.
  unfold initialize_story. unfold bind at 1.
  fold (init_messages config).
  destruct (generate_response _ _ _ _) as [[response_text|e] w2] eqn:Hg;
    [|intros [=]].
  intros Hrun. exists response_text, w2. split; [reflexivity|].
  apply generate_response_net_only in Hg as (Hc2 & Hm2 & Hs2 & Hl2 & Hk2 & He2).
  destruct (parse_paragraph_and_choices response_text) as [[p c] t].
  cbv [bind new_strs new_msgs modify ret] in Hrun. world_simpl.
  injection Hrun as <- <-. world_simpl.
  rewrite Hc2, Hm2, Hs2, Hl2. repeat split; done.
Qed.

Lemma initialize_story_raise uuid4 config w e w1 :
  initialize_story uuid4 config w = (Raise e, w1) -> net_only w w1.
Proof.
  unfold initialize_story. unfold bind at 1.
  destruct (generate_response _ _ _ _) as [[response_text|e1] w2] eqn:Hg.
  - destruct (parse_paragraph_and_choices response_text) as [[p c] t].
    cbv [bind new_strs new_msgs modify ret]. intros [=].
  - intros [= <- <-]. by eapply generate_response_net_only.
Qed.

Lemma advance_ok story_id a w r w' :
  advance story_id a w = (Ok r, w') ->
  exists context metadata prompt,
    stories_context w !! story_id = Some context
    /\ stories_metadata w !! story_id = Some metadata
    /\ turn story_id context metadata prompt w = (Ok r, w').
Proof.
  intros Hrun.
  destruct (advance_needs_session _ _ _ _ _ Hrun) as (context & metadata & Hc & Hm).
  exists context, metadata.
  destruct (advance_cases story_id a w context metadata Hc Hm)
    as [[prompt E]|[E|E]]; rewrite E in Hrun; try discriminate Hrun.
  eauto.
Qed.

(** C4. A story of length short, initialized and then advanced twice, each
    operation returning: the index is 1 after the initialization and 3 after
    the two advances; the first advance returns with [is_complete] false,
    the second with [is_complete] true and without choices. *)
Theorem short_story_completes_on_second_advance
  (uuid4 : str) (config : models.StoryConfig) (a1 a2 : Advance)
  (w0 w1 w2 w3 : World) (r0 r1 r2 : models.StoryResponse) :
  models.length config = models.SHORT ->
  initialize_story uuid4 config w0 = (Ok r0, w1) ->
  advance (models.story_id r0) a1 w1 = (Ok r1, w2) ->
  advance (models.story_id r0) a2 w2 = (Ok r2, w3) ->
  index_of w1 (models.story_id r0) = Some 1
  /\ index_of w3 (models.story_id r0) = Some 3
  /\ models.is_complete r1 = false
  /\ models.is_complete r2 = true
  /\ models.choices (models.paragraph r2) = None.
Proof.
  intros Hlen Hinit Ha1 Ha2.
  apply initialize_story_ok in Hinit
    as (t0 & w0' & _ & Hc1 & Hm1 & _ & _ & _ & _ & ->).
  cbn [models.story_id] in *.
  rewrite Hlen in Hm1. cbn [prompts.get_story_length_instructions
                             prompts.paragraphs] in Hm1.
  apply advance_ok in Ha1 as (c1 & m1 & p1 & Hc1' & Hm1' & Ht1).
  rewrite Hc1, lookup_insert_eq in Hc1'. injection Hc1' as <-.
  rewrite Hm1, lookup_insert_eq in Hm1'. injection Hm1' as <-.
  pose proof Ht1 as Ht1'.
  apply turn_ok in Ht1'
    as (t1 & w1' & _ & _ & _ & Hc2 & Hm2 & _ & _ & _ & _ & ->);
    [|by rewrite Hc1, lookup_insert_eq|by rewrite Hm1, lookup_insert_eq].
  cbn [paragraphs current_paragraph ai_service.config max_paragraphs messages
       title] in Hc2, Hm2.
  apply advance_ok in Ha2 as (c2 & m2 & p2 & Hc2' & Hm2' & Ht2).
  rewrite Hc2, lookup_insert_eq in Hc2'. injection Hc2' as <-.
  rewrite Hm2, lookup_insert_eq in Hm2'. injection Hm2' as <-.
  pose proof Ht2 as Ht2'.
  apply turn_ok in Ht2'
    as (t2 & w2' & _ & _ & _ & Hc3 & _ & _ & _ & _ & _ & ->);
    [|by rewrite Hc2, lookup_insert_eq|by rewrite Hm2, lookup_insert_eq].
  cbn [paragraphs current_paragraph ai_service.config max_paragraphs messages
       title] in Hc3.
  unfold index_of. rewrite Hc1, Hc3, !lookup_insert_eq.
  repeat split; reflexivity.
Qed.

(** *** Concrete runs *)

Lemma failed_model_call_keeps_user_message_witness :
  let w := started story_then_down in
  let w' := (advance (U "id") (ByChoice 1) w).2 in
  stories_context w' = stories_context w
  /\ str_lists w' = str_lists w
  /\ stories_metadata w' = stories_metadata w
  /\ exists prompt,
       msg_lists w'
       = <[1%positive :=
             msg_lists w !!! 1%positive ++ [message (U "user") prompt]]>
           (msg_lists w).
Proof.
  intros w w'.
  eapply (failed_model_call_keeps_user_message (U "id") (ByChoice 1) w w'
            _ stored_metadata _);
    vm_compute; reflexivity.
Defined.

(** The same run, by its lengths: three stored messages before the failed
    advance and four after it, the last one from the user. *)
Lemma failed_advance_grows_history :
  let w := started story_then_down in
  let w' := (advance (U "id") (ByChoice 1) w).2 in
  (exists m, (advance (U "id") (ByChoice 1) w).1 = Raise (Exception m))
  /\ length (msg_lists w !!! 1%positive) = 3%nat
  /\ length (msg_lists w' !!! 1%positive) = 4%nat
  /\ role <$> last (msg_lists w' !!! 1%positive) = Some (U "user").
Proof.
  intros w w'. split; [eexists|repeat split]; vm_compute; reflexivity.
Qed.

Lemma short_story_completes_on_second_advance_witness :
  let w0 := fresh_world three_replies in
  let w1 := started three_replies in
  let w2 := (advance (U "id") (ByChoice 1) w1).2 in
  let w3 := (advance (U "id") (ByChoice 3) w2).2 in
  let r0 := response (U "A") (Some choices_xyz) false None in
  let r1 := response (U "A") (Some choices_xyz) false None in
  let r2 := response (U "C") None true (Some (U "T")) in
  initialize_story (U "id") config_short w0 = (Ok r0, w1)
  /\ advance (models.story_id r0) (ByChoice 1) w1 = (Ok r1, w2)
  /\ advance (models.story_id r0) (ByChoice 3) w2 = (Ok r2, w3)
  /\ index_of w1 (models.story_id r0) = Some 1
  /\ index_of w3 (models.story_id r0) = Some 3
  /\ models.is_complete r1 = false
  /\ models.is_complete r2 = true
  /\ models.choices (models.paragraph r2) = None.
Proof.
  intros w0 w1 w2 w3 r0 r1 r2.
  assert (initialize_story (U "id") config_short w0 = (Ok r0, w1)) as H0
    by (vm_compute; reflexivity).
  assert (advance (models.story_id r0) (ByChoice 1) w1 = (Ok r1, w2)) as H1
    by (vm_compute; reflexivity).
  assert (advance (models.story_id r0) (ByChoice 3) w2 = (Ok r2, w3)) as H2
    by (vm_compute; reflexivity).
  repeat (split; [assumption|]).
  exact (short_story_completes_on_second_advance
           (U "id") config_short (ByChoice 1) (ByChoice 3)
           w0 w1 w2 w3 r0 r1 r2 eq_refl H0 H1 H2).
Defined.

Lemma continue_story_rejects_invalid_choice_witness :
  continue_story (U "id") 4 (started three_replies)
  = (Raise invalid_choice, started three_replies).
Proof.
  apply (continue_story_rejects_invalid_choice (U "id") 4
           (started three_replies) stored_context stored_metadata
           (message (U "assistant") reply_with_choices));
    [vm_compute; reflexivity ..|].
  right. left. vm_compute. reflexivity.
Defined.

Lemma continue_story_unmatched_id_uses_empty_text_witness :
  let w := started gap_then_title in
  let prompt :=
    prompts.create_continuation_prompt
      (join nl (str_lists w !!! paragraphs stored_context)) 1 []
      (current_paragraph stored_context) (max_paragraphs stored_metadata) in
  continue_story (U "id") 1 w
  = turn (U "id") stored_context stored_metadata prompt w
  /\ forall response_text w2,
       turn_call stored_metadata prompt w = (Ok response_text, w2) ->
       exists resp w',
         continue_story (U "id") 1 w = (Ok resp, w')
         /\ msg_lists w' !!! messages stored_metadata
            = msg_lists w !!! messages stored_metadata
              ++ [message (U "user") prompt;
                  message (U "assistant") response_text].
Proof.
  intros w.
  apply (continue_story_unmatched_id_uses_empty_text (U "id") 1 w
           stored_context stored_metadata
           (message (U "assistant") reply_with_gap)
           [ {| models.id := 2; models.text := U "X" |} ]).
  - vm_compute. reflexivity.
  - vm_compute. reflexivity.
  - vm_compute. reflexivity.
  - vm_compute. reflexivity.
  - vm_compute. split; discriminate.
  - intros c Hc. apply list_elem_of_singleton in Hc as ->. discriminate.
Defined.

(** *** Editing and titling *)

Lemma edit_story_ok story_id edit_instructions w r w' :
  edit_story story_id edit_instructions w = (Ok r, w') ->
  exists context metadata response_text w2,
    stories_context w !! story_id = Some context
    /\ stories_metadata w !! story_id = Some metadata
    /\ generate_response
         (edit_messages (join nl (str_lists w !!! paragraphs context))
            edit_instructions)
         default_retries default_backoff_factor w = (Ok response_text, w2)
    /\ let new_title := (parse_edit response_text).1 in
       let edited_paragraphs := (parse_edit response_text).2 in
       let l := fresh (dom (str_lists w)) in
       let title' :=
         if truthy_opt new_title then new_title else title metadata in
       stories_context w'
       = <[story_id := {| paragraphs := l;
                          current_paragraph := current_paragraph context |}]>
           (stories_context w)
       /\ str_lists w' = <[l := edited_paragraphs]> (str_lists w)
       /\ stories_metadata w'
          = <[story_id := {| config := config metadata;
                             max_paragraphs := max_paragraphs metadata;
                             messages := messages metadata;
                             title := title' |}]> (stories_metadata w)
       /\ msg_lists w' = msg_lists w
       /\ DEEPSEEK_API_KEY w' = DEEPSEEK_API_KEY w
       /\ endpoint w' = endpoint w
       /\ posts w' = posts w2 /\ sleeps w' = sleeps w2
       /\ r = (edited_paragraphs, title').
Proof.
  unfold edit_story. unfold bind at 1. unfold get.
  destruct (stories_context w !! story_id) as [context|] eqn:Hc; [|intros [=]].
  destruct (stories_metadata w !! story_id) as [metadata|] eqn:Hm; [|intros [=]].
  unfold bind at 1. unfold read_strs at 1. unfold bind at 1.
  fold (edit_messages (join nl (str_lists w !!! paragraphs context)) edit_instructions).
  destruct (generate_response _ _ _ _) as [[response_text|e] w2] eqn:Hg;
    [|intros [=]].
  intros Hrun. exists context, metadata, response_text, w2.
  split; [reflexivity|]. split; [reflexivity|]. split; [exact Hg|].
  apply generate_response_net_only in Hg as (Hc2 & Hm2 & Hs2 & Hl2 & Hk2 & He2).
  cbn [fst snd].
  destruct (parse_edit response_text) as [new_title edited] eqn:Hp.
  cbv [bind new_strs set_paragraphs modify ret get_title] in Hrun.
  world_simpl.
  assert (Htitle :
           (if truthy_opt new_title
            then Some (default [] new_title) else title metadata)
           = (if truthy_opt new_title then new_title else title metadata)).
  { destruct new_title as [[|]|]; done. }
  destruct (truthy_opt new_title) eqn:Ett;
    cbv [set_title modify ret] in Hrun; world_simpl;
    injection Hrun as <- <-; world_simpl;
    rewrite ?Hc2, ?Hm2, ?Hs2, ?Hl2;
    rewrite ?(alter_present _ _ _ _ Hc), ?(alter_present _ _ _ _ Hm),
      ?lookup_insert_eq, ?Hm, ?Htitle;
    cbn [paragraphs current_paragraph ai_service.config max_paragraphs messages
         title from_option mbind option_bind];
    repeat split; try done.
  symmetry. apply insert_id. rewrite Hm. by destruct metadata.
Qed.

Lemma edit_story_raise story_id edit_instructions w e w' :
  edit_story story_id edit_instructions w = (Raise e, w') -> net_only w w'.
Proof.
  unfold edit_story. unfold bind at 1. unfold get.
  destruct (stories_context w !! story_id) as [context|] eqn:Hc;
    [|intros [= <- <-]; apply net_only_refl].
  destruct (stories_metadata w !! story_id) as [metadata|] eqn:Hm;
    [|intros [= <- <-]; apply net_only_refl].
  unfold bind at 1. unfold read_strs at 1. unfold bind at 1.
  destruct (generate_response _ _ _ _) as [[response_text|e1] w2] eqn:Hg.
  - destruct (parse_edit response_text) as [new_title edited].
    cbv [bind new_strs set_paragraphs modify ret get_title].
    destruct (truthy_opt new_title); cbv [set_title modify ret]; intros [=].
  - intros [= <- <-]. by eapply generate_response_net_only.
Qed.

Lemma generate_title_stored story_id w metadata :
  stories_metadata w !! story_id = Some metadata ->
  truthy_opt (title metadata) = true ->
  generate_title_if_missing story_id w = (Ok (default [] (title metadata)), w).
Proof.
  intros Hm Ht. unfold generate_title_if_missing. unfold bind at 1. unfold get.
  rewrite Hm, Ht. reflexivity.
Qed.

Lemma generate_title_cases story_id w r w' :
  generate_title_if_missing story_id w = (r, w') ->
  net_only w w'
  \/ exists metadata t,
       stories_metadata w !! story_id = Some metadata
       /\ truthy_opt (title metadata) = false
       /\ r = Ok t
       /\ stories_context w' = stories_context w
       /\ str_lists w' = str_lists w
       /\ msg_lists w' = msg_lists w
       /\ DEEPSEEK_API_KEY w' = DEEPSEEK_API_KEY w
       /\ endpoint w' = endpoint w
       /\ stories_metadata w'
          = <[story_id := with_title metadata (Some t)]> (stories_metadata w).
Proof.
  unfold generate_title_if_missing. unfold bind at 1. unfold get.
  destruct (stories_metadata w !! story_id) as [metadata|] eqn:Hm;
    [|intros [= <- <-]; left; apply net_only_refl].
  destruct (truthy_opt (title metadata)) eqn:Ht;
    [intros [= <- <-]; left; apply net_only_refl|].
  unfold bind at 1. unfold get_complete_story. unfold bind at 1. unfold get.
  destruct (stories_context w !! story_id) as [context|] eqn:Hc;
    [|intros [= <- <-]; left; apply net_only_refl].
  cbv [bind read_strs get_title]. rewrite Hm. cbn [mbind option_bind].
  rewrite Ht. cbv [ret].
  destruct (generate_response _ _ _ _) as [[t|e1] w2] eqn:Hg.
  - apply generate_response_net_only in Hg as (Hc2 & Hm2 & Hs2 & Hl2 & Hk2 & He2).
    cbv [set_title modify]. intros [= <- <-]. right.
    eexists metadata, _. world_simpl.
    rewrite Hm2, (alter_present _ _ _ _ Hm).
    repeat split; done.
  - intros [= <- <-]. left. by eapply generate_response_net_only.
Qed.


(** C9. An edit that returns leaves the session with a new paragraph list,
    which holds the reply split at blank lines, and with the title of the
    reply when the reply carries a non-empty one; the paragraph index, the
    configuration, the paragraph target and the message list of the session
    are what they were (the index is not set to the new number of
    paragraphs), no message list changes, and the other sessions and the
    other paragraph lists are untouched. *)
Theorem edit_story_replaces_paragraphs_and_title_only
  (story_id edit_instructions : str) (w w' : World)
  (r : list str * option str) :
  edit_story story_id edit_instructions w = (Ok r, w') ->
  exists context metadata response_text l,
    stories_context w !! story_id = Some context
    /\ stories_metadata w !! story_id = Some metadata
    /\ (exists w2,
          generate_response
            (edit_messages (join nl (str_lists w !!! paragraphs context))
               edit_instructions)
            default_retries default_backoff_factor w = (Ok response_text, w2))
    /\ (l ∉ dom (str_lists w))
    /\ stories_context w' !! story_id
       = Some {| paragraphs := l;
                 current_paragraph := current_paragraph context |}
    /\ str_lists w' !! l = Some (parse_edit response_text).2
    /\ stories_metadata w' !! story_id
       = Some (with_title metadata
                 (if truthy_opt (parse_edit response_text).1
                  then (parse_edit response_text).1
                  else title metadata))
    /\ (forall other, other <> story_id ->
          stories_context w' !! other = stories_context w !! other
          /\ stories_metadata w' !! other = stories_metadata w !! other)
    /\ (forall l', l' <> l -> str_lists w' !! l' = str_lists w !! l')
    /\ msg_lists w' = msg_lists w.
Proof.
  intros Hrun.
  apply edit_story_ok in Hrun
    as (context & metadata & response_text & w2 & Hc & Hm & Hg
        & Hc' & Hs' & Hm' & Hl' & _).
  exists context, metadata, response_text, (fresh (dom (str_lists w))).
  split; [exact Hc|]. split; [exact Hm|]. split; [eauto|].
  split; [apply is_fresh|].
  rewrite Hc', Hs', Hm', Hl'.
  rewrite !lookup_insert_eq. repeat split; try done.
  - by rewrite lookup_insert_ne.
  - by rewrite lookup_insert_ne.
  - intros l' Hne. by rewrite lookup_insert_ne.
Qed.

Lemma edit_story_replaces_paragraphs_and_title_only_witness :
  let w := started story_then_edit in
  let w' := (edit_story (U "id") (U "shorter") w).2 in
  edit_story (U "id") (U "shorter") w
  = (Ok ([U "P1"; U "P2"], Some (U "T2")), w')
  /\ index_of w' (U "id") = Some 1
  /\ msg_lists w' = msg_lists w.
Proof.
  intros w w'.
  assert (edit_story (U "id") (U "shorter") w
          = (Ok ([U "P1"; U "P2"], Some (U "T2")), w')) as Hrun
    by (vm_compute; reflexivity).
  split; [exact Hrun|].
  destruct (edit_story_replaces_paragraphs_and_title_only _ _ _ _ _ Hrun)
    as (context & metadata & response_text & l & Hc & _ & _ & _ & Hc' & _
        & _ & _ & _ & Hl).
  split; [|exact Hl].
  unfold index_of. rewrite Hc'. simpl.
  assert (stories_context w !! U "id" = Some stored_context) as E
    by (vm_compute; reflexivity).
  rewrite E in Hc. by injection Hc as <-.
Defined.

Lemma blank_title_is_generated_again :
  ~ title_call_is_idempotent.
Proof.
  intros H.
  pose (w := started label_then_title).
  pose (w1 := (generate_title_if_missing (U "id") w).2).
  assert (generate_title_if_missing (U "id") w = (Ok [], w1)) as H1
    by (vm_compute; reflexivity).
  apply H in H1.
  assert ((generate_title_if_missing (U "id") w1).1 = Ok (U "T")) as H2
    by (vm_compute; reflexivity).
  rewrite H1 in H2. discriminate H2.
Qed.

(** C8, amended. A stored title that is not the empty string is returned as
    it is, and the world is left as it was found: no request is made. So a
    call that returned a non-empty title, made again at once, returns the
    same title without a request and without a change. (An empty title
    counts as missing, and the next call generates one again.) *)
Theorem nonempty_title_is_returned_unchanged (story_id : str) (w : World) :
  (forall metadata t,
      stories_metadata w !! story_id = Some metadata ->
      title metadata = Some t -> t <> [] ->
      generate_title_if_missing story_id w = (Ok t, w))
  /\ (forall t w1,
        generate_title_if_missing story_id w = (Ok t, w1) -> t <> [] ->
        generate_title_if_missing story_id w1 = (Ok t, w1)).
Proof.
  assert (forall w0 metadata t,
             stories_metadata w0 !! story_id = Some metadata ->
             title metadata = Some t -> t <> [] ->
             generate_title_if_missing story_id w0 = (Ok t, w0)) as Hstored.
  { intros w0 metadata t Hm Ht Hne.
    rewrite (generate_title_stored _ _ _ Hm); [by rewrite Ht|].
    rewrite Ht. by destruct t. }
  split; [apply Hstored|].
  intros t w1 Hrun Hne.
  unfold generate_title_if_missing in Hrun. unfold bind at 1 in Hrun.
  unfold get in Hrun.
  destruct (stories_metadata w !! story_id) as [metadata|] eqn:Hm;
    [|discriminate Hrun].
  destruct (truthy_opt (title metadata)) eqn:Ht.
  - injection Hrun as <- <-.
    apply (Hstored w metadata); [exact Hm| |exact Hne].
    destruct (title metadata) as [[|]|]; done.
  - assert (generate_title_if_missing story_id w = (Ok t, w1)) as Hrun'.
    { unfold generate_title_if_missing. unfold bind at 1. unfold get.
      rewrite Hm, Ht. exact Hrun. }
    apply generate_title_cases in Hrun'
      as [(_ & Hm1 & _)|(metadata' & t' & Hm' & _ & [= <-] & _ & _ & _ & _ & _ & Hm1)].
    + (* the world kept its metadata: no title was stored, none returned *)
      exfalso. clear Hstored.
      unfold bind at 1 in Hrun. unfold get_complete_story in Hrun.
      unfold bind at 1 in Hrun. unfold get in Hrun.
      destruct (stories_context w !! story_id) as [context|];
        [|discriminate Hrun].
      cbv [bind read_strs get_title] in Hrun. rewrite Hm in Hrun.
      cbn [mbind option_bind] in Hrun. rewrite Ht in Hrun. cbv [ret] in Hrun.
      destruct (generate_response _ _ _ _) as [[t0|e1] w2] eqn:Hg;
        [|discriminate Hrun].
      apply generate_response_net_only in Hg as (_ & Hm2 & _).
      cbv [set_title modify] in Hrun. injection Hrun as <- <-.
      world_simpl. rewrite Hm2 in Hm1.
      assert (alter
                (fun m => {| config := config m;
                             max_paragraphs := max_paragraphs m;
                             messages := messages m;
                             title := Some (strip (replace marker_title []
                                                     (strip t0))) |})
                story_id (stories_metadata w) !! story_id
              = stories_metadata w !! story_id) as E by (by rewrite Hm1).
      rewrite lookup_alter_eq, Hm in E. simpl in E. injection E as E.
      rewrite <- E in Ht. simpl in Ht.
      destruct (strip _); [by apply Hne|discriminate Ht].
    + apply (Hstored w1 (with_title metadata' (Some t)));
        [by rewrite Hm1, lookup_insert_eq|done|exact Hne].
Qed.

Lemma nonempty_title_is_returned_unchanged_witness :
  let w := started story_then_title in
  let w1 := (generate_title_if_missing (U "id") w).2 in
  (generate_title_if_missing (U "id") w = (Ok (U "T"), w1)
   /\ generate_title_if_missing (U "id") w1 = (Ok (U "T"), w1))
  /\ (stories_metadata w1 !! U "id"
      = Some (with_title stored_metadata (Some (U "T")))
      /\ generate_title_if_missing (U "id") w1 = (Ok (U "T"), w1)).
Proof.
  intros w w1.
  assert (generate_title_if_missing (U "id") w = (Ok (U "T"), w1)) as Hrun
    by (vm_compute; reflexivity).
  assert (stories_metadata w1 !! U "id"
          = Some (with_title stored_metadata (Some (U "T")))) as Hm
    by (vm_compute; reflexivity).
  pose proof (nonempty_title_is_returned_unchanged (U "id") w) as [_ Hagain].
  pose proof (nonempty_title_is_returned_unchanged (U "id") w1) as [Hstored _].
  refine (conj (conj Hrun (Hagain (U "T") w1 Hrun _))
               (conj Hm (Hstored _ (U "T") Hm eq_refl _)));
    discriminate.
Defined.

(** *** The index and the number of paragraphs *)

Lemma advance_raise story_id a w e w' :
  advance story_id a w = (Raise e, w') ->
  stories_context w' = stories_context w /\ str_lists w' = str_lists w.
Proof.
  intros Hrun.
  destruct (stories_context w !! story_id) as [context|] eqn:Hc;
    [destruct (stories_metadata w !! story_id) as [metadata|] eqn:Hm|].
  - destruct (advance_cases story_id a w context metadata Hc Hm)
      as [[prompt E]|[E|E]]; rewrite E in Hrun.
    + apply turn_raise in Hrun as [(H1 & _ & H3 & _) _]. by split.
    + by injection Hrun as <- <-.
    + by injection Hrun as <- <-.
  - destruct a; simpl in Hrun;
      [rewrite continue_story_turn in Hrun
      |rewrite continue_story_with_text_turn in Hrun];
      rewrite Hc, Hm in Hrun; by injection Hrun as <- <-.
  - destruct a; simpl in Hrun;
      [rewrite continue_story_turn in Hrun
      |rewrite continue_story_with_text_turn in Hrun];
      rewrite Hc in Hrun; by injection Hrun as <- <-.
Qed.

Lemma run_effect (o : Op) (w : World) : effect w (run o w) o.
Proof.
  destruct o as [uuid4 config|story_id a|story_id|story_id edit_instructions];
    unfold run.
  - destruct (initialize_story uuid4 config w) as [[r|e] w'] eqn:Hrun.
    + apply initialize_story_ok in Hrun
        as (t & w2 & _ & Hc & _ & Hs & _).
      by eapply effect_initialize.
    + apply initialize_story_raise in Hrun as (Hc & _ & Hs & _).
      by apply effect_none.
  - destruct (advance story_id a w) as [[r|e] w'] eqn:Hrun.
    + apply advance_ok in Hrun as (c & m & prompt & Hc & Hm & Hturn).
      apply (turn_ok _ _ _ _ _ _ _ Hc Hm) in Hturn
        as (t & w2 & _ & _ & _ & Hc' & _ & Hs' & _).
      by eapply effect_advance.
    + apply advance_raise in Hrun as [Hc Hs]. by apply effect_none.
  - destruct (generate_title_if_missing story_id w) as [r w'] eqn:Hrun.
    apply generate_title_cases in Hrun
      as [(Hc & _ & Hs & _)|(m & t & _ & _ & _ & Hc & Hs & _)];
      by apply effect_none.
  - destruct (edit_story story_id edit_instructions w) as [[r|e] w'] eqn:Hrun.
    + apply edit_story_ok in Hrun
        as (c & m & t & w2 & Hc & _ & _ & Hc' & Hs' & _).
      by eapply effect_edit.
    + apply edit_story_raise in Hrun as (Hc & _ & Hs & _).
      by apply effect_none.
Qed.

Lemma effect_keeps_separation o w w' :
  effect w w' o -> allocated w -> unshared w -> allocated w' /\ unshared w'.
Proof.
  intros [o' Hc Hs|uuid4 config p Hc Hs|story_id a c p Hl Hc Hs
          |story_id instr c ps Hl Hc Hs] Ha Hu;
    unfold allocated, unshared; rewrite Hc, Hs.
  - done.
  - pose proof (is_fresh (dom (str_lists w))) as Hf.
    split.
    + intros s c. rewrite dom_insert_L.
      destruct (decide (uuid4 = s)) as [->|Hne].
      * rewrite lookup_insert_eq. intros [= <-]. simpl. set_solver.
      * rewrite lookup_insert_ne by done. intros H. apply Ha in H. set_solver.
    + intros s1 s2 c1 c2.
      destruct (decide (s1 = uuid4)) as [->|Hne1];
        destruct (decide (s2 = uuid4)) as [->|Hne2];
        rewrite ?lookup_insert_eq, ?lookup_insert_ne by done; try done.
      * intros [= <-] H2 E. simpl in E. apply Ha in H2. by rewrite <- E in H2.
      * intros H1 [= <-] E. simpl in E. apply Ha in H1. by rewrite E in H1.
      * apply Hu.
  - split.
    + intros s c0. rewrite dom_insert_L.
      destruct (decide (story_id = s)) as [->|Hne].
      * rewrite lookup_insert_eq. intros [= <-]. simpl.
        apply Ha in Hl. set_solver.
      * rewrite lookup_insert_ne by done. intros H. apply Ha in H. set_solver.
    + intros s1 s2 c1 c2.
      destruct (decide (s1 = story_id)) as [->|Hne1];
        destruct (decide (s2 = story_id)) as [->|Hne2];
        rewrite ?lookup_insert_eq, ?lookup_insert_ne by done; try done.
      * intros [= <-] H2 E. simpl in E. by apply (Hu _ _ _ _ Hl H2).
      * intros H1 [= <-] E. simpl in E. by apply (Hu _ _ _ _ H1 Hl).
      * apply Hu.
  - pose proof (is_fresh (dom (str_lists w))) as Hf.
    split.
    + intros s c0. rewrite dom_insert_L.
      destruct (decide (story_id = s)) as [->|Hne].
      * rewrite lookup_insert_eq. intros [= <-]. simpl. set_solver.
      * rewrite lookup_insert_ne by done. intros H. apply Ha in H. set_solver.
    + intros s1 s2 c1 c2.
      destruct (decide (s1 = story_id)) as [->|Hne1];
        destruct (decide (s2 = story_id)) as [->|Hne2];
        rewrite ?lookup_insert_eq, ?lookup_insert_ne by done; try done.
      * intros [= <-] H2 E. simpl in E. apply Ha in H2. by rewrite <- E in H2.
      * intros H1 [= <-] E. simpl in E. apply Ha in H1. by rewrite E in H1.
      * apply Hu.
Qed.

Lemma effect_keeps_counts o w w' story_id :
  effect w w' o -> allocated w -> unshared w ->
  (forall instr, o <> EditStory story_id instr) ->
  counts w story_id -> counts w' story_id.
Proof.
  intros [o' Hc Hs|uuid4 config p Hc Hs|sid a c p Hl Hc Hs
          |sid instr c ps Hl Hc Hs] Ha Hu Hne Hcount;
    unfold counts; rewrite Hc, Hs.
  - exact Hcount.
  - pose proof (is_fresh (dom (str_lists w))) as Hf.
    intros c0. destruct (decide (uuid4 = story_id)) as [->|Hn].
    + rewrite lookup_insert_eq. intros [= <-]. simpl.
      by rewrite lookup_total_insert_eq.
    + rewrite lookup_insert_ne by done. intros H.
      rewrite lookup_total_insert_ne; [by apply Hcount|].
      intros E. apply Ha in H. by rewrite <- E in H.
  - intros c0. destruct (decide (sid = story_id)) as [->|Hn].
    + rewrite lookup_insert_eq. intros [= <-]. simpl.
      rewrite lookup_total_insert_eq. rewrite (Hcount _ Hl).
      unfold len. rewrite length_app. simpl. lia.
    + rewrite lookup_insert_ne by done. intros H.
      rewrite lookup_total_insert_ne; [by apply Hcount|].
      intros E. apply Hn. by apply (Hu _ _ _ _ Hl H).
  - pose proof (is_fresh (dom (str_lists w))) as Hf.
    intros c0. destruct (decide (sid = story_id)) as [->|Hn].
    + by destruct (Hne instr).
    + rewrite lookup_insert_ne by done. intros H.
      rewrite lookup_total_insert_ne; [by apply Hcount|].
      intros E. apply Ha in H. by rewrite <- E in H.
Qed.

Lemma effect_index_monotone o w w' story_id c :
  effect w w' o -> admissible o w ->
  stories_context w !! story_id = Some c ->
  exists c',
    stories_context w' !! story_id = Some c'
    /\ current_paragraph c <= current_paragraph c'.
Proof.
  intros [o' Hc Hs|uuid4 config p Hc Hs|sid a c0 p Hl Hc Hs
          |sid instr c0 ps Hl Hc Hs] Hadm H; rewrite Hc.
  - exists c. by split.
  - simpl in Hadm. exists c. split; [|done].
    rewrite lookup_insert_ne; [done|]. intros ->. congruence.
  - destruct (decide (sid = story_id)) as [->|Hn].
    + rewrite lookup_insert_eq. eexists. split; [done|]. simpl.
      rewrite Hl in H. injection H as <-. lia.
    + rewrite lookup_insert_ne by done. exists c. by split.
  - destruct (decide (sid = story_id)) as [->|Hn].
    + rewrite lookup_insert_eq. eexists. split; [done|]. simpl.
      rewrite Hl in H. injection H as <-. lia.
    + rewrite lookup_insert_ne by done. exists c. by split.
Qed.

Lemma reaches_separation w0 ops w :
  stories_context w0 = ∅ -> reaches w0 ops w -> allocated w /\ unshared w.
Proof.
  intros H0 Hr. induction Hr as [|ops w o Hr IH Hadm].
  - unfold allocated, unshared. rewrite H0. split.
    + intros s c. by rewrite lookup_empty.
    + intros s1 s2 c1 c2. by rewrite lookup_empty.
  - destruct IH as [Ha Hu].
    by apply (effect_keeps_separation o w); [apply run_effect| |].
Qed.

Lemma reaches_counts w0 ops w story_id :
  stories_context w0 = ∅ -> reaches w0 ops w ->
  (forall instr, EditStory story_id instr ∉ ops) ->
  counts w story_id.
Proof.
  intros H0 Hr. induction Hr as [|ops w o Hr IH Hadm]; intros Hne.
  - unfold counts. rewrite H0. intros c. by rewrite lookup_empty.
  - destruct (reaches_separation _ _ _ H0 Hr) as [Ha Hu].
    apply (effect_keeps_counts o w); [apply run_effect|done|done| |].
    + intros instr ->. apply (Hne instr). set_solver.
    + apply IH. intros instr Hin. apply (Hne instr). set_solver.
Qed.

Lemma edit_breaks_the_count : ~ index_always_counts.
Proof.
  intros H.
  pose (w0 := fresh_world story_then_edit).
  pose (o1 := Initialize (U "id") config_short).
  pose (o2 := EditStory (U "id") (U "shorter")).
  assert (reaches w0 [o1; o2] (run o2 (run o1 w0))) as Hr.
  { apply (reaches_step w0 [o1] (run o1 w0) o2); [|exact I].
    apply (reaches_step w0 [] w0 o1); [apply reaches_nil|].
    vm_compute. reflexivity. }
  specialize (H w0 [o1; o2] _ eq_refl Hr (U "id")
                {| paragraphs := 2%positive; current_paragraph := 1 |}).
  assert (len (str_lists (run o2 (run o1 w0)) !!! 2%positive) = 2) as E
    by (vm_compute; reflexivity).
  assert (stories_context (run o2 (run o1 w0)) !! U "id"
          = Some {| paragraphs := 2%positive; current_paragraph := 1 |}) as Hl
    by (vm_compute; reflexivity).
  specialize (H Hl). cbn [paragraphs current_paragraph] in H.
  rewrite E in H. discriminate H.
Qed.

(** C3, amended. Whatever public operation comes next, the index of a
    stored session does not decrease; and in every world reached from the
    empty dictionaries by the public operations, the index of a session
    that no edit has touched is the number of its stored paragraphs. (An
    edit puts a new paragraph list in place and leaves the index as it
    is.) *)
Theorem index_monotone_and_counts_until_edited
  (w0 : World) (ops : list Op) (w : World) :
  stories_context w0 = ∅ ->
  reaches w0 ops w ->
  (forall story_id,
      (forall instr, EditStory story_id instr ∉ ops) ->
      counts w story_id)
  /\ (forall o story_id c,
        admissible o w ->
        stories_context w !! story_id = Some c ->
        exists c',
          stories_context (run o w) !! story_id = Some c'
          /\ current_paragraph c <= current_paragraph c').
Proof.
  intros H0 Hr. split.
  - intros story_id Hne. by apply (reaches_counts w0 ops).
  - intros o story_id c Hadm Hc.
    by apply (effect_index_monotone o w); [apply run_effect| |].
Qed.

Lemma index_monotone_and_counts_until_edited_witness :
  let w0 := fresh_world three_replies in
  let o1 := Initialize (U "id") config_short in
  let o2 := AdvanceStory (U "id") (ByChoice 1) in
  let o3 := EditStory (U "id") (U "shorter") in
  let w := run o2 (run o1 w0) in
  counts w (U "id")
  /\ exists c',
       stories_context (run o3 w) !! U "id" = Some c'
       /\ 2 <= current_paragraph c'.
Proof.
  intros w0 o1 o2 o3 w.
  assert (reaches w0 [o1; o2] w) as Hr.
  { apply (reaches_step w0 [o1] (run o1 w0) o2); [|exact I].
    apply (reaches_step w0 [] w0 o1); [apply reaches_nil|].
    vm_compute. reflexivity. }
  destruct (index_monotone_and_counts_until_edited w0 [o1; o2] w eq_refl Hr)
    as [Hcount Hmono].
  split.
  - apply Hcount. intros instr Hin.
    apply elem_of_cons in Hin as [Hin|Hin]; [discriminate Hin|].
    apply elem_of_cons in Hin as [Hin|Hin]; [discriminate Hin|].
    by apply elem_of_nil in Hin.
  - apply (Hmono o3 (U "id")
             {| paragraphs := 1%positive; current_paragraph := 2 |});
      [exact I|vm_compute; reflexivity].
Defined.

(** *** Runs that return *)

Lemma generate_response_first_reply messages b w content :
  answers w content ->
  generate_response messages default_retries b w
  = (Ok content, posted messages w).
Proof.
  intros [Hk [text He]].
  unfold generate_response. unfold bind at 1. unfold get. rewrite Hk.
  cbn [negb]. unfold default_retries.
  change (Z.to_nat 3) with 3%nat. cbn [attempts].
  unfold bind at 1.
  cbv [attempt_once catch try_body bind post sleep modify ret raise].
  rewrite He. reflexivity.
Qed.

Lemma initialize_story_returns uuid4 config w content :
  answers w content ->
  exists r w1,
    initialize_story uuid4 config w = (Ok r, w1)
    /\ posts w1 = posts w ++ [init_messages config].
Proof.
  intros Ha. unfold initialize_story. unfold bind at 1.
  fold (init_messages config).
  rewrite (generate_response_first_reply _ _ _ _ Ha).
  destruct (parse_paragraph_and_choices content) as [[p c] t].
  cbv [bind new_strs new_msgs modify ret]. eexists _, _.
  split; reflexivity.
Qed.

Lemma continue_story_with_text_returns story_id custom_text w content :
  is_Some (stories_context w !! story_id) ->
  is_Some (stories_metadata w !! story_id) ->
  answers w content ->
  exists r w1,
    continue_story_with_text story_id custom_text w = (Ok r, w1)
    /\ length (posts w1) = S (length (posts w)).
Proof.
  intros [context Hc] [metadata Hm] Ha.
  rewrite continue_story_with_text_turn, Hc, Hm.
  set (prompt := custom_prompt _ _ _ _).
  assert (turn_call metadata prompt w
          = (Ok content,
             posted (msg_lists w !!! messages metadata
                     ++ [message (U "user") prompt])
                    (user_said metadata prompt w))) as Hcall.
  { unfold turn_call. apply generate_response_first_reply. exact Ha. }
  destruct (turn_returns story_id context metadata prompt w _ _ Hcall)
    as (r & w1 & Hturn).
  exists r, w1. split; [exact Hturn|].
  destruct (turn_ok _ _ _ _ _ _ _ Hc Hm Hturn)
    as (t & w2 & Hcall' & Hp & _).
  rewrite Hcall in Hcall'. injection Hcall' as <- <-.
  rewrite Hp. unfold posted, user_said. world_simpl.
  rewrite length_app. simpl. lia.
Qed.

(** The same for three operations in a row: with a key and three good
    replies, a story is initialized and advanced twice by free text. *)
Lemma short_story_by_text_returns uuid4 config text1 text2 w0 c0 c1 c2 :
  from_option truthy false (DEEPSEEK_API_KEY w0) = true ->
  (exists t, endpoint w0 (length (posts w0)) = Response 200 t (Content c0)) ->
  (exists t, endpoint w0 (1 + length (posts w0)) = Response 200 t (Content c1)) ->
  (exists t, endpoint w0 (2 + length (posts w0)) = Response 200 t (Content c2)) ->
  exists r0 w1 r1 w2 r2 w3,
    initialize_story uuid4 config w0 = (Ok r0, w1)
    /\ continue_story_with_text uuid4 text1 w1 = (Ok r1, w2)
    /\ continue_story_with_text uuid4 text2 w2 = (Ok r2, w3).
Proof.
  intros Hk H0 H1 H2.
  destruct (initialize_story_returns uuid4 config w0 c0 (conj Hk H0))
    as (r0 & w1 & Hinit & Hp1).
  destruct (initialize_story_ok _ _ _ _ _ Hinit)
    as (t0 & w0' & _ & Hc1 & Hm1 & _ & _ & Hk1 & He1 & _).
  assert (answers w1 c1) as Ha1.
  { split; [by rewrite Hk1|]. rewrite He1, Hp1, length_app. simpl.
    by rewrite Nat.add_comm. }
  destruct (continue_story_with_text_returns uuid4 text1 w1 c1)
    as (r1 & w2 & Hadv1 & Hp2); [by rewrite Hc1, lookup_insert_eq
                                |by rewrite Hm1, lookup_insert_eq|exact Ha1|].
  destruct (advance_ok uuid4 (ByText text1) w1 r1 w2 Hadv1)
    as (c & m & p & Hc & Hm & Hturn).
  destruct (turn_ok _ _ _ _ _ _ _ Hc Hm Hturn)
    as (t1 & w1' & _ & _ & _ & Hc2 & Hm2 & _ & _ & Hk2 & He2 & _).
  assert (answers w2 c2) as Ha2.
  { split; [by rewrite Hk2, Hk1|]. rewrite He2, He1, Hp2, Hp1, length_app.
    simpl. by rewrite Nat.add_comm. }
  destruct (continue_story_with_text_returns uuid4 text2 w2 c2)
    as (r2 & w3 & Hadv2 & _); [by rewrite Hc2, lookup_insert_eq
                              |by rewrite Hm2, lookup_insert_eq|exact Ha2|].
  by exists r0, w1, r1, w2, r2, w3.
Qed.
(** ** The attempts of the model client *)

Lemma world_eta (w : World) :
  w = {| stories_context := stories_context w;
         stories_metadata := stories_metadata w;
         str_lists := str_lists w; msg_lists := msg_lists w;
         DEEPSEEK_API_KEY := DEEPSEEK_API_KEY w; endpoint := endpoint w;
         posts := posts w; sleeps := sleeps w |}.
Proof. by destruct w. Qed.

Lemma retried_zero messages b attempt w : retried messages b attempt 0 w = w.
Proof.
  unfold retried, with_sleeps, with_posts. simpl. rewrite !app_nil_r.
  symmetry. apply world_eta.
Qed.

Lemma retried_succ messages b attempt n w :
  retried messages b (S attempt) n
    (slept (wait_time b attempt) (posted messages w))
  = retried messages b attempt (S n) w.
Proof.
  unfold retried, slept, posted, with_sleeps, with_posts. simpl.
  rewrite <- !app_assoc. reflexivity.
Qed.

(** An attempt that meets an outcome other than a 200 with content sleeps
    and goes on. *)
Lemma attempts_failure_step messages b n attempt last w :
  success (endpoint w (length (posts w))) = None ->
  attempts messages b (S n) attempt last w
  = attempts messages b n (S attempt)
      (recorded (endpoint w (length (posts w))) last)
      (slept (wait_time b attempt) (posted messages w)).
Proof.
  intros H. cbn [attempts]. unfold bind at 1.
  cbv [attempt_once catch try_body bind post sleep modify ret raise].
  unfold success, recorded, handled in *.
  destruct (endpoint w (length (posts w))) as [status text json|e].
  - destruct (status =? 429); [reflexivity|].
    destruct (status =? 200); [|reflexivity]. cbn [negb] in *.
    destruct json as [e| |e|content]; try destruct e; try reflexivity.
    discriminate H.
  - destruct e; reflexivity.
Qed.

Lemma attempts_success_step messages b n attempt last w content :
  success (endpoint w (length (posts w))) = Some content ->
  attempts messages b (S n) attempt last w
  = (Ok content, posted messages w).
Proof.
  intros H. cbn [attempts]. unfold bind at 1.
  cbv [attempt_once catch try_body bind post sleep modify ret raise].
  unfold success in H.
  destruct (endpoint w (length (posts w))) as [status text json|e];
    [|discriminate H].
  destruct json as [e| |e|c]; try discriminate H.
  destruct (status =? 200) eqn:E; [|discriminate H].
  injection H as ->.
  assert (status = 200) as -> by lia. reflexivity.
Qed.

Lemma attempts_failures messages b k n attempt last w :
  (forall i, (i < k)%nat ->
             success (endpoint w (length (posts w) + i)) = None) ->
  attempts messages b (k + n) attempt last w
  = attempts messages b n (k + attempt)
      (last_recorded (endpoint w) (length (posts w)) k last)
      (retried messages b attempt k w).
Proof.
  revert attempt last w. induction k as [|k IH]; intros attempt last w Hf.
  - simpl. by rewrite retried_zero.
  - cbn [Nat.add last_recorded].
    rewrite attempts_failure_step
      by (specialize (Hf 0%nat ltac:(lia)); by rewrite Nat.add_0_r in Hf).
    rewrite IH.
    + rewrite retried_succ. f_equal; [lia|].
      unfold slept, posted. cbn [endpoint posts with_sleeps with_posts].
      rewrite length_app. simpl. f_equal. lia.
    + intros i Hi. unfold slept, posted.
      cbn [endpoint posts with_sleeps with_posts].
      rewrite length_app. simpl.
      specialize (Hf (S i) ltac:(lia)).
      by replace (length (posts w) + 1 + i)%nat
        with (length (posts w) + S i)%nat by lia.
Qed.

Lemma generate_response_attempts messages retries b w :
  key_is_set w ->
  generate_response messages retries b w
  = attempts messages b (Z.to_nat retries) 0 None w.
Proof.
  intros Hk. unfold generate_response. unfold bind at 1. unfold get.
  unfold key_is_set in Hk. by rewrite Hk.
Qed.


Lemma last_recorded_snoc ep start n last :
  last_recorded ep start (S n) last
  = recorded (ep (start + n)%nat) (last_recorded ep start n last).
Proof.
  revert start last. induction n as [|n IH]; intros start last.
  - simpl. by rewrite Nat.add_0_r.
  - change (last_recorded ep start (S (S n)) last)
      with (last_recorded ep (S start) (S n) (recorded (ep start) last)).
    rewrite IH. cbn [last_recorded].
    by replace (S start + n)%nat with (start + S n)%nat by lia.
Qed.

(** X1. With a key and delays that are finite floats (so [k] is at most
    1024), when the first [k] requests meet failures (a raised request, a
    status other than 200, or a 200 whose JSON does not read, has no
    choices or lacks the content) and request [k] (fewer than [retries]
    came before) is answered by a 200 whose content is a string, the call
    returns this content; [k + 1] requests were made, all with the same
    messages, and between them the call slept [backoff_factor * 2 ^ i]
    for i = 0, ..., k - 1; nothing stored changed. *)
Theorem generate_response_returns_first_content
  (messages : list Message) (retries : Z) (b : Q) (w : World)
  (k : nat) (content : str) :
  key_is_set w ->
  finite_delays b k ->
  (k < Z.to_nat retries)%nat ->
  (forall i, (i < k)%nat ->
             success (endpoint w (length (posts w) + i)) = None) ->
  success (endpoint w (length (posts w) + k)) = Some content ->
  exists w',
    generate_response messages retries b w = (Ok content, w')
    /\ posts w' = posts w ++ replicate (S k) messages
    /\ sleeps w' = sleeps w ++ (wait_time b <$> seq 0 k)
    /\ net_only w w'.
Proof.
  intros Hk _ Hlt Hfail Hok.
  rewrite generate_response_attempts by done.
  replace (Z.to_nat retries) with (k + S (Z.to_nat retries - S k))%nat by lia.
  rewrite attempts_failures by done.
  rewrite attempts_success_step with (content := content).
  - eexists. split; [reflexivity|].
    unfold posted, retried. cbn [posts sleeps with_posts with_sleeps].
    split; [|split].
    + rewrite <- app_assoc. f_equal.
      change (S k) with (1 + k)%nat.
      by rewrite replicate_add, <- replicate_cons_app.
    + done.
    + by repeat split.
  - unfold retried. cbn [endpoint posts with_posts with_sleeps].
    by rewrite length_app, length_replicate.
Qed.


(** X3. With a key and delays that are finite floats (so [retries] is at
    most 1024), when every request is answered by a 429 (or when [retries]
    is not positive, so that no request is made), no failure is recorded
    and the call raises the general failure, after [retries] requests. *)
Theorem generate_response_rate_limited_throughout
  (messages : list Message) (retries : Z) (b : Q) (w : World) :
  key_is_set w ->
  finite_delays b (Z.to_nat retries) ->
  (forall i, (i < Z.to_nat retries)%nat ->
             exists text json,
               endpoint w (length (posts w) + i) = Response 429 text json) ->
  exists w',
    generate_response messages retries b w = (Raise exhausted, w')
    /\ length (posts w') = (length (posts w) + Z.to_nat retries)%nat.
Proof.
  intros Hk _ Hlim.
  rewrite generate_response_attempts by done.
  assert (forall i, (i < Z.to_nat retries)%nat ->
                    success (endpoint w (length (posts w) + i)) = None) as Hfail.
  { intros i Hi. destruct (Hlim i Hi) as (text & json & ->).
    by destruct json. }
  pose proof (attempts_failures messages b (Z.to_nat retries) 0 0 None w Hfail)
    as E.
  rewrite !Nat.add_0_r in E. rewrite E. clear E Hfail.
  eexists. split.
  - cbn [attempts]. unfold raise.
    assert (last_recorded (endpoint w) (length (posts w))
              (Z.to_nat retries) None = None) as ->; [|reflexivity].
    induction (Z.to_nat retries) as [|n IH]; [done|].
    rewrite last_recorded_snoc, IH by (intros i Hi; apply Hlim; lia).
    destruct (Hlim n ltac:(lia)) as (text & json & ->). done.
  - unfold retried. cbn [posts with_posts with_sleeps].
    by rewrite length_app, length_replicate.
Qed.


(** X5. Without a key (none, or the empty string), [generate_response] and
    [initialize_story] raise the missing-key exception and leave the world
    as it was: no request is made and nothing is stored. *)
Theorem missing_key_raises_before_any_request
  (messages : list Message) (retries : Z) (b : Q) (w : World)
  (uuid4 : str) (config : models.StoryConfig) :
  from_option truthy false (DEEPSEEK_API_KEY w) = false ->
  generate_response messages retries b w = (Raise missing_key, w)
  /\ initialize_story uuid4 config w = (Raise missing_key, w).
Proof.
  intros Hk.
  assert (forall m r q, generate_response m r q w = (Raise missing_key, w))
    as H.
  { intros m r q. unfold generate_response. unfold bind at 1. unfold get.
    by rewrite Hk. }
  split; [apply H|].
  unfold initialize_story. unfold bind at 1. by rewrite H.
Qed.

Lemma generate_response_returns_first_content_witness :
  let w := fresh_world limited_down_ok in
  exists w',
    generate_response [] default_retries default_backoff_factor w
    = (Ok (U "ok"), w')
    /\ posts w' = posts w ++ replicate 3 []
    /\ sleeps w' = sleeps w ++ (wait_time default_backoff_factor <$> seq 0 2)
    /\ net_only w w'.
Proof.
  intros w.
  apply (generate_response_returns_first_content
           [] default_retries default_backoff_factor w 2 (U "ok")).
  - reflexivity.
  - intros i Hi.
    destruct i as [|[|i]]; [..|lia];
      (split; [lia|split; vm_compute; reflexivity]).
  - vm_compute. lia.
  - intros i Hi. destruct i as [|[|i]]; [reflexivity|reflexivity|lia].
  - reflexivity.
Defined.


Lemma generate_response_rate_limited_throughout_witness :
  let w := fresh_world always_limited in
  exists w',
    generate_response [] default_retries default_backoff_factor w
    = (Raise exhausted, w')
    /\ length (posts w') = (length (posts w) + Z.to_nat default_retries)%nat.
Proof.
  intros w.
  apply (generate_response_rate_limited_throughout
           [] default_retries default_backoff_factor w).
  - reflexivity.
  - intros i Hi. change (Z.to_nat default_retries) with 3%nat in Hi.
    destruct i as [|[|[|i]]]; [..|lia];
      (split; [lia|split; vm_compute; reflexivity]).
  - intros i Hi. by eexists _, _.
Defined.


Lemma missing_key_raises_before_any_request_witness :
  let w := keyless_world always_limited in
  generate_response [] default_retries default_backoff_factor w
  = (Raise missing_key, w)
  /\ initialize_story (U "id") config_short w = (Raise missing_key, w).
Proof.
  intros w.
  apply (missing_key_raises_before_any_request
           [] default_retries default_backoff_factor w (U "id") config_short).
  reflexivity.
Defined.

(** ** What the parser returns *)

Lemma lstrip_nonspace (s : str) (c : N) (r : str) :
  lstrip s = c :: r -> isspace c = false.
Proof.
  induction s as [|a s IH]; [done|]. simpl.
  destruct (isspace a) eqn:E; [exact IH|]. by intros [= <- <-].
Qed.

Lemma lstrip_fixed (c : N) (r : str) :
  isspace c = false -> lstrip (c :: r) = c :: r.
Proof. intros E. simpl. by rewrite E. Qed.

Lemma lstrip_lstrip (s : str) : lstrip (lstrip s) = lstrip s.
Proof.
  destruct (lstrip s) as [|c r] eqn:E; [done|].
  apply lstrip_fixed. by eapply lstrip_nonspace.
Qed.

Lemma lstrip_snoc_nonspace (a : str) (c : N) :
  isspace c = false -> exists x, lstrip (a ++ [c]) = x ++ [c].
Proof.
  intros E. induction a as [|d a IH].
  - exists []. simpl. by rewrite E.
  - simpl. destruct (isspace d); [exact IH|]. by exists (d :: a).
Qed.

Lemma rstrip_keeps_lstripped (t : str) :
  lstrip t = t -> lstrip (rstrip t) = rstrip t.
Proof.
  intros Ht. destruct t as [|c r]; [done|].
  assert (isspace c = false) as E by (by eapply lstrip_nonspace).
  unfold rstrip. simpl rev.
  destruct (lstrip_snoc_nonspace (rev r) c E) as [x ->].
  rewrite rev_app_distr. simpl. by rewrite E.
Qed.

Lemma rstrip_rstrip (t : str) : rstrip (rstrip t) = rstrip t.
Proof. unfold rstrip. by rewrite rev_involutive, lstrip_lstrip. Qed.

(** Stripping twice is stripping once. *)
Lemma strip_strip (s : str) : strip (strip s) = strip s.
Proof.
  unfold strip.
  rewrite (rstrip_keeps_lstripped (lstrip s)) by apply lstrip_lstrip.
  apply rstrip_rstrip.
Qed.

Lemma search_to_end_absent (m s : str) :
  search_to_end m s = None <-> ~ contains m s.
Proof.
  unfold search_to_end. split.
  - intros H. apply absent_of_after_marker.
    by destruct (after_marker m s).
  - intros H. by rewrite after_marker_absent.
Qed.

(** X6. The choices of a reply are absent exactly when the choices marker
    does not occur in it (a marker with nothing usable after it gives an
    empty list, not an absent one), and its title is absent exactly when
    the title marker does not occur. *)
Theorem parse_absent_iff_marker_absent (response_text : str) :
  ((parse_paragraph_and_choices response_text).1.2 = None
   <-> ~ contains marker_choices response_text)
  /\ ((parse_paragraph_and_choices response_text).2 = None
      <-> ~ contains marker_title response_text).
Proof.
  unfold parse_paragraph_and_choices. cbn [fst snd].
  rewrite <- !search_to_end_absent.
  split.
  - destruct (search_to_end marker_choices response_text) as [g|]; [|done].
    destruct (numbered_choices (strip g)); split; done.
  - destruct (search_to_end marker_title response_text); split; done.
Qed.

(** The choices that a loop of the parser builds: at most one for each
    numbered item, with the number of the item as its id. *)
Lemma enumerated_ids_increase {A} (f : Z -> A -> list models.StoryChoice)
  (start : Z) (l : list A) :
  (forall i x,
      f i x = []
      \/ exists t, f i x = [ {| models.id := i; models.text := t |} ]) ->
  let cs := flat_map (fun '(i, x) => f i x) (enumerate start l) in
  (forall k c, cs !! k = Some c -> start + Z.of_nat k <= models.id c)
  /\ (forall i j ci cj,
        (i < j)%nat -> cs !! i = Some ci -> cs !! j = Some cj ->
        models.id ci < models.id cj).
Proof.
  intros Hf. revert start. induction l as [|x l IH]; intros start.
  - simpl. split; [intros k c|intros i j ci cj _]; by rewrite lookup_nil.
  - cbn [enumerate flat_map]. destruct (IH (start + 1)) as [Hk Hs].
    destruct (Hf start x) as [->|[t ->]].
    + rewrite app_nil_l. split; [|exact Hs].
      intros k c Hc. specialize (Hk k c Hc). lia.
    + cbn [app]. split.
      * intros [|k] c; simpl.
        -- intros [= <-]. simpl. lia.
        -- intros Hc. specialize (Hk k c Hc). lia.
      * intros [|i] [|j] ci cj Hij; simpl; try lia.
        -- intros [= <-] Hj. specialize (Hk j cj Hj). simpl. lia.
        -- apply Hs. lia.
Qed.

(** X7. Whatever the reply, the ids of the returned choices are strictly
    increasing along the list, so no two choices share an id, and the
    choice at position k (from 1) has an id of at least k. *)
Theorem parse_choice_ids_increase
  (response_text : str) (choices : list models.StoryChoice) :
  (parse_paragraph_and_choices response_text).1.2 = Some choices ->
  (forall k c, choices !! k = Some c -> 1 + Z.of_nat k <= models.id c)
  /\ (forall i j ci cj,
        (i < j)%nat -> choices !! i = Some ci -> choices !! j = Some cj ->
        models.id ci < models.id cj).
Proof.
  unfold parse_paragraph_and_choices. cbn [fst snd].
  destruct (search_to_end marker_choices response_text) as [g|]; [|done].
  destruct (numbered_choices (strip g)) as [|c0 cs0] eqn:E.
  - intros [= <-]. unfold line_choices.
    apply (enumerated_ids_increase
             (fun i line =>
                if i <=? 3
                then [ {| models.id := i;
                          models.text := strip (sub_numbering line) |} ]
                else [])).
    intros i x. destruct (i <=? 3); eauto.
  - intros [= <-]. rewrite <- E. unfold numbered_choices.
    apply (enumerated_ids_increase
             (fun i choice_match =>
                if truthy (strip choice_match)
                then [ {| models.id := i;
                          models.text := strip choice_match |} ]
                else [])).
    intros i x. destruct (truthy (strip x)); eauto.
Qed.

Lemma parse_choice_ids_increase_witness :
  let choices := [ {| models.id := 2; models.text := U "X" |} ] in
  (forall k c, choices !! k = Some c -> 1 + Z.of_nat k <= models.id c)
  /\ (forall i j ci cj,
        (i < j)%nat -> choices !! i = Some ci -> choices !! j = Some cj ->
        models.id ci < models.id cj).
Proof.
  apply (parse_choice_ids_increase (U "الخيارات: 1. 2. X")).
  vm_compute. reflexivity.
Defined.

Lemma line_loop_take (start : Z) (lines : list str) :
  1 <= start ->
  flat_map
    (fun '(i, line) =>
       if i <=? 3
       then [ {| models.id := i;
                 models.text := strip (sub_numbering line) |} ]
       else [])
    (enumerate start lines)
  = line_choice <$> enumerate start (take (Z.to_nat (4 - start)) lines).
Proof.
  revert start. induction lines as [|x lines IH]; intros start Hs.
  - by rewrite take_nil.
  - cbn [enumerate flat_map]. rewrite IH by lia.
    destruct (start <=? 3) eqn:E.
    + replace (Z.to_nat (4 - start)) with (S (Z.to_nat (4 - (start + 1))))
        by lia.
      reflexivity.
    + replace (Z.to_nat (4 - start)) with 0%nat by lia.
      replace (Z.to_nat (4 - (start + 1))) with 0%nat by lia.
      reflexivity.
Qed.

(** X8. The line-based extraction keeps the first three non-blank lines of
    the choices text and no more: each gives one choice, numbered from 1 in
    the order of the lines, whose text is the line without its leading
    numbering, stripped. *)
Theorem line_choices_first_three_lines (choices_text : str) :
  line_choices choices_text
  = line_choice
      <$> enumerate 1
            (take 3 (filter (fun l => truthy (strip l) = true)
                            (split nl choices_text)))
  /\ (length (line_choices choices_text) <= 3)%nat.
Proof.
  assert (line_choices choices_text
          = line_choice
              <$> enumerate 1
                    (take 3 (filter (fun l => truthy (strip l) = true)
                                    (split nl choices_text)))) as E.
  { unfold line_choices. by rewrite line_loop_take. }
  split; [exact E|]. rewrite E, length_fmap.
  generalize (filter (fun l => truthy (strip l) = true)
                     (split nl choices_text)).
  intros lines.
  assert (forall (l : list str) start,
             length (enumerate start l) = length l) as Hlen.
  { induction l as [|y l IH]; intros start; [done|]. simpl. by rewrite IH. }
  rewrite Hlen, length_take. lia.
Qed.

Lemma numbered_choices_stripped (choices_text : str) (c : models.StoryChoice) :
  c ∈ numbered_choices choices_text ->
  stripped (models.text c) /\ models.text c <> [].
Proof.
  unfold numbered_choices.
  generalize (enumerate 1 (findall_numbered choices_text)).
  intros l. induction l as [|[i x] l IH]; [by rewrite elem_of_nil|].
  cbn [flat_map]. rewrite elem_of_app. intros [H|H]; [|by apply IH].
  destruct (truthy (strip x)) eqn:E; [|by apply elem_of_nil in H].
  apply list_elem_of_singleton in H as ->. simpl. split.
  - apply strip_strip.
  - by destruct (strip x).
Qed.

Lemma line_choices_stripped (choices_text : str) (c : models.StoryChoice) :
  c ∈ line_choices choices_text -> stripped (models.text c).
Proof.
  unfold line_choices.
  generalize (enumerate 1 (filter (fun l => truthy (strip l) = true)
                                  (split nl choices_text))).
  intros l. induction l as [|[i x] l IH]; [by rewrite elem_of_nil|].
  cbn [flat_map]. rewrite elem_of_app. intros [H|H]; [|by apply IH].
  destruct (i <=? 3); [|by apply elem_of_nil in H].
  apply list_elem_of_singleton in H as ->. apply strip_strip.
Qed.

(** X9. Whatever the reply, the paragraph, the title and the text of every
    choice that the parser returns have no white space at either end:
    stripping them again changes nothing. *)
Theorem parse_returns_stripped_texts (response_text : str) :
  stripped (parse_paragraph_and_choices response_text).1.1
  /\ (forall choices c,
        (parse_paragraph_and_choices response_text).1.2 = Some choices ->
        c ∈ choices -> stripped (models.text c))
  /\ (forall title,
        (parse_paragraph_and_choices response_text).2 = Some title ->
        stripped title).
Proof.
  unfold parse_paragraph_and_choices. cbn [fst snd].
  split; [|split].
  - destruct (search_paragraph response_text); apply strip_strip.
  - intros choices c.
    destruct (search_to_end marker_choices response_text) as [g|]; [|done].
    destruct (numbered_choices (strip g)) as [|c0 cs0] eqn:E.
    + intros [= <-]. apply line_choices_stripped.
    + intros [= <-] Hc. rewrite <- E in Hc.
      by apply numbered_choices_stripped in Hc as [? _].
  - intros title.
    destruct (search_to_end marker_title response_text); [|done].
    intros [= <-]. apply strip_strip.
Qed.

Lemma search_new_title_absent (s : str) :
  ~ contains marker_new_title s -> search_new_title s = None.
Proof.
  induction s as [|c s IH]; intros Hno.
  - reflexivity.
  - cbn [search_new_title]. unfold new_title_at.
    destruct (startswith marker_new_title (c :: s)) eqn:E.
    + apply startswith_true in E as [post E].
      exfalso. apply Hno. exists [], post. rewrite app_nil_l. exact E.
    + apply IH. intros (pre & post & ->). apply Hno.
      exists (c :: pre), post. reflexivity.
Qed.

(** X10. Whatever the reply to an edit, no paragraph read from it is empty
    and every one is stripped, as is the new title when there is one; and
    when the new-title marker does not occur in the reply there is no new
    title and the paragraphs are those of the whole reply, split at blank
    lines. *)
Theorem parse_edit_paragraphs_are_not_blank (response_text : str) :
  (forall p, p ∈ (parse_edit response_text).2 -> p <> [] /\ stripped p)
  /\ (forall t, (parse_edit response_text).1 = Some t -> stripped t)
  /\ (~ contains marker_new_title response_text ->
      parse_edit response_text
      = (None,
         strip <$> filter (fun p => truthy (strip p) = true)
                          (split (nl ++ nl) response_text))).
Proof.
  assert (forall (l : list str) p,
             p ∈ map strip (filter (fun p => truthy (strip p) = true) l) ->
             p <> [] /\ stripped p) as Hps.
  { intros l p Hp. apply list_elem_of_fmap in Hp as (q & -> & Hq).
    apply list_elem_of_filter in Hq as [Hq _]. split.
    - by destruct (strip q).
    - apply strip_strip. }
  unfold parse_edit. split; [|split].
  - destruct (search_new_title response_text); cbn [fst snd]; apply Hps.
  - destruct (search_new_title response_text); cbn [fst snd]; [|done].
    intros t [= <-]. apply strip_strip.
  - intros Hno. by rewrite search_new_title_absent.
Qed.

Lemma parse_edit_paragraphs_are_not_blank_witness :
  parse_edit (U "P1" ++ nl ++ nl ++ U " " ++ nl ++ nl ++ U " P2 ")
  = (None, [U "P1"; U "P2"]).
Proof.
  rewrite (proj2 (proj2 (parse_edit_paragraphs_are_not_blank
                           (U "P1" ++ nl ++ nl ++ U " " ++ nl ++ nl
                            ++ U " P2 ")))).
  - vm_compute. reflexivity.
  - apply absent_of_after_marker. vm_compute. reflexivity.
Defined.

(** ** Sessions that are missing, and operations that fail *)

Lemma rejects_unknown_story (story_id : str) (w : World) :
  stories_context w !! story_id = None
  \/ stories_metadata w !! story_id = None ->
  (forall choice_id,
      continue_story story_id choice_id w = (Raise invalid_story, w))
  /\ (forall custom_text,
        continue_story_with_text story_id custom_text w
        = (Raise invalid_story, w))
  /\ (forall edit_instructions,
        edit_story story_id edit_instructions w = (Raise invalid_story, w)).
Proof.
  intros H. split; [|split].
  - intros choice_id. rewrite continue_story_turn.
    destruct H as [-> | ->]; [done|].
    by destruct (stories_context w !! story_id).
  - intros custom_text. rewrite continue_story_with_text_turn.
    destruct H as [-> | ->]; [done|].
    by destruct (stories_context w !! story_id).
  - intros edit_instructions. unfold edit_story. unfold bind at 1.
    unfold get.
    destruct H as [-> | ->]; [done|].
    by destruct (stories_context w !! story_id).
Qed.

(** X11. An id that is not a key of both dictionaries is rejected by
    [continue_story], [continue_story_with_text] (which first prints the id
    and the text: when both are encodable) and [edit_story] with the
    invalid-story error; so is an id without metadata by
    [generate_title_if_missing] and an id without context by
    [get_complete_story]. In each case the world is left as it was: no
    request is made and nothing is stored. *)
Theorem unknown_story_is_rejected (story_id : str) (w : World) :
  (stories_context w !! story_id = None
   \/ stories_metadata w !! story_id = None ->
   (forall choice_id,
       continue_story story_id choice_id w = (Raise invalid_story, w))
   /\ (forall custom_text,
         encodable story_id = true -> encodable custom_text = true ->
         continue_story_with_text story_id custom_text w
         = (Raise invalid_story, w))
   /\ (forall edit_instructions,
         edit_story story_id edit_instructions w = (Raise invalid_story, w)))
  /\ (stories_metadata w !! story_id = None ->
      generate_title_if_missing story_id w = (Raise invalid_story, w))
  /\ (stories_context w !! story_id = None ->
      get_complete_story story_id w = (Raise invalid_story, w)).
Proof.
  split; [|split].
  - intros H. destruct (rejects_unknown_story story_id w H) as (H1 & H2 & H3).
    split; [exact H1|]. split; [|exact H3].
    intros custom_text _ _. apply H2.
  - intros H. unfold generate_title_if_missing. unfold bind at 1.
    unfold get. by rewrite H.
  - intros H. unfold get_complete_story. unfold bind at 1.
    unfold get. by rewrite H.
Qed.

Lemma unknown_story_is_rejected_witness :
  let w := started three_replies in
  continue_story (U "other") 1 w = (Raise invalid_story, w)
  /\ continue_story_with_text (U "other") (U "more") w
     = (Raise invalid_story, w)
  /\ generate_title_if_missing (U "other") w = (Raise invalid_story, w)
  /\ get_complete_story (U "other") w = (Raise invalid_story, w).
Proof.
  intros w.
  destruct (unknown_story_is_rejected (U "other") w) as (H1 & H2 & H3).
  assert (stories_context w !! U "other" = None) as Hc
    by (vm_compute; reflexivity).
  destruct (H1 (or_introl Hc)) as (Hchoice & Htext & _).
  split; [|split; [|split]].
  - apply Hchoice.
  - apply Htext; reflexivity.
  - apply H2. vm_compute. reflexivity.
  - apply H3. exact Hc.
Defined.

Lemma get_complete_story_reads story_id w r w' :
  get_complete_story story_id w = (r, w') -> w' = w.
Proof.
  unfold get_complete_story. unfold bind at 1. unfold get.
  destruct (stories_context w !! story_id); [|by intros [= _ <-]].
  cbv [bind read_strs get_title ret].
  destruct (truthy_opt _); by intros [= _ <-].
Qed.

(** X12. When [initialize_story], [edit_story] or
    [generate_title_if_missing] raises, the two dictionaries and every
    stored list are what they were before the call: a failed
    initialization leaves no session, a failed edit keeps the paragraphs
    and the title, a failed title call stores no title. And
    [get_complete_story] never changes the world. *)
Theorem failed_operations_store_nothing (w w' : World) (e : exn) :
  (forall uuid4 config,
      initialize_story uuid4 config w = (Raise e, w') -> net_only w w')
  /\ (forall story_id edit_instructions,
        edit_story story_id edit_instructions w = (Raise e, w') ->
        net_only w w')
  /\ (forall story_id,
        generate_title_if_missing story_id w = (Raise e, w') ->
        net_only w w')
  /\ (forall story_id r,
        get_complete_story story_id w = (r, w') -> w' = w).
Proof.
  split; [|split; [|split]].
  - intros uuid4 config. apply initialize_story_raise.
  - intros story_id edit_instructions. apply edit_story_raise.
  - intros story_id H.
    apply generate_title_cases in H as [H|(m & t & _ & _ & [=] & _)].
    exact H.
  - intros story_id r. apply get_complete_story_reads.
Qed.

Lemma failed_operations_store_nothing_witness :
  let w := started story_then_down in
  let w' := (edit_story (U "id") (U "shorter") w).2 in
  net_only w w'.
Proof.
  intros w w'.
  eapply (proj1 (proj2 (failed_operations_store_nothing w w' _))
            (U "id") (U "shorter")).
  vm_compute. reflexivity.
Defined.

(** X13. An initialization that returns stores one session under the new
    id: its index is 1, its only paragraph is the content of the paragraph
    returned, its target is 3, 5 or 7 with the length of the configuration,
    it has no title, and its messages are the system prompt, the
    initialization prompt and the reply of the model, from which the
    returned paragraph and choices were read. The response carries the new
    id and is not complete; the sessions under other ids are untouched. *)
Theorem initialize_story_stores_one_paragraph
  (uuid4 : str) (config : models.StoryConfig) (w w1 : World)
  (r : models.StoryResponse) :
  initialize_story uuid4 config w = (Ok r, w1) ->
  models.story_id r = uuid4
  /\ models.is_complete r = false
  /\ models.title r = None
  /\ (exists c m reply,
        stories_context w1 !! uuid4 = Some c
        /\ stories_metadata w1 !! uuid4 = Some m
        /\ current_paragraph c = 1
        /\ str_lists w1 !!! paragraphs c
           = [models.content (models.paragraph r)]
        /\ max_paragraphs m
           = match models.length config with
             | models.SHORT => 3
             | models.MEDIUM => 5
             | models.LONG => 7
             end
        /\ ai_service.config m = config
        /\ title m = None
        /\ msg_lists w1 !!! messages m
           = init_messages config ++ [message (U "assistant") reply]
        /\ models.content (models.paragraph r)
           = (parse_paragraph_and_choices reply).1.1
        /\ models.choices (models.paragraph r)
           = (parse_paragraph_and_choices reply).1.2)
  /\ (forall other, other <> uuid4 ->
        stories_context w1 !! other = stories_context w !! other
        /\ stories_metadata w1 !! other = stories_metadata w !! other).
Proof.
  intros Hrun.
  apply initialize_story_ok in Hrun
    as (reply & w2 & _ & Hc & Hm & Hs & Hl & _ & _ & ->).
  cbn [models.story_id models.is_complete models.title models.paragraph
       models.content models.choices].
  split; [done|]. split; [done|]. split; [done|]. split.
  - eexists _, _, reply. rewrite Hc, Hm, Hs, Hl, !lookup_insert_eq.
    split; [reflexivity|]. split; [reflexivity|].
    cbn [paragraphs current_paragraph max_paragraphs ai_service.config title
         messages].
    rewrite !lookup_total_insert_eq.
    repeat split; try done.
    by destruct (models.length config).
  - intros other Hne. rewrite Hc, Hm.
    by rewrite !lookup_insert_ne.
Qed.

Lemma initialize_story_stores_one_paragraph_witness :
  let w := fresh_world three_replies in
  let r := response (U "A") (Some choices_xyz) false None in
  models.story_id r = U "id"
  /\ models.is_complete r = false.
Proof.
  intros w r.
  destruct (initialize_story_stores_one_paragraph
              (U "id") config_short w (started three_replies) r)
    as (H1 & H2 & _); [vm_compute; reflexivity|].
  by split.
Defined.

(** ** Advancing, reading and titling *)

Lemma advance_all_schedule story_id l :
  forall w c m rs w',
    stories_context w !! story_id = Some c ->
    stories_metadata w !! story_id = Some m ->
    advance_all story_id l w = Some (rs, w') ->
    index_of w' story_id = Some (current_paragraph c + len l)
    /\ length rs = length l
    /\ (forall k r,
          rs !! k = Some r ->
          models.is_complete r
          = (current_paragraph c + Z.of_nat k >=? max_paragraphs m - 1)
          /\ (models.is_complete r = true ->
              models.choices (models.paragraph r) = None)).
Proof.
  induction l as [|a l IH]; intros w c m rs w' Hc Hm Hrun.
  - injection Hrun as <- <-. unfold index_of, len. rewrite Hc. simpl.
    split; [f_equal; lia|]. split; [done|]. intros k r. by rewrite lookup_nil.
  - cbn [advance_all] in Hrun.
    destruct (advance story_id a w) as [[r|e] w1] eqn:Ha; [|done].
    destruct (advance_all story_id l w1) as [[rs1 w2]|] eqn:Hl; [|done].
    injection Hrun as <- <-.
    apply advance_ok in Ha as (c0 & m0 & p & Hc0 & Hm0 & Hturn).
    rewrite Hc in Hc0. injection Hc0 as <-.
    rewrite Hm in Hm0. injection Hm0 as <-.
    apply (turn_ok _ _ _ _ _ _ _ Hc Hm) in Hturn
      as (t & w0 & _ & _ & _ & Hc1 & Hm1 & _ & _ & _ & _ & ->).
    edestruct (IH w1) as (Hi & Hn & Hk);
      [by rewrite Hc1, lookup_insert_eq|by rewrite Hm1, lookup_insert_eq
      |exact Hl|].
    cbn [current_paragraph max_paragraphs] in Hi, Hk.
    split; [|split].
    + rewrite Hi. unfold len. simpl length. f_equal. lia.
    + simpl. by rewrite Hn.
    + intros [|k] r; simpl.
      * intros [= <-]. cbn [models.is_complete models.paragraph models.choices].
        rewrite Z.add_0_r. split; [done|]. by intros ->.
      * intros Hr. destruct (Hk k r Hr) as [H1 H2]. split; [|exact H2].
        rewrite H1. f_equal. lia.
Qed.

(** X14. A story initialized with target T (3, 5 or 7) and then advanced
    any number of times, by choice or by text, each advance returning: the
    index is 1 plus the number of advances, and the advance number k (from
    1) returns complete exactly when k >= T - 1, in which case it carries no
    choices. So completion comes with advance T - 1, every later advance is
    complete as well, and nothing stops the index from passing T. *)
Theorem completion_follows_the_target
  (uuid4 : str) (config : models.StoryConfig) (l : list Advance)
  (w0 w1 w : World) (r0 : models.StoryResponse)
  (rs : list models.StoryResponse) :
  initialize_story uuid4 config w0 = (Ok r0, w1) ->
  advance_all uuid4 l w1 = Some (rs, w) ->
  index_of w uuid4 = Some (1 + len l)
  /\ length rs = length l
  /\ (forall k r,
        rs !! k = Some r ->
        models.is_complete r
        = (1 + Z.of_nat k >=? target (models.length config) - 1)
        /\ (models.is_complete r = true ->
            models.choices (models.paragraph r) = None)).
Proof.
  intros Hinit Hall.
  apply initialize_story_ok in Hinit
    as (reply & w2 & _ & Hc & Hm & _).
  apply (advance_all_schedule uuid4 l w1
           {| paragraphs := fresh (dom (str_lists w0));
              current_paragraph := 1 |}
           {| ai_service.config := config;
              max_paragraphs := target (models.length config);
              messages := fresh (dom (msg_lists w0));
              title := None |} rs w);
    [by rewrite Hc, lookup_insert_eq|by rewrite Hm, lookup_insert_eq|done].
Qed.

Lemma completion_follows_the_target_witness :
  let w0 := fresh_world three_replies in
  let l := [ByChoice 1; ByText (U "go on"); ByText (U "and then")] in
  exists rs w,
    advance_all (U "id") l (started three_replies) = Some (rs, w)
    /\ index_of w (U "id") = Some (1 + len l)
    /\ length rs = length l.
Proof.
  intros w0 l.
  destruct (advance_all (U "id") l (started three_replies))
    as [[rs w]|] eqn:E; [|vm_compute in E; discriminate E].
  exists rs, w. split; [reflexivity|].
  destruct (completion_follows_the_target
              (U "id") config_short l w0 (started three_replies) w
              (response (U "A") (Some choices_xyz) false None) rs)
    as (H1 & H2 & _); [vm_compute; reflexivity|exact E|].
  by split.
Defined.

Lemma join_cons_nonempty (sep x : str) (y : str) (l : list str) :
  join sep (x :: y :: l) = x ++ sep ++ join sep (y :: l).
Proof. reflexivity. Qed.

Lemma join_middle (sep : str) (before : list str) (p : str)
  (after : list str) :
  join sep (before ++ p :: after)
  = (join sep before ++ match before with [] => [] | _ :: _ => sep end)
    ++ p
    ++ (match after with [] => [] | _ :: _ => sep end ++ join sep after).
Proof.
  induction before as [|x before IH].
  - destruct after as [|y after]; simpl; [by rewrite app_nil_r|done].
  - destruct before as [|x' before].
    + change ([x] ++ p :: after) with (x :: p :: after).
      change ([] ++ p :: after) with (p :: after) in IH.
      rewrite join_cons_nonempty, IH. simpl.
      by rewrite <- !app_assoc.
    + change ((x :: x' :: before) ++ p :: after)
        with (x :: x' :: (before ++ p :: after)).
      rewrite join_cons_nonempty.
      change (x' :: before ++ p :: after) with ((x' :: before) ++ p :: after).
      rewrite IH, join_cons_nonempty. by rewrite <- !app_assoc.
Qed.

Lemma contains_join (sep : str) (l : list str) (q : str) :
  q ∈ l -> contains q (join sep l).
Proof.
  intros Hq. apply list_elem_of_split in Hq as (before & after & ->).
  rewrite join_middle. unfold contains. eauto.
Qed.

Lemma contains_app_l (q a b : str) : contains q a -> contains q (a ++ b).
Proof.
  intros (pre & post & ->). exists pre, (post ++ b).
  by rewrite <- !app_assoc.
Qed.

Lemma contains_app_r (q a b : str) : contains q b -> contains q (a ++ b).
Proof.
  intros (pre & post & ->). exists (a ++ pre), post.
  by rewrite <- !app_assoc.
Qed.

Lemma get_complete_story_text story_id w c :
  stories_context w !! story_id = Some c ->
  get_complete_story story_id w
  = (Ok (full_text (stories_metadata w !! story_id ≫= title)
           (str_lists w !!! paragraphs c)), w).
Proof.
  intros Hc. unfold get_complete_story. unfold bind at 1. unfold get.
  rewrite Hc. cbv [bind read_strs get_title ret].
  unfold full_text, announcement.
  destruct (truthy_opt _); [|reflexivity].
  by rewrite <- !app_assoc.
Qed.

(** X15. For a stored session [get_complete_story] returns, without
    changing anything, the stored paragraphs joined by blank lines, after
    the announcement of the title when a non-empty title is stored. Every
    stored paragraph occurs in this text, and in the stored order: what
    comes before it holds the earlier paragraphs, what comes after it the
    later ones. *)
Theorem get_complete_story_holds_every_paragraph
  (story_id : str) (w : World) (c : Context) :
  stories_context w !! story_id = Some c ->
  exists text,
    get_complete_story story_id w = (Ok text, w)
    /\ text = full_text (stories_metadata w !! story_id ≫= title)
                (str_lists w !!! paragraphs c)
    /\ forall before p after,
         str_lists w !!! paragraphs c = before ++ p :: after ->
         exists pre post,
           text = pre ++ p ++ post
           /\ (forall q, q ∈ before -> contains q pre)
           /\ (forall q, q ∈ after -> contains q post).
Proof.
  intros Hc. eexists. split; [by apply get_complete_story_text|].
  split; [reflexivity|].
  intros before p after ->. unfold full_text.
  generalize (announcement (stories_metadata w !! story_id ≫= title)).
  intros h. rewrite join_middle.
  exists (h ++ join (nl ++ nl) before
            ++ match before with [] => [] | _ :: _ => nl ++ nl end),
         (match after with [] => [] | _ :: _ => nl ++ nl end
          ++ join (nl ++ nl) after).
  split; [by rewrite <- !app_assoc|]. split.
  - intros q Hq. apply contains_app_r, contains_app_l.
    by apply contains_join.
  - intros q Hq. apply contains_app_r. by apply contains_join.
Qed.

Lemma get_complete_story_holds_every_paragraph_witness :
  let w := (advance (U "id") (ByChoice 1) (started three_replies)).2 in
  exists text,
    get_complete_story (U "id") w = (Ok text, w)
    /\ text = U "A" ++ nl ++ nl ++ U "A".
Proof.
  intros w.
  destruct (get_complete_story_holds_every_paragraph (U "id") w
              {| paragraphs := 1%positive; current_paragraph := 2 |})
    as (text & Hrun & -> & _); [vm_compute; reflexivity|].
  eexists. split; [exact Hrun|]. vm_compute. reflexivity.
Defined.

(** X16. An advance that returns appends exactly one paragraph, the
    content of the paragraph it returns, to the stored list and adds one to
    the index; it appends two messages, the user prompt of the turn and the
    reply of the model; it keeps the configuration and the target; it
    reports complete exactly when the index before the advance was at least
    the target minus 1; it changes the stored title only when complete; and
    it leaves the sessions under other ids as they were. *)
Theorem advance_appends_one_paragraph
  (story_id : str) (a : Advance) (w w' : World) (r : models.StoryResponse) :
  advance story_id a w = (Ok r, w') ->
  exists c m prompt reply,
    stories_context w !! story_id = Some c
    /\ stories_metadata w !! story_id = Some m
    /\ stories_context w' !! story_id
       = Some {| paragraphs := paragraphs c;
                 current_paragraph := current_paragraph c + 1 |}
    /\ str_lists w' !!! paragraphs c
       = str_lists w !!! paragraphs c
         ++ [models.content (models.paragraph r)]
    /\ msg_lists w' !!! messages m
       = msg_lists w !!! messages m
         ++ [message (U "user") prompt; message (U "assistant") reply]
    /\ models.content (models.paragraph r)
       = (parse_paragraph_and_choices reply).1.1
    /\ models.is_complete r
       = (current_paragraph c >=? max_paragraphs m - 1)
    /\ (exists t, stories_metadata w' !! story_id = Some (with_title m t)
                  /\ (models.is_complete r = false -> t = title m)
                  /\ models.title r
                     = if models.is_complete r then t else None)
    /\ (forall other, other <> story_id ->
          stories_context w' !! other = stories_context w !! other
          /\ stories_metadata w' !! other = stories_metadata w !! other).
Proof.
  intros Hrun.
  apply advance_ok in Hrun as (c & m & prompt & Hc & Hm & Hturn).
  apply (turn_ok _ _ _ _ _ _ _ Hc Hm) in Hturn
    as (reply & w2 & _ & _ & _ & Hc' & Hm' & Hs' & Hl' & _ & _ & ->).
  exists c, m, prompt, reply.
  cbn [models.paragraph models.content models.is_complete models.title].
  rewrite Hc', Hm', Hs', Hl', !lookup_insert_eq, !lookup_total_insert_eq.
  repeat (split; [done|]). split.
  - eexists. split; [reflexivity|]. split; [|done].
    by intros ->.
  - intros other Hne. by rewrite !lookup_insert_ne.
Qed.

Lemma advance_appends_one_paragraph_witness :
  let w := started three_replies in
  let w' := (advance (U "id") (ByText (U "go on")) w).2 in
  exists c m prompt reply,
    stories_context w !! U "id" = Some c
    /\ stories_metadata w !! U "id" = Some m
    /\ stories_context w' !! U "id"
       = Some {| paragraphs := paragraphs c;
                 current_paragraph := current_paragraph c + 1 |}
    /\ str_lists w' !!! paragraphs c
       = str_lists w !!! paragraphs c ++ [U "A"]
    /\ msg_lists w' !!! messages m
       = msg_lists w !!! messages m
         ++ [message (U "user") prompt; message (U "assistant") reply].
Proof.
  intros w w'.
  destruct (advance_appends_one_paragraph (U "id") (ByText (U "go on")) w w'
              (response (U "A") (Some choices_xyz) false None))
    as (c & m & prompt & reply & H1 & H2 & H3 & H4 & H5 & _);
    [vm_compute; reflexivity|].
  by exists c, m, prompt, reply.
Defined.

Lemma stored_title_returned story_id w m t :
  stories_metadata w !! story_id = Some m ->
  title m = Some t -> t <> [] ->
  generate_title_if_missing story_id w = (Ok t, w).
Proof.
  intros Hm Ht Hne.
  rewrite (generate_title_stored _ _ _ Hm); [by rewrite Ht|].
  rewrite Ht. by destruct t.
Qed.

(** X17. A non-empty title that an advance or an edit returns is stored:
    [generate_title_if_missing], called next, returns this very title and
    leaves the world as it is, without a request. *)
Theorem returned_title_is_the_stored_title
  (story_id : str) (w w' : World) (t : str) :
  t <> [] ->
  (forall a r,
      advance story_id a w = (Ok r, w') -> models.title r = Some t ->
      generate_title_if_missing story_id w' = (Ok t, w'))
  /\ (forall edit_instructions ps,
        edit_story story_id edit_instructions w = (Ok (ps, Some t), w') ->
        generate_title_if_missing story_id w' = (Ok t, w')).
Proof.
  intros Hne. split.
  - intros a r Hrun Ht.
    apply advance_ok in Hrun as (c & m & prompt & Hc & Hm & Hturn).
    apply (turn_ok _ _ _ _ _ _ _ Hc Hm) in Hturn
      as (reply & w2 & _ & _ & _ & _ & Hm' & _ & _ & _ & _ & ->).
    cbn [models.title] in Ht.
    destruct (current_paragraph c >=? max_paragraphs m - 1);
      [|discriminate Ht].
    eapply stored_title_returned;
      [by rewrite Hm', lookup_insert_eq|exact Ht|exact Hne].
  - intros edit_instructions ps Hrun.
    apply edit_story_ok in Hrun
      as (c & m & reply & w2 & _ & _ & _ & _ & _ & Hm' & _ & _ & _ & _ & _
          & [= _ Ht]).
    eapply stored_title_returned;
      [by rewrite Hm', lookup_insert_eq|symmetry; exact Ht|exact Hne].
Qed.

Lemma returned_title_is_the_stored_title_witness :
  let w := (advance (U "id") (ByChoice 1) (started three_replies)).2 in
  let w' := (advance (U "id") (ByChoice 3) w).2 in
  generate_title_if_missing (U "id") w' = (Ok (U "T"), w').
Proof.
  intros w w'.
  apply (proj1 (returned_title_is_the_stored_title (U "id") w w' (U "T")
                  ltac:(discriminate))
           (ByChoice 3) (response (U "C") None true (Some (U "T"))));
    vm_compute; reflexivity.
Defined.

(** X18. [continue_story_with_text] has no guard on the index: on a stored
    session and for an id and a text that it can print (encodable ones),
    it returns whenever there is a key and the endpoint answers the next
    request with content, whatever the index and the target, also when
    the story is already complete; the index grows by one each time. *)
Theorem continue_story_with_text_has_no_end
  (story_id custom_text : str) (w : World) (c : Context) (m : Metadata)
  (content : str) :
  encodable story_id = true -> encodable custom_text = true ->
  stories_context w !! story_id = Some c ->
  stories_metadata w !! story_id = Some m ->
  answers w content ->
  exists r w',
    continue_story_with_text story_id custom_text w = (Ok r, w')
    /\ index_of w' story_id = Some (current_paragraph c + 1)
    /\ models.content (models.paragraph r)
       = (parse_paragraph_and_choices content).1.1
    /\ length (posts w') = S (length (posts w)).
Proof.
  intros _ _ Hc Hm Ha.
  destruct (continue_story_with_text_returns story_id custom_text w content)
    as (r & w' & Hrun & Hp); [by rewrite Hc|by rewrite Hm|exact Ha|].
  exists r, w'. split; [exact Hrun|].
  rewrite continue_story_with_text_turn, Hc, Hm in Hrun.
  pose proof Hrun as Hturn.
  apply (turn_ok _ _ _ _ _ _ _ Hc Hm) in Hturn
    as (reply & w2 & Hcall & _ & _ & Hc' & _ & _ & _ & _ & _ & ->).
  unfold turn_call in Hcall.
  rewrite (generate_response_first_reply _ _ _ content) in Hcall.
  - injection Hcall as <- _. unfold index_of. rewrite Hc', lookup_insert_eq.
    by repeat split.
  - destruct Ha as [Hk He]. split; [exact Hk|exact He].
Qed.

Lemma continue_story_with_text_has_no_end_witness :
  let w := (advance (U "id") (ByChoice 3)
              (advance (U "id") (ByChoice 1) (started three_replies)).2).2 in
  exists r w',
    continue_story_with_text (U "id") (U "more") w = (Ok r, w')
    /\ index_of w' (U "id") = Some (3 + 1).
Proof.
  intros w.
  destruct (continue_story_with_text_has_no_end (U "id") (U "more") w
              {| paragraphs := 1%positive; current_paragraph := 3 |}
              (with_title stored_metadata (Some (U "T"))) reply_with_title)
    as (r & w' & H1 & H2 & _).
  - reflexivity.
  - reflexivity.
  - vm_compute. reflexivity.
  - vm_compute. reflexivity.
  - split; [vm_compute; reflexivity|]. exists []. vm_compute. reflexivity.
  - by exists r, w'.
Defined.

(** X19. After an edit that returns, the full text of the story is built
    from the edited paragraphs and the resulting title alone:
    [get_complete_story] returns the paragraphs the edit returned, joined
    by blank lines, under the announcement of the title it returned when
    this title is not empty. *)
Theorem edited_story_is_the_full_text
  (story_id edit_instructions : str) (w w' : World)
  (ps : list str) (t : option str) :
  edit_story story_id edit_instructions w = (Ok (ps, t), w') ->
  get_complete_story story_id w' = (Ok (full_text t ps), w').
Proof.
  intros Hrun.
  apply edit_story_ok in Hrun
    as (c & m & reply & w2 & _ & _ & _ & Hc' & Hs' & Hm' & _ & _ & _ & _ & _
        & [= -> ->]).
  erewrite get_complete_story_text by (by rewrite Hc', lookup_insert_eq).
  rewrite Hm', Hs', lookup_insert_eq. cbn [paragraphs mbind option_bind title].
  by rewrite lookup_total_insert_eq.
Qed.

Lemma edited_story_is_the_full_text_witness :
  let w := started story_then_edit in
  let w' := (edit_story (U "id") (U "shorter") w).2 in
  get_complete_story (U "id") w'
  = (Ok (full_text (Some (U "T2")) [U "P1"; U "P2"]), w').
Proof.
  intros w w'.
  apply (edited_story_is_the_full_text (U "id") (U "shorter") w w').
  vm_compute. reflexivity.
Defined.
(** ** The routes *)

Lemma continue_story_raise story_id choice_id w e w' :
  continue_story story_id choice_id w = (Raise e, w') ->
  (e = invalid_story /\ w' = w)
  \/ (e = invalid_choice /\ w' = w)
  \/ ((exists m, e = IndexError m) /\ w' = w)
  \/ ((exists m, e = Exception m)
      /\ stories_context w' = stories_context w
      /\ str_lists w' = str_lists w).
Proof.
  rewrite continue_story_turn.
  destruct (stories_context w !! story_id) as [c|];
    [|intros [= <- <-]; by left].
  destruct (stories_metadata w !! story_id) as [m|];
    [|intros [= <- <-]; by left].
  destruct (last _) as [l|];
    [|intros [= <- <-]; right; right; left; eauto].
  destruct (_ || _); [intros [= <- <-]; right; by left|].
  intros H. apply turn_raise in H as [(H1 & _ & H3 & _) He].
  right. right. right. by repeat split.
Qed.

Lemma continue_story_with_text_raise story_id custom_text w e w' :
  continue_story_with_text story_id custom_text w = (Raise e, w') ->
  (e = invalid_story /\ w' = w)
  \/ ((exists m, e = Exception m)
      /\ stories_context w' = stories_context w
      /\ str_lists w' = str_lists w).
Proof.
  rewrite continue_story_with_text_turn.
  destruct (stories_context w !! story_id) as [c|];
    [|intros [= <- <-]; by left].
  destruct (stories_metadata w !! story_id) as [m|];
    [|intros [= <- <-]; by left].
  intros H. apply turn_raise in H as [(H1 & _ & H3 & _) He].
  right. by repeat split.
Qed.

(** X20. For a request whose printed strings are encodable, the continue
    route fails with status 400 or 500 and no other. A 400 is a request
    without choice and without text, an unknown story or an invalid
    choice, its detail is the message of that error, and the world is left
    exactly as it was; a 500 leaves the stored sessions and their
    paragraph lists as they were. *)
Theorem continue_route_fails_with_400_or_500
  (request : models.ChoiceRequest.t) (w w' : World)
  (err : story.HTTPException) :
  printable_request request = true ->
  story.continue_story_route request w = (inl err, w') ->
  (story.status_code err = 400
   /\ w' = w
   /\ (story.detail err = nothing_chosen
       \/ story.detail err = exn_str invalid_story
       \/ story.detail err = exn_str invalid_choice))
  \/ (story.status_code err = 500
      /\ stories_context w' = stories_context w
      /\ str_lists w' = str_lists w).
Proof.
  intros _. unfold story.continue_story_route.
  destruct (models.ChoiceRequest.choice_id request) as [choice_id|].
  - destruct (continue_story _ choice_id w) as [[r|e] w1] eqn:Hrun;
      [intros [=]|].
    apply continue_story_raise in Hrun
      as [[-> ->]|[[-> ->]|[[[m ->] ->]|[[m ->] [Hc Hs]]]]].
    + unfold invalid_story. intros [= <- <-]. left.
      split; [reflexivity|]. split; [reflexivity|].
      right. left. cbv [story.detail exn_str]. reflexivity.
    + unfold invalid_choice. intros [= <- <-]. left.
      split; [reflexivity|]. split; [reflexivity|].
      right. right. cbv [story.detail exn_str]. reflexivity.
    + intros [= <- <-]. right.
      split; [reflexivity|]. split; reflexivity.
    + intros [= <- <-]. right.
      split; [reflexivity|]. split; assumption.
  - destruct (models.ChoiceRequest.custom_text request) as [custom_text|].
    + destruct (continue_story_with_text _ custom_text w)
        as [[r|e] w1] eqn:Hrun; [intros [=]|].
      apply continue_story_with_text_raise in Hrun
        as [[-> ->]|[[m ->] [Hc Hs]]].
      * unfold invalid_story. intros [= <- <-]. left.
        split; [reflexivity|]. split; [reflexivity|].
        right. left. cbv [story.detail exn_str]. reflexivity.
      * intros [= <- <-]. right.
        split; [reflexivity|]. split; assumption.
    + unfold raise. intros [= <- <-]. left.
      split; [reflexivity|]. split; [reflexivity|].
      left. cbv [story.detail nothing_chosen]. reflexivity.
Qed.

Lemma continue_route_fails_with_400_or_500_witness :
  let w := started three_replies in
  let err := {| story.status_code := 400;
                story.detail := exn_str invalid_choice |} in
  (story.status_code err = 400
   /\ w = w
   /\ (story.detail err = nothing_chosen
       \/ story.detail err = exn_str invalid_story
       \/ story.detail err = exn_str invalid_choice))
  \/ (story.status_code err = 500
      /\ stories_context w = stories_context w
      /\ str_lists w = str_lists w).
Proof.
  intros w err.
  apply (continue_route_fails_with_400_or_500
           (request_choice (U "id") 7) w w err).
  - reflexivity.
  - vm_compute. reflexivity.
Defined.

(** X21. An id that is not a key of both dictionaries is answered with the
    invalid-story message and the world is left as it was: with status 400
    by the continue route, for a request with a choice or a text whose
    printed strings are encodable, and with status 404 by the edit route.
    The story route answers so, with status 404, to an id without
    context. *)
Theorem unknown_story_status_codes (story_id : str) (w : World) :
  (stories_context w !! story_id = None
   \/ stories_metadata w !! story_id = None ->
   (forall request,
       models.ChoiceRequest.story_id request = story_id ->
       is_Some (models.ChoiceRequest.choice_id request)
       \/ is_Some (models.ChoiceRequest.custom_text request) ->
       printable_request request = true ->
       story.continue_story_route request w
       = (inl {| story.status_code := 400;
                 story.detail := exn_str invalid_story |}, w))
   /\ (forall edit_instructions,
         story.edit_story_endpoint
           (request_edit story_id edit_instructions) w
         = (inl {| story.status_code := 404;
                   story.detail := exn_str invalid_story |}, w)))
  /\ (stories_context w !! story_id = None ->
      story.get_story story_id w
      = (inl {| story.status_code := 404;
                story.detail := exn_str invalid_story |}, w)).
Proof.
  split.
  - intros Hu.
    destruct (rejects_unknown_story story_id w Hu) as (H1 & H2 & H3).
    split.
    + intros [id choice_id custom_text] Hid Hsome _.
      cbn [models.ChoiceRequest.story_id] in Hid. subst id.
      cbn [models.ChoiceRequest.choice_id models.ChoiceRequest.custom_text]
        in Hsome.
      unfold story.continue_story_route.
      cbn [models.ChoiceRequest.choice_id models.ChoiceRequest.custom_text
           models.ChoiceRequest.story_id].
      destruct choice_id as [choice_id|].
      { rewrite H1. cbv beta iota delta [invalid_story exn_str].
        reflexivity. }
      destruct custom_text as [custom_text|].
      { rewrite H2. cbv beta iota delta [invalid_story exn_str].
        reflexivity. }
      destruct Hsome as [[? [=]]|[? [=]]].
    + intros edit_instructions. unfold story.edit_story_endpoint.
      cbn [models.EditRequest.story_id models.EditRequest.edit_instructions
           request_edit].
      rewrite H3. cbv beta iota delta [invalid_story exn_str]. reflexivity.
  - intros Hc. unfold story.get_story.
    assert (get_complete_story story_id w = (Raise invalid_story, w)) as ->.
    { unfold get_complete_story. unfold bind at 1. unfold get.
      rewrite Hc. reflexivity. }
    cbv beta iota delta [invalid_story exn_str]. reflexivity.
Qed.

Lemma unknown_story_status_codes_witness :
  let w := started three_replies in
  story.continue_story_route
    {| models.ChoiceRequest.story_id := U "other";
       models.ChoiceRequest.choice_id := None;
       models.ChoiceRequest.custom_text := Some (U "more") |} w
  = (inl {| story.status_code := 400;
            story.detail := exn_str invalid_story |}, w)
  /\ story.get_story (U "other") w
     = (inl {| story.status_code := 404;
               story.detail := exn_str invalid_story |}, w).
Proof.
  intros w.
  assert (stories_context w !! U "other" = None) as Hc
    by (vm_compute; reflexivity).
  destruct (unknown_story_status_codes (U "other") w) as [H1 H2].
  split.
  - apply (proj1 (H1 (or_introl Hc))).
    + reflexivity.
    + right. by eexists.
    + reflexivity.
  - apply H2. exact Hc.
Defined.

(** X22. The create route never answers with a client error: when the
    initialization fails, whatever the failure, the status is 500, the
    detail is the fixed sentence followed by the message of the failure,
    and no session is stored. *)
Theorem create_route_fails_with_500
  (uuid4 : str) (config : models.StoryConfig) (w w' : World)
  (err : story.HTTPException) :
  story.create_story uuid4 config w = (inl err, w') ->
  story.status_code err = 500
  /\ (exists e,
        initialize_story uuid4 config w = (Raise e, w')
        /\ story.detail err = U "حدث خطأ أثناء إنشاء القصة: " ++ exn_str e)
  /\ net_only w w'.
Proof.
  unfold story.create_story.
  destruct (initialize_story uuid4 config w) as [[r|e] w1] eqn:Hrun;
    intros [= <- <-].
  split; [reflexivity|]. split.
  - exists e. split; reflexivity.
  - by eapply initialize_story_raise.
Qed.

Lemma create_route_fails_with_500_witness :
  let w := fresh_world always_limited in
  let w' := (story.create_story (U "id") config_short w).2 in
  net_only w w'.
Proof.
  intros w w'.
  eapply (create_route_fails_with_500 (U "id") config_short w w').
  vm_compute. reflexivity.
Defined.

(** X23. The story route only reads: whatever it answers, the world is
    left as it was; and it fails in one way only, with status 404 for an id
    that has no context. *)
Theorem story_route_only_reads
  (story_id : str) (w w' : World) (answer : story.HTTPException + str) :
  story.get_story story_id w = (answer, w') ->
  w' = w
  /\ (forall err, answer = inl err ->
        story.status_code err = 404
        /\ stories_context w !! story_id = None).
Proof.
  unfold story.get_story.
  destruct (stories_context w !! story_id) as [c|] eqn:Hc.
  - rewrite (get_complete_story_text _ _ _ Hc). intros [= <- <-].
    split; [reflexivity|]. intros err [=].
  - assert (get_complete_story story_id w = (Raise invalid_story, w)) as ->.
    { unfold get_complete_story. unfold bind at 1. unfold get.
      rewrite Hc. reflexivity. }
    unfold invalid_story. intros [= <- <-]. split; [reflexivity|].
    intros err [= <-]. split; reflexivity.
Qed.

Lemma story_route_only_reads_witness :
  let w := started three_replies in
  (story.get_story (U "id") w).2 = w.
Proof.
  intros w.
  apply (story_route_only_reads (U "id") w _
           (story.get_story (U "id") w).1).
  by destruct (story.get_story (U "id") w).
Defined.

(** X24. The edit route, when it succeeds, answers with [success] true and
    with paragraphs none of which is empty and all of which are stripped;
    they are the paragraphs now stored for the story. *)
Theorem edit_route_returns_stored_paragraphs
  (request : models.EditRequest.t) (w w' : World)
  (response : models.EditResponse.t) :
  story.edit_story_endpoint request w = (inr response, w') ->
  models.EditResponse.success response = true
  /\ (forall p, p ∈ models.EditResponse.paragraphs response ->
        p <> [] /\ stripped p)
  /\ exists c,
       stories_context w' !! models.EditRequest.story_id request = Some c
       /\ str_lists w' !!! paragraphs c
          = models.EditResponse.paragraphs response.
Proof.
  unfold story.edit_story_endpoint.
  destruct (edit_story _ _ w) as [[r|e] w1] eqn:Hrun;
    [|destruct e; intros [=]].
  intros [= <- <-].
  cbn [models.EditResponse.success models.EditResponse.paragraphs].
  apply edit_story_ok in Hrun
    as (c & m & reply & w2 & _ & _ & _ & Hc' & Hs' & _ & _ & _ & _ & _ & _
        & ->).
  cbn [fst]. split; [done|]. split.
  - intros p Hp. unfold parse_edit in Hp.
    assert (forall (l : list str),
               p ∈ map strip (filter (fun p => truthy (strip p) = true) l) ->
               p <> [] /\ stripped p) as Hps.
    { intros l Hl. apply list_elem_of_fmap in Hl as (q & -> & Hq).
      apply list_elem_of_filter in Hq as [Hq _]. split.
      - by destruct (strip q).
      - apply strip_strip. }
    destruct (search_new_title reply); cbn [snd] in Hp; by eapply Hps.
  - eexists. rewrite Hc', Hs', lookup_insert_eq. split; [reflexivity|].
    cbn [paragraphs]. by rewrite lookup_total_insert_eq.
Qed.

Lemma edit_route_returns_stored_paragraphs_witness :
  let w := started story_then_edit in
  let answer := story.edit_story_endpoint (request_edit (U "id") (U "shorter")) w in
  answer.1 = inr {| models.EditResponse.success := true;
                    models.EditResponse.paragraphs := [U "P1"; U "P2"];
                    models.EditResponse.title := Some (U "T2") |}
  /\ forall p, p ∈ [U "P1"; U "P2"] -> p <> [] /\ stripped p.
Proof.
  intros w answer.
  assert (answer
          = (inr {| models.EditResponse.success := true;
                    models.EditResponse.paragraphs := [U "P1"; U "P2"];
                    models.EditResponse.title := Some (U "T2") |},
             answer.2)) as E by (vm_compute; reflexivity).
  split; [by rewrite E|].
  by destruct (edit_route_returns_stored_paragraphs _ _ _ _ E) as (_ & H & _).
Defined.

(** ** The text that is spoken *)

Lemma sub_class_cons (members repl : str) (c : N) (text : str) :
  tts_service.sub_class members repl (c :: text)
  = (if existsb (N.eqb c) members then repl else [c])
    ++ tts_service.sub_class members repl text.
Proof. reflexivity. Qed.

Lemma existsb_eqb_elem (c : N) (l : str) :
  existsb (N.eqb c) l = true <-> c ∈ l.
Proof.
  rewrite existsb_exists. split.
  - intros (d & Hd & ->%N.eqb_eq). by apply list_elem_of_In.
  - intros H. exists c. split; [by apply list_elem_of_In|apply N.eqb_refl].
Qed.

Lemma sub_class_out (c : N) (members repl text : str) :
  existsb (N.eqb c) repl = false ->
  existsb (N.eqb c) members = true \/ c ∉ text ->
  c ∉ tts_service.sub_class members repl text.
Proof.
  intros Hrepl. induction text as [|d text IH]; intros H.
  - apply not_elem_of_nil.
  - rewrite sub_class_cons. rewrite not_elem_of_app. split.
    + destruct (existsb (N.eqb d) members) eqn:Ed.
      * intros Hin%existsb_eqb_elem. congruence.
      * intros ->%list_elem_of_singleton.
        destruct H as [H|H]; [congruence|].
        apply H. left.
    + apply IH. destruct H as [H|H]; [by left|right].
      intros Hin. apply H. by right.
Qed.

Lemma sub_enclosed_go_out (c open close : N) (skip : nat) (s : str) :
  c <> 32%N -> c ∉ s -> c ∉ tts_service.sub_enclosed_go open close skip s.
Proof.
  intros Hc. revert skip. induction s as [|d s IH]; intros skip Hs.
  - apply not_elem_of_nil.
  - apply not_elem_of_cons in Hs as [Hd Hs]. cbn [tts_service.sub_enclosed_go].
    destruct skip as [|k]; [|by apply IH].
    destruct (d =? open)%N; [destruct (tts_service.closing close s)|].
    + unfold tts_service.space. cbn [app].
      apply not_elem_of_cons. split; [done|by apply IH].
    + apply not_elem_of_cons. split; [done|by apply IH].
    + apply not_elem_of_cons. split; [done|by apply IH].
Qed.

Lemma sub_enclosed_out (c open close : N) (s : str) :
  c <> 32%N -> c ∉ s -> c ∉ tts_service.sub_enclosed open close s.
Proof. apply sub_enclosed_go_out. Qed.

Lemma sub_spaces_go_out (c : N) (b : bool) (s : str) :
  c <> 32%N -> c ∉ s -> c ∉ tts_service.sub_spaces_go b s.
Proof.
  intros Hc. revert b. induction s as [|d s IH]; intros b Hs.
  - apply not_elem_of_nil.
  - apply not_elem_of_cons in Hs as [Hd Hs]. cbn [tts_service.sub_spaces_go].
    destruct (isspace d).
    + destruct b; cbn [app tts_service.space]; [by apply IH|].
      apply not_elem_of_cons. split; [done|by apply IH].
    + apply not_elem_of_cons. split; [done|by apply IH].
Qed.

Lemma sub_spaces_out (c : N) (s : str) :
  c <> 32%N -> c ∉ s -> c ∉ tts_service.sub_spaces s.
Proof. apply sub_spaces_go_out. Qed.

Lemma lstrip_suffix (s : str) : exists p, s = p ++ lstrip s.
Proof.
  induction s as [|c s [p IH]]; [by exists []|].
  cbn [lstrip]. destruct (isspace c); [|by exists []].
  exists (c :: p). cbn [app]. by rewrite <- IH.
Qed.

Lemma rstrip_prefix (s : str) : exists q, s = rstrip s ++ q.
Proof.
  unfold rstrip. destruct (lstrip_suffix (rev s)) as [p Hp].
  exists (rev p). rewrite <- rev_app_distr, <- Hp. by rewrite rev_involutive.
Qed.

Lemma strip_infix (s : str) : exists p q, s = p ++ strip s ++ q.
Proof.
  unfold strip. destruct (lstrip_suffix s) as [p Hp].
  destruct (rstrip_prefix (lstrip s)) as [q Hq].
  exists p, q. by rewrite <- Hq.
Qed.

Lemma strip_out (c : N) (s : str) : c ∉ s -> c ∉ strip s.
Proof.
  intros H Hin. apply H. destruct (strip_infix s) as (p & q & ->).
  rewrite !elem_of_app. auto.
Qed.

Lemma strip_head_nonspace (s : str) (c : N) (r : str) :
  strip s = c :: r -> isspace c = false.
Proof.
  unfold strip. intros E.
  destruct (rstrip_prefix (lstrip s)) as [q Hq]. rewrite E in Hq.
  by eapply lstrip_nonspace.
Qed.

Ltac kept_out :=
  lazymatch goal with
  | |- _ ∉ strip _ => apply strip_out; kept_out
  | |- _ ∉ tts_service.sub_class _ _ _ =>
      apply sub_class_out;
      [vm_compute; reflexivity
      |first [left; vm_compute; reflexivity | right; kept_out]]
  | |- _ ∉ tts_service.sub_enclosed _ _ _ =>
      apply sub_enclosed_out; [discriminate|kept_out]
  | |- _ ∉ tts_service.sub_spaces _ =>
      apply sub_spaces_out; [discriminate|kept_out]
  end.

(** X25. The cleaned text holds none of the punctuation marks that
    [clean_text_for_tts] replaces: each is taken out by its own
    substitution, and no later substitution brings one back. *)
Theorem clean_text_has_no_removed_punctuation (text : str) :
  Forall (fun c => c ∉ removed) (tts_service.clean_text_for_tts text).
Proof.
  apply Forall_forall. intros c Hc Hr%list_elem_of_In. revert Hc.
  unfold tts_service.clean_text_for_tts. cbv zeta.
  vm_compute in Hr.
  repeat (destruct Hr as [<-|Hr];
          [lazymatch goal with |- ?c ∈ ?l -> False => change (c ∉ l) end;
           kept_out|]).
  destruct Hr.
Qed.

Lemma sub_spaces_go_single (b : bool) (s : str) :
  single_spaced b (tts_service.sub_spaces_go b s).
Proof.
  revert b. induction s as [|c s IH]; intros b; [exact I|].
  cbn [tts_service.sub_spaces_go]. destruct (isspace c) eqn:Ec.
  - destruct b; cbn [app tts_service.space]; [apply IH|].
    cbn [single_spaced].
    change (isspace 32) with true. cbv iota. auto.
  - cbn [single_spaced]. rewrite Ec. apply IH.
Qed.

Lemma dots_cons (c : N) (t : str) :
  tts_service.sub_class (U ".") (U ". ") (c :: t)
  = (if (c =? 46)%N then [46; 32]%N else [c])
    ++ tts_service.sub_class (U ".") (U ". ") t.
Proof.
  rewrite sub_class_cons. f_equal.
  change (U ".") with [46%N]. change (U ". ") with [46%N; 32%N].
  cbn [existsb]. by rewrite orb_false_r.
Qed.

Lemma head_dots (c : N) (t : str) :
  head (tts_service.sub_class (U ".") (U ". ") (c :: t)) = Some c.
Proof.
  rewrite dots_cons. destruct (c =? 46)%N eqn:E; [|reflexivity].
  apply N.eqb_eq in E as ->. reflexivity.
Qed.

Lemma dots_dotted (prev : N) (b : bool) (t : str) :
  single_spaced b t ->
  dotted prev (tts_service.sub_class (U ".") (U ". ") t).
Proof.
  revert prev b. induction t as [|c t IH]; intros prev b H; [exact I|].
  rewrite dots_cons. cbn [single_spaced] in H.
  destruct (c =? 46)%N eqn:E.
  - apply N.eqb_eq in E as ->. change (isspace 46) with false in H.
    cbv iota in H. cbn [app dotted head].
    change (isspace 46) with false. change (isspace 32) with true.
    split; [discriminate|]. split; [auto|]. by eapply IH.
  - cbn [app dotted]. destruct (isspace c) eqn:Ec.
    + destruct H as (-> & -> & H). split; [|by eapply IH].
      intros _. split; [reflexivity|]. intros Hh.
      destruct t as [|d t]; [discriminate Hh|].
      rewrite head_dots in Hh. injection Hh as ->.
      cbn [single_spaced] in H. change (isspace 32) with true in H.
      cbv iota in H. by destruct H as (_ & [=] & _).
    + split; [discriminate|]. by eapply IH.
Qed.

Lemma dotted_lookup (prev : N) (s : str) :
  dotted prev s ->
  forall i c, s !! i = Some c -> isspace c = true ->
    c = 32%N
    /\ (s !! S i = Some 32%N ->
        match i with O => prev = 46%N | S j => s !! j = Some 46%N end).
Proof.
  revert prev. induction s as [|a s IH]; intros prev H i c Hi Hc;
    [discriminate|].
  destruct H as [Ha Hs]. destruct i as [|i].
  - injection Hi as ->. destruct (Ha Hc) as [-> Hp]. split; [done|].
    intros Hn. apply Hp. by destruct s.
  - destruct (IH a Hs i c Hi Hc) as [-> Hp]. split; [done|].
    intros Hn. specialize (Hp Hn). destruct i as [|j]; [by subst|exact Hp].
Qed.

(** X26. The cleaned text is stripped, it holds no white space but the
    space (so it is one line), and its spaces come one at a time, except
    that a second space can follow the space put after a full stop: two
    spaces in a row are preceded by a full stop, and there are never
    three. *)
Theorem clean_text_spacing (text : str) :
  let out := tts_service.clean_text_for_tts text in
  stripped out
  /\ Forall (fun c => isspace c = true -> c = 32%N) out
  /\ (forall i, out !! i = Some 32%N -> out !! S i = Some 32%N ->
        exists j, i = S j /\ out !! j = Some 46%N)
  /\ (forall i, out !! i = Some 32%N -> out !! S i = Some 32%N ->
        out !! S (S i) <> Some 32%N).
Proof.
  unfold tts_service.clean_text_for_tts. cbv zeta.
  set (t := tts_service.sub_spaces _).
  set (d := tts_service.sub_class (U ".") (U ". ") t).
  assert (dotted 0%N d) as Hd.
  { eapply dots_dotted. apply sub_spaces_go_single. }
  clearbody d. clear t.
  pose proof (dotted_lookup _ _ Hd) as Hl.
  destruct (strip_infix d) as (p & q & Hpq).
  assert (forall i c, strip d !! i = Some c -> d !! (length p + i)%nat = Some c)
    as Hin.
  { intros i c Hi. rewrite Hpq at 1.
    rewrite lookup_app_r by lia.
    replace (length p + i - length p)%nat with i by lia.
    by apply lookup_app_l_Some. }
  assert (forall i, strip d !! i = Some 32%N -> strip d !! S i = Some 32%N ->
            exists j, i = S j /\ strip d !! j = Some 46%N) as Hruns.
  { intros i Hi Hn. destruct i as [|j].
    - destruct (strip d) as [|c r] eqn:E; [discriminate|].
      injection Hi as ->. apply strip_head_nonspace in E.
      discriminate E.
    - exists j. split; [done|].
      destruct (Hl _ _ (Hin _ _ Hi) eq_refl) as [_ Hp].
      replace (S (length p + S j)) with (length p + S (S j))%nat in Hp by lia.
      specialize (Hp (Hin _ _ Hn)).
      replace (length p + S j)%nat with (S (length p + j)) in Hp by lia.
      destruct (strip d !! j) as [c|] eqn:Ej.
      + apply Hin in Ej. congruence.
      + apply lookup_ge_None in Ej. apply lookup_lt_Some in Hi. lia. }
  split; [apply strip_strip|]. split; [|split].
  - apply Forall_forall. intros c Hc Hs.
    apply list_elem_of_lookup in Hc as [i Hi].
    by destruct (Hl _ _ (Hin _ _ Hi) Hs).
  - exact Hruns.
  - intros i Hi Hn Hnn.
    destruct (Hruns _ Hn Hnn) as (j & [= <-] & Hj). congruence.
Qed.

(** ** The speech service *)

Lemma generate_audio_cached hex story_id s f :
  tts_service.story_audio_files s !! story_id = Some f ->
  tts_service.generate_audio_for_story hex story_id s = (Ok f, s).
Proof.
  intros Hf. unfold tts_service.generate_audio_for_story.
  cbv [tts_service.bind tts_service.get tts_service.ret
       tts_service.stored_file].
  rewrite bool_decide_eq_true_2 by (apply elem_of_dom; eauto).
  by rewrite Hf.
Qed.

Lemma generate_audio_fresh hex story_id s :
  tts_service.story_audio_files s !! story_id = None ->
  tts_service.generate_audio_for_story hex story_id s
  = match generate_title_if_missing story_id (tts_service.ai s) with
    | (Raise e, w1) => (Raise e, tts_service.with_ai w1 s)
    | (Ok _, w1) =>
        match get_complete_story story_id w1 with
        | (Raise e, w2) => (Raise e, tts_service.with_ai w2 s)
        | (Ok story_text, w2) =>
            let filename := story_id ++ U "_" ++ hex ++ U ".mp3" in
            if bool_decide (filename ∈ tts_service.audio_files s)
            then (Ok filename,
                  tts_service.with_story_audio_files
                    <[story_id := filename]> (tts_service.with_ai w2 s))
            else
              let cleaned_text := tts_service.clean_text_for_tts story_text in
              match tts_service.gTTS_save s cleaned_text filename
                      (tts_service.audio_files s) with
              | (r, files) =>
                  let s2 :=
                    {| tts_service.ai := w2;
                       tts_service.story_audio_files :=
                         tts_service.story_audio_files s;
                       tts_service.audio_files := files;
                       tts_service.gTTS_save := tts_service.gTTS_save s;
                       tts_service.spoken :=
                         tts_service.spoken s ++ [(cleaned_text, filename)] |} in
                  match r with
                  | Ok _ =>
                      (Ok filename,
                       tts_service.with_story_audio_files
                         <[story_id := filename]> s2)
                  | Raise e => (Raise e, s2)
                  end
              end
        end
    end.
Proof.
  intros Hf. unfold tts_service.generate_audio_for_story.
  cbv [tts_service.bind tts_service.get tts_service.ret tts_service.lift
       tts_service.text_to_speech tts_service.ensure_storage_path
       tts_service.exists_ tts_service.save tts_service.modify
       tts_service.stored_file].
  rewrite bool_decide_eq_false_2 by (by apply not_elem_of_dom).
  destruct (generate_title_if_missing _ _) as [[t|e] w1]; [|reflexivity].
  cbv [tts_service.with_ai tts_service.with_story_audio_files
       tts_service.ai tts_service.audio_files tts_service.gTTS_save
       tts_service.spoken tts_service.story_audio_files].
  destruct s as [w0 cache files0 speak log].
  destruct (get_complete_story _ _) as [[story_text|e] w2]; [|reflexivity].
  destruct (bool_decide _).
  - by rewrite lookup_insert_eq.
  - destruct (speak _ _ _) as [[[]|e] files]; [|reflexivity].
    by rewrite lookup_insert_eq.
Qed.

Lemma with_ai_same (s : tts_service.Studio) :
  tts_service.with_ai (tts_service.ai s) s = s.
Proof. by destruct s. Qed.

(** X27. Audio is generated once for a story: when
    [generate_audio_for_story] returns a file name, the name is stored
    under the story id, and every later call for this id returns the same
    name and does nothing else, whatever has happened to the story in
    between. *)
Theorem audio_is_generated_once
  (hex story_id : str) (s s1 : tts_service.Studio) (f : str) :
  tts_service.generate_audio_for_story hex story_id s = (Ok f, s1) ->
  tts_service.story_audio_files s1 !! story_id = Some f
  /\ forall hex' w',
       tts_service.generate_audio_for_story hex' story_id
         (tts_service.with_ai w' s1)
       = (Ok f, tts_service.with_ai w' s1).
Proof.
  intros Hrun.
  assert (tts_service.story_audio_files s1 !! story_id = Some f) as Hf.
  { destruct (tts_service.story_audio_files s !! story_id) as [f0|] eqn:E.
    - rewrite (generate_audio_cached _ _ _ _ E) in Hrun.
      by injection Hrun as <- <-.
    - rewrite (generate_audio_fresh _ _ _ E) in Hrun.
      destruct (generate_title_if_missing _ _) as [[t|e] w1]; [|done].
      destruct (get_complete_story _ _) as [[story_text|e] w2]; [|done].
      cbv zeta in Hrun. destruct (bool_decide _).
      + injection Hrun as <- <-.
        cbn [tts_service.with_story_audio_files
             tts_service.story_audio_files].
        apply lookup_insert_eq.
      + destruct (tts_service.gTTS_save s _ _ _) as [[[]|e] files];
          [|done].
        injection Hrun as <- <-.
        cbn [tts_service.with_story_audio_files
             tts_service.story_audio_files].
        apply lookup_insert_eq. }
  split; [exact Hf|]. intros hex' w'.
  by apply generate_audio_cached.
Qed.

Lemma audio_is_generated_once_witness :
  let s := studio (started story_then_title) in
  let run := tts_service.generate_audio_for_story (U "0f") (U "id") s in
  tts_service.story_audio_files run.2 !! U "id" = Some (U "id_0f.mp3").
Proof.
  intros s run.
  assert (run.1 = Ok (U "id_0f.mp3")) as E by (vm_compute; reflexivity).
  apply (audio_is_generated_once (U "0f") (U "id") s run.2 (U "id_0f.mp3")).
  rewrite <- E. apply surjective_pairing.
Defined.

Lemma unknown_story_has_no_title story_id w :
  stories_metadata w !! story_id = None
  \/ stories_context w !! story_id = None ->
  generate_title_if_missing story_id w = (Raise invalid_story, w)
  \/ exists t, generate_title_if_missing story_id w = (Ok t, w).
Proof.
  intros H.
  destruct (stories_metadata w !! story_id) as [m|] eqn:Hm.
  - destruct (truthy_opt (title m)) eqn:Htr.
    + right. eexists. by apply generate_title_stored.
    + left. destruct H as [[=]|Hc].
      unfold generate_title_if_missing. unfold bind at 1. unfold get.
      rewrite Hm, Htr. unfold bind at 1. unfold get_complete_story.
      unfold bind at 1. unfold get. rewrite Hc. reflexivity.
  - left. unfold generate_title_if_missing. unfold bind at 1. unfold get.
    rewrite Hm. reflexivity.
Qed.

Lemma unknown_story_has_no_text story_id w :
  stories_context w !! story_id = None ->
  get_complete_story story_id w = (Raise invalid_story, w).
Proof.
  intros Hc. unfold get_complete_story. unfold bind at 1. unfold get.
  rewrite Hc. reflexivity.
Qed.

(** X28. When [generate_audio_for_story] raises, the story had no audio
    and has none afterwards, so that the next call tries again; the
    sessions and their paragraphs are what they were. For an id without
    session the error is the invalid-story one and nothing at all has
    changed. *)
Theorem failed_audio_is_not_recorded
  (hex story_id : str) (s s1 : tts_service.Studio) (e : exn) :
  tts_service.generate_audio_for_story hex story_id s = (Raise e, s1) ->
  tts_service.story_audio_files s !! story_id = None
  /\ tts_service.story_audio_files s1 = tts_service.story_audio_files s
  /\ stories_context (tts_service.ai s1) = stories_context (tts_service.ai s)
  /\ str_lists (tts_service.ai s1) = str_lists (tts_service.ai s)
  /\ (stories_metadata (tts_service.ai s) !! story_id = None
      \/ stories_context (tts_service.ai s) !! story_id = None ->
      e = invalid_story /\ s1 = s).
Proof.
  intros Hrun.
  destruct (tts_service.story_audio_files s !! story_id) as [f0|] eqn:E.
  { by rewrite (generate_audio_cached _ _ _ _ E) in Hrun. }
  split; [done|].
  rewrite (generate_audio_fresh _ _ _ E) in Hrun.
  destruct (generate_title_if_missing _ _) as [rt w1] eqn:Ht.
  assert (stories_context w1 = stories_context (tts_service.ai s)
          /\ str_lists w1 = str_lists (tts_service.ai s)) as [Hc Hs].
  { apply generate_title_cases in Ht
      as [(Hc & _ & Hs & _)|(m & t & _ & _ & _ & Hc & Hs & _)]; done. }
  destruct rt as [t|e1].
  - destruct (get_complete_story story_id w1) as [rc w2] eqn:Hg.
    pose proof (get_complete_story_reads _ _ _ _ Hg) as ->.
    destruct rc as [story_text|e2].
    + cbv zeta in Hrun. destruct (bool_decide _); [done|].
      destruct (tts_service.gTTS_save s _ _ _) as [[[]|e3] files]; [done|].
      injection Hrun as <- <-.
      cbn [tts_service.story_audio_files tts_service.ai].
      split; [done|]. split; [done|]. split; [done|].
      intros Hu.
      destruct (unknown_story_has_no_title _ _ Hu) as [Hr|[t' Hr]];
        rewrite Hr in Ht; [done|]. injection Ht as _ <-.
      destruct Hu as [Hu|Hu].
      * unfold generate_title_if_missing in Hr. unfold bind at 1 in Hr.
        unfold get in Hr. by rewrite Hu in Hr.
      * by rewrite (unknown_story_has_no_text _ _ Hu) in Hg.
    + injection Hrun as <- <-.
      cbn [tts_service.story_audio_files tts_service.ai tts_service.with_ai].
      split; [done|]. split; [done|]. split; [done|].
      intros Hu.
      destruct (unknown_story_has_no_title _ _ Hu) as [Hr|[t' Hr]];
        rewrite Hr in Ht; [done|]. injection Ht as _ <-.
      destruct Hu as [Hu|Hu].
      * unfold generate_title_if_missing in Hr. unfold bind at 1 in Hr.
        unfold get in Hr. by rewrite Hu in Hr.
      * rewrite (unknown_story_has_no_text _ _ Hu) in Hg.
        injection Hg as <-. split; [reflexivity|apply with_ai_same].
  - injection Hrun as <- <-.
    cbn [tts_service.story_audio_files tts_service.ai tts_service.with_ai].
    split; [done|]. split; [done|]. split; [done|].
    intros Hu.
    destruct (unknown_story_has_no_title _ _ Hu) as [Hr|[t' Hr]];
      rewrite Hr in Ht; [|done].
    injection Ht as <- <-. split; [reflexivity|apply with_ai_same].
Qed.

Lemma failed_audio_is_not_recorded_witness :
  let s := studio (started story_then_down) in
  let run := tts_service.generate_audio_for_story (U "0f") (U "id") s in
  tts_service.story_audio_files run.2 = tts_service.story_audio_files s.
Proof.
  intros s run.
  assert (exists e, run.1 = Raise e) as [e E]
    by (eexists; vm_compute; reflexivity).
  apply (failed_audio_is_not_recorded (U "0f") (U "id") s run.2 e).
  rewrite <- E. apply surjective_pairing.
Defined.

(** X29. For a story without audio, a call of [generate_audio_for_story]
    that returns has named the file after the story id and the drawn
    number, has stored the name under the id, and, unless a file of this
    name was there, has asked the speech library once, for this file
    and for the cleaned text of the complete story, title announcement
    included, as the story is stored after the call. *)
Theorem spoken_text_is_the_cleaned_story
  (hex story_id : str) (s s1 : tts_service.Studio) (f : str) :
  tts_service.story_audio_files s !! story_id = None ->
  tts_service.generate_audio_for_story hex story_id s = (Ok f, s1) ->
  f = story_id ++ U "_" ++ hex ++ U ".mp3"
  /\ tts_service.story_audio_files s1
     = <[story_id := f]> (tts_service.story_audio_files s)
  /\ exists c,
       stories_context (tts_service.ai s1) !! story_id = Some c
       /\ if bool_decide (f ∈ tts_service.audio_files s)
          then tts_service.spoken s1 = tts_service.spoken s
               /\ tts_service.audio_files s1 = tts_service.audio_files s
          else tts_service.spoken s1
               = tts_service.spoken s
                 ++ [(tts_service.clean_text_for_tts
                        (full_text
                           (stories_metadata (tts_service.ai s1) !! story_id
                              ≫= title)
                           (str_lists (tts_service.ai s1) !!! paragraphs c)),
                      f)].
Proof.
  intros E Hrun. rewrite (generate_audio_fresh _ _ _ E) in Hrun.
  destruct (generate_title_if_missing _ _) as [[t|e] w1]; [|done].
  destruct (stories_context w1 !! story_id) as [c|] eqn:Hc;
    [|by rewrite (unknown_story_has_no_text _ _ Hc) in Hrun].
  rewrite (get_complete_story_text _ _ _ Hc) in Hrun.
  cbv zeta in Hrun.
  remember (story_id ++ U "_" ++ hex ++ U ".mp3") as filename eqn:Hfn.
  clear Hfn.
  destruct (bool_decide (filename ∈ tts_service.audio_files s)) eqn:Hb.
  - injection Hrun as <- <-. rewrite Hb.
    split; [done|]. split; [done|]. by exists c.
  - destruct (tts_service.gTTS_save s _ _ _) as [[[]|e] files]; [|done].
    injection Hrun as <- <-. rewrite Hb.
    split; [done|]. split; [done|]. by exists c.
Qed.

Lemma spoken_text_is_the_cleaned_story_witness :
  let s := studio (started story_then_title) in
  let run := tts_service.generate_audio_for_story (U "0f") (U "id") s in
  run.1 = Ok (U "id_0f.mp3")
  /\ tts_service.story_audio_files run.2
     = <[U "id" := U "id_0f.mp3"]> (tts_service.story_audio_files s).
Proof.
  intros s run.
  assert (run.1 = Ok (U "id_0f.mp3")) as E by (vm_compute; reflexivity).
  split; [exact E|].
  refine (proj1 (proj2 (spoken_text_is_the_cleaned_story
                          (U "0f") (U "id") s run.2 (U "id_0f.mp3") _ _))).
  - reflexivity.
  - rewrite <- E. apply surjective_pairing.
Defined.
